(** * 9router: the Responses-to-Chat request translator and the project-id service

    A shallow embedding of

    - [openaiResponsesToOpenAIRequest], the request transform registered for the
      edge OPENAI_RESPONSES -> OPENAI (translator file, lines 38-157);
    - [onboardUser] and [getProjectIdForConnection] of the project-id service.

    JavaScript values are embedded as a tree of JSON data extended with
    [undefined]; a thrown exception is an explicit [Throw] completion. *)

From Stdlib Require Import String Ascii List ZArith Floats Bool Lia.
From stdpp Require Import gmap strings list fin_maps.
Import ListNotations.

Set Warnings "-register-all".

Open Scope string_scope.
Open Scope list_scope.

(** ** JavaScript values *)

Module JS.

(** The data a request body is made of. Numbers are IEEE binary64, as in the
    language; an object is its list of own properties in property order. *)
Inductive value : Type :=
| VUndef
| VNull
| VBool (b : bool)
| VNum (x : float)
| VStr (s : string)
| VArr (xs : list value)
| VObj (ps : list (string * value)).

Definition props : Type := list (string * value).

(** What [throw] carries: the [name] and [message] of an Error object. *)
Record js_error : Type := mkError { err_name : string; err_message : string }.

Definition TypeError (msg : string) : js_error := mkError "TypeError" msg.

(** The outcome of evaluating an expression or a call. *)
Inductive completion (A : Type) : Type :=
| Normal (a : A)
| Throw (e : js_error).
Arguments Normal {A} a.
Arguments Throw {A} e.

Definition bind {A B : Type} (c : completion A) (k : A -> completion B) : completion B :=
  match c with
  | Normal a => k a
  | Throw e => Throw e
  end.

Notation "'let*' x ':=' c 'in' k" := (bind c (fun x => k))
  (at level 10, x name, c at level 100, k at level 200).

(** [arr.map(f)] where [f] may throw: elements are visited left to right. *)
Fixpoint mapM {A B : Type} (f : A -> completion B) (xs : list A) : completion (list B) :=
  match xs with
  | [] => Normal []
  | x :: xs' =>
      let* y := f x in
      let* ys := mapM f xs' in
      Normal (y :: ys)
  end.

(** [for (const x of xs) { st = body(x, st) }] with a body that may throw. *)
Fixpoint for_of {A S : Type} (body : A -> S -> completion S) (xs : list A) (st : S)
  : completion S :=
  match xs with
  | [] => Normal st
  | x :: xs' =>
      let* st' := body x st in
      for_of body xs' st'
  end.

(** ToBoolean. *)
Definition truthy (v : value) : bool :=
  match v with
  | VUndef | VNull => false
  | VBool b => b
  | VNum x => negb (PrimFloat.eqb x 0%float || PrimFloat.is_nan x)
  | VStr s => negb (String.eqb s "")
  | VArr _ | VObj _ => true
  end.

Definition nullish (v : value) : bool :=
  match v with
  | VUndef | VNull => true
  | _ => false
  end.

Fixpoint assoc (k : string) (ps : props) : option value :=
  match ps with
  | [] => None
  | (k', x) :: ps' => if String.eqb k' k then Some x else assoc k ps'
  end.

(** The value of [v.k] when [v] is not [null] or [undefined]. The keys read in
    this development ([type], [content], [tools], ...) name no property of a
    primitive wrapper or of [Array.prototype], so only objects answer. *)
Definition prop (v : value) (k : string) : value :=
  match v with
  | VObj ps => match assoc k ps with Some x => x | None => VUndef end
  | _ => VUndef
  end.

(** [v.k]: reading a property of [null] or [undefined] throws a TypeError. *)
Definition get (v : value) (k : string) : completion value :=
  if nullish v
  then Throw (TypeError ("Cannot read properties of null or undefined: " +:+ k))
  else Normal (prop v k).

(** [v === "s"] against a string literal. *)
Definition str_eq (v : value) (s : string) : bool :=
  match v with
  | VStr t => String.eqb t s
  | _ => false
  end.

(** [o.k = x]: replaces the value in place, or appends a new property. *)
Fixpoint obj_set (k : string) (x : value) (ps : props) : props :=
  match ps with
  | [] => [(k, x)]
  | (k', y) :: ps' =>
      if String.eqb k' k then (k, x) :: ps' else (k', y) :: obj_set k x ps'
  end.

(** [delete o.k]. *)
Definition obj_delete (k : string) (ps : props) : props :=
  List.filter (fun p => negb (String.eqb (fst p) k)) ps.

Definition has_key (k : string) (ps : props) : bool :=
  existsb (fun p => String.eqb (fst p) k) ps.

(** [{...v}]: the own enumerable properties of [v]. The translator spreads the
    body only after [body.input] was truthy, which only an object can answer. *)
Definition spread (v : value) : props :=
  match v with
  | VObj ps => ps
  | _ => []
  end.

Fixpoint chars (s : string) : list value :=
  match s with
  | EmptyString => []
  | String a s' => VStr (String a EmptyString) :: chars s'
  end.

(** The iteration protocol of [for ... of]: arrays yield their elements,
    strings their characters; numbers, booleans and plain objects are not
    iterable. *)
Definition iterate (v : value) : completion (list value) :=
  match v with
  | VArr xs => Normal xs
  | VStr s => Normal (chars s)
  | _ => Throw (TypeError "value is not iterable")
  end.

End JS.

Export JS.

(** ** The translator: OpenAI Responses API -> OpenAI Chat Completions *)

Section Translator.

(** [JSON.stringify] is a built-in of the host, not code of this repository:
    the translator is embedded over an arbitrary one. *)
Variable JSON_stringify : value -> value.

(** The state of the pass over [body.input]: the array [result.messages], the
    assistant message under construction ([null], or
    [{role: "assistant", content: null, tool_calls}] given by its [tool_calls])
    and the buffer [pendingToolResults]. *)
Record turn_state : Type := mkTurn {
  messages : list value;
  currentAssistantMsg : option (list value);
  pendingToolResults : list value
}.

Definition assistant_message (tool_calls : list value) : value :=
  VObj [("role", VStr "assistant"); ("content", VNull); ("tool_calls", VArr tool_calls)].

Definition system_message (instructions : value) : value :=
  VObj [("role", VStr "system"); ("content", instructions)].

(** [if (currentAssistantMsg) { result.messages.push(currentAssistantMsg);
    currentAssistantMsg = null; }] *)
Definition flush_assistant (st : turn_state) : turn_state :=
  match currentAssistantMsg st with
  | Some calls =>
      mkTurn (messages st ++ [assistant_message calls]) None (pendingToolResults st)
  | None => st
  end.

(** [if (pendingToolResults.length > 0) { for (const tr of pendingToolResults)
    result.messages.push(tr); pendingToolResults = []; }] *)
Definition flush_tool_results (st : turn_state) : turn_state :=
  match pendingToolResults st with
  | [] => st
  | trs => mkTurn (messages st ++ trs) (currentAssistantMsg st) []
  end.

Definition push_message (st : turn_state) (m : value) : turn_state :=
  mkTurn (messages st ++ [m]) (currentAssistantMsg st) (pendingToolResults st).

(** The callback of [item.content.map]. *)
Definition convert_part (c : value) : completion value :=
  let* ty := get c "type" in
  if str_eq ty "input_text" then
    let* text := get c "text" in
    Normal (VObj [("type", VStr "text"); ("text", text)])
  else if str_eq ty "output_text" then
    let* text := get c "text" in
    Normal (VObj [("type", VStr "text"); ("text", text)])
  else Normal c.

Definition tool_call (call_id name arguments : value) : value :=
  VObj [("id", call_id); ("type", VStr "function");
        ("function", VObj [("name", name); ("arguments", arguments)])].

Definition tool_message (call_id content : value) : value :=
  VObj [("role", VStr "tool"); ("tool_call_id", call_id); ("content", content)].

(** [typeof item.output === "string" ? item.output : JSON.stringify(item.output)] *)
Definition output_content (output : value) : value :=
  match output with
  | VStr _ => output
  | _ => JSON_stringify output
  end.

(** The body of [for (const item of body.input)]. *)
Definition convert_item (item : value) (st : turn_state) : completion turn_state :=
  let* ty := get item "type" in
  if str_eq ty "message" then
    let st := flush_tool_results (flush_assistant st) in
    let* c := get item "content" in
    let* content :=
      match c with
      | VArr cs => let* cs' := mapM convert_part cs in Normal (VArr cs')
      | _ => Normal c
      end in
    let* role := get item "role" in
    Normal (push_message st (VObj [("role", role); ("content", content)]))
  else if str_eq ty "function_call" then
    let calls := match currentAssistantMsg st with Some cs => cs | None => [] end in
    let* call_id := get item "call_id" in
    let* name := get item "name" in
    let* arguments := get item "arguments" in
    Normal (mkTurn (messages st)
                   (Some (calls ++ [tool_call call_id name arguments]))
                   (pendingToolResults st))
  else if str_eq ty "function_call_output" then
    let st := flush_tool_results (flush_assistant st) in
    let* call_id := get item "call_id" in
    let* output := get item "output" in
    Normal (push_message st (tool_message call_id (output_content output)))
  else if str_eq ty "reasoning" then
    Normal st
  else Normal st.

(** The callback of [body.tools.map]. *)
Definition convert_tool (tool : value) : completion value :=
  let* f := get tool "function" in
  if truthy f then Normal tool
  else
    let* name := get tool "name" in
    let* description := get tool "description" in
    let* parameters := get tool "parameters" in
    let* strict := get tool "strict" in
    Normal (VObj [("type", VStr "function");
                  ("function", VObj [("name", name); ("description", description);
                                     ("parameters", parameters); ("strict", strict)])]).

(** The six [delete result.x] statements. *)
Definition cleanup (result : props) : props :=
  obj_delete "reasoning"
    (obj_delete "store"
      (obj_delete "prompt_cache_key"
        (obj_delete "include"
          (obj_delete "instructions"
            (obj_delete "input" result))))).

Definition openaiResponsesToOpenAIRequest (model body stream credentials : value)
  : completion value :=
  let* input := get body "input" in
  if negb (truthy input) then Normal body
  else
    let result := obj_set "messages" (VArr []) (spread body) in
    let* instructions := get body "instructions" in
    let st :=
      mkTurn (if truthy instructions then [system_message instructions] else [])
             None [] in
    let* items := iterate input in
    let* st := for_of convert_item items st in
    let st := flush_tool_results (flush_assistant st) in
    (* the array bound to result.messages is the one the pushes extended *)
    let result := obj_set "messages" (VArr (messages st)) result in
    let* tools := get body "tools" in
    let* result :=
      match tools with
      | VArr ts =>
          let* ts' := mapM convert_tool ts in
          Normal (obj_set "tools" (VArr ts') result)
      | _ => Normal result
      end in
    Normal (VObj (cleanup result)).

End Translator.


(** ** A host: [JSON.stringify] on data

    The serializer of the language standard restricted to the values above (no
    [toJSON], replacer or indentation), with which the translator is run on
    concrete requests. *)

Module Host.

Local Open Scope Z_scope.

Definition digit (n : Z) : ascii := ascii_of_nat (48 + Z.to_nat n).

Fixpoint decimal_fuel (fuel : nat) (n : Z) (acc : string) : string :=
  match fuel with
  | O => acc
  | S fuel' =>
      let acc' := String (digit (n mod 10)) acc in
      if n / 10 =? 0 then acc' else decimal_fuel fuel' (n / 10) acc'
  end.

(** The decimal digits of a natural number. *)
Definition decimal (n : Z) : string :=
  decimal_fuel (S (Z.to_nat (Z.log2 n))) n EmptyString.

Fixpoint zeros (n : nat) : string :=
  match n with
  | O => EmptyString
  | S n' => String "0" (zeros n')
  end.

(** [10^p], for [-400 <= p], in units of [10^-400 * 2^-1080]: every finite
    binary64 number and every decimal candidate below is a whole number of
    these units. *)
Definition unit_at (p : Z) : Z := 10 ^ (p + 400) * 2 ^ 1080.

(** The least [n >= i] with [V < 10^n], where [U] is [10^i] in these units. *)
Fixpoint magnitude (fuel : nat) (i : Z) (U : Z) (V : Z) : Z :=
  match fuel with
  | O => i
  | S fuel' => if V <? U then i else magnitude fuel' (i + 1) (10 * U) V
  end.

(** Number::toString's [s], [k] and [n]: the number is printed from the [k]
    digits of [s], with the decimal point after the [n]-th. *)
Record digits : Type := mkDigits { dd_s : Z; dd_k : Z; dd_n : Z }.

(** The least [k] for which some [s * 10^(n-k)] rounds to the number, that is
    lies between [lo] and [hi]; of two such, the closer, then the even. *)
Fixpoint shortest (fuel : nat) (k n V lo hi : Z) (incl : bool) : digits :=
  let U := unit_at (n - k) in
  let s0 := V / U in
  let ok c := if incl then (lo <=? c) && (c <=? hi) else (lo <? c) && (c <? hi) in
  let c0 := s0 * U in
  let c1 := (s0 + 1) * U in
  let pick s := if s =? 10 ^ k then mkDigits 1 1 (n + 1) else mkDigits s k n in
  match fuel with
  | O => mkDigits s0 k n
  | S fuel' =>
      match ok c0, ok c1 with
      | true, false => pick s0
      | false, true => pick (s0 + 1)
      | true, true =>
          if V - c0 <? c1 - V then pick s0
          else if c1 - V <? V - c0 then pick (s0 + 1)
          else if Z.even s0 then pick s0 else pick (s0 + 1)
      | false, false => shortest fuel' (k + 1) n V lo hi incl
      end
  end.

(** The digits of the positive number [m * 2^e]; [lo] and [hi] are the
    midpoints to its two neighbours, which round to it when [m] is even. *)
Definition number_digits (m : positive) (e : Z) : digits :=
  let V := Z.pos m * 2 ^ (e + 1080) * 10 ^ 400 in
  let up := 2 ^ (e + 1079) * 10 ^ 400 in
  let down :=
    if (Z.pos m =? 2 ^ 52) && (-1074 <? e) then 2 ^ (e + 1078) * 10 ^ 400 else up in
  let n := magnitude 800 (-400) (unit_at (-400)) V in
  shortest 17 1 n V (V - down) (V + up) (Z.even (Z.pos m)).

Definition format_digits (d : digits) : string :=
  let ds := decimal (dd_s d) in
  let k := dd_k d in
  let n := dd_n d in
  if (k <=? n) && (n <=? 21) then ds +:+ zeros (Z.to_nat (n - k))
  else if (0 <? n) && (n <=? 21) then
    substring 0 (Z.to_nat n) ds +:+ "." +:+
    substring (Z.to_nat n) (Z.to_nat (k - n)) ds
  else if (-6 <? n) && (n <=? 0) then "0." +:+ zeros (Z.to_nat (- n)) +:+ ds
  else
    let e := n - 1 in
    (if k =? 1 then ds
     else substring 0 1 ds +:+ "." +:+ substring 1 (Z.to_nat (k - 1)) ds)
    +:+ "e" +:+ (if e <? 0 then "-" else "+") +:+ decimal (Z.abs e).

(** Number::toString, radix 10. *)
Definition Number_toString (x : float) : string :=
  match Prim2SF x with
  | S754_zero _ => "0"
  | S754_infinity s => if s then "-Infinity" else "Infinity"
  | S754_nan => "NaN"
  | S754_finite s m e =>
      (if s then "-" else "") +:+ format_digits (number_digits m e)
  end.

Definition hex_digit (n : nat) : ascii :=
  if (n <? 10)%nat then ascii_of_nat (48 + n) else ascii_of_nat (87 + n).

(** QuoteJSONString on one character. *)
Definition escape (a : ascii) : string :=
  let n := nat_of_ascii a in
  if (n =? 8)%nat then "\b"
  else if (n =? 9)%nat then "\t"
  else if (n =? 10)%nat then "\n"
  else if (n =? 12)%nat then "\f"
  else if (n =? 13)%nat then "\r"
  else if (n =? 34)%nat then String "\" (String a EmptyString)
  else if (n =? 92)%nat then "\\"
  else if (n <? 32)%nat then
    "\u00" +:+ String (hex_digit (n / 16)%nat) (String (hex_digit (n mod 16)%nat) EmptyString)
  else String a EmptyString.

Fixpoint escape_all (s : string) : string :=
  match s with
  | EmptyString => EmptyString
  | String a s' => escape a +:+ escape_all s'
  end.

Definition quote (s : string) : string :=
  String (ascii_of_nat 34) (escape_all s) +:+ String (ascii_of_nat 34) EmptyString.

Fixpoint join (parts : list string) : string :=
  match parts with
  | [] => EmptyString
  | [part] => part
  | part :: parts' => part +:+ "," +:+ join parts'
  end.

(** SerializeJSONProperty: [None] is the answer [undefined]. *)
Fixpoint serialize (v : value) : option string :=
  match v with
  | VUndef => None
  | VNull => Some "null"
  | VBool b => Some (if b then "true" else "false")
  | VNum x =>
      Some (if PrimFloat.is_nan x || PrimFloat.is_infinity x
            then "null" else Number_toString x)
  | VStr s => Some (quote s)
  | VArr xs =>
      Some ("[" +:+
            join (map (fun x => match serialize x with
                                | Some text => text
                                | None => "null"
                                end) xs) +:+
            "]")
  | VObj ps =>
      Some ("{" +:+
            join (flat_map (fun p => match p with
                                     | (k, x) =>
                                         match serialize x with
                                         | Some text => [quote k +:+ ":" +:+ text]
                                         | None => []
                                         end
                                     end) ps) +:+
            "}")
  end.

Definition JSON_stringify (v : value) : value :=
  match serialize v with
  | Some text => VStr text
  | None => VUndef
  end.

Local Close Scope Z_scope.

(** [String.prototype.trim], on strings held as their UTF-8 bytes: the white
    space and line terminators of the language are the six ASCII ones and
    U+00A0, U+1680, U+2000-U+200A, U+2028, U+2029, U+202F, U+205F, U+3000 and
    U+FEFF. *)
Definition ascii_space (b : nat) : bool :=
  ((9 <=? b) && (b <=? 13) || (b =? 32))%nat.

(** The two-byte and three-byte white space, by their bytes in order. *)
Definition space2 (b1 b2 : nat) : bool := ((b1 =? 194) && (b2 =? 160))%nat.

Definition space3 (b1 b2 b3 : nat) : bool :=
  ((b1 =? 225) && (b2 =? 154) && (b3 =? 128) ||
   (b1 =? 226) && (b2 =? 128) &&
     ((128 <=? b3) && (b3 <=? 138) || (b3 =? 168) || (b3 =? 169) || (b3 =? 175)) ||
   (b1 =? 226) && (b2 =? 129) && (b3 =? 159) ||
   (b1 =? 227) && (b2 =? 128) && (b3 =? 128) ||
   (b1 =? 239) && (b2 =? 187) && (b3 =? 191))%nat.

(** One white space character off the front of [bytes]; with [back], off the
    front of a reversed string, where its bytes come last to first. *)
Definition skip_space (back : bool) (bytes : list nat) : option (list nat) :=
  match bytes with
  | [] => None
  | b1 :: rest1 =>
      if ascii_space b1 then Some rest1
      else
        match rest1 with
        | [] => None
        | b2 :: rest2 =>
            if (if back then space2 b2 b1 else space2 b1 b2) then Some rest2
            else
              match rest2 with
              | [] => None
              | b3 :: rest3 =>
                  if (if back then space3 b3 b2 b1 else space3 b1 b2 b3)
                  then Some rest3 else None
              end
        end
  end.

Fixpoint skip_all (back : bool) (fuel : nat) (bytes : list nat) : list nat :=
  match fuel with
  | O => bytes
  | S fuel' =>
      match skip_space back bytes with
      | Some rest => skip_all back fuel' rest
      | None => bytes
      end
  end.

Definition bytes_of (s : string) : list nat := map nat_of_ascii (list_ascii_of_string s).

Definition string_of (bytes : list nat) : string :=
  string_of_list_ascii (map ascii_of_nat bytes).

Definition trim (s : string) : string :=
  let bytes := bytes_of s in
  let front := skip_all false (List.length bytes) bytes in
  string_of (rev (skip_all true (List.length front) (rev front))).

(** [s.slice(0, n)], on strings held as their (well-formed) UTF-8 bytes: the
    first [n] UTF-16 code units. A character of one, two or three bytes is one
    code unit; a character of four bytes is a surrogate pair, two code units,
    and when the cut falls between the two the high surrogate stays, held as
    the three bytes of its code point. *)
Definition high_surrogate (b1 b2 b3 b4 : nat) : list nat :=
  let code :=
    ((Z.of_nat b1 mod 8) * 262144 + (Z.of_nat b2 mod 64) * 4096 +
     (Z.of_nat b3 mod 64) * 64 + Z.of_nat b4 mod 64)%Z in
  let unit := (55296 + (code - 65536) / 1024)%Z in
  [237%nat; Z.to_nat (128 + (unit / 64) mod 64); Z.to_nat (128 + unit mod 64)].

Fixpoint take_units (n : nat) (bytes : list nat) : list nat :=
  match n with
  | O => []
  | S n' =>
      match bytes with
      | [] => []
      | b1 :: rest1 =>
          if (b1 <? 192)%nat then b1 :: take_units n' rest1
          else if (b1 <? 224)%nat then
            match rest1 with
            | b2 :: rest2 => b1 :: b2 :: take_units n' rest2
            | _ => bytes
            end
          else if (b1 <? 240)%nat then
            match rest1 with
            | b2 :: b3 :: rest3 => b1 :: b2 :: b3 :: take_units n' rest3
            | _ => bytes
            end
          else
            match rest1 with
            | b2 :: b3 :: b4 :: rest4 =>
                match n' with
                | O => high_surrogate b1 b2 b3 b4
                | S n'' => b1 :: b2 :: b3 :: b4 :: take_units n'' rest4
                end
            | _ => bytes
            end
      end
  end.

Definition slice_to (n : nat) (s : string) : string :=
  string_of (take_units n (bytes_of s)).

End Host.

(** ** Bodies on which no property read throws

    The translator reads properties of the body, of every input item, of every
    part of an array-valued [content] and of every tool declaration; such a read
    throws exactly when its base is [null] or [undefined]. *)

Definition part_ok (c : value) : bool := negb (nullish c).

Definition item_ok (item : value) : bool :=
  negb (nullish item) &&
  (if str_eq (prop item "type") "message"
   then match prop item "content" with
        | VArr cs => forallb part_ok cs
        | _ => true
        end
   else true).

Definition input_ok (input : value) : bool :=
  match input with
  | VArr items => forallb item_ok items
  | VStr _ => true
  | _ => false
  end.

Definition tools_ok (tools : value) : bool :=
  match tools with
  | VArr ts => forallb (fun t => negb (nullish t)) ts
  | _ => true
  end.

Definition well_formed (body : value) : bool :=
  negb (nullish body) && input_ok (prop body "input") && tools_ok (prop body "tools").

(** ** What each input item contributes

    The value-level reading of [convert_part] and of the three emitting branches
    of [convert_item], used to state the order of the output. *)

Definition part_value (c : value) : value :=
  if str_eq (prop c "type") "input_text" || str_eq (prop c "type") "output_text"
  then VObj [("type", VStr "text"); ("text", prop c "text")]
  else c.

Definition message_of (item : value) : value :=
  VObj [("role", prop item "role");
        ("content", match prop item "content" with
                    | VArr cs => VArr (map part_value cs)
                    | c => c
                    end)].

Definition tool_call_of (item : value) : value :=
  VObj [("id", prop item "call_id"); ("type", VStr "function");
        ("function", VObj [("name", prop item "name");
                           ("arguments", prop item "arguments")])].

Section Emitted.

Variable JSON_stringify : value -> value.

Definition tool_message_of (item : value) : value :=
  VObj [("role", VStr "tool"); ("tool_call_id", prop item "call_id");
        ("content", match prop item "output" with
                    | VStr text => VStr text
                    | output => JSON_stringify output
                    end)].

(** The entries an item adds to the conversation: a message, a tool call or a
    tool result; nothing for any other item type. *)
Definition emitted (item : value) : list value :=
  if str_eq (prop item "type") "message" then [message_of item]
  else if str_eq (prop item "type") "function_call" then [tool_call_of item]
  else if str_eq (prop item "type") "function_call_output" then [tool_message_of item]
  else [].

End Emitted.

(** The conversation entries of an output message: the tool calls of an
    assistant message that carries [tool_calls], the message itself otherwise. *)
Definition entries (m : value) : list value :=
  match prop m "tool_calls" with
  | VArr calls => calls
  | _ => [m]
  end.

Definition open_calls (st : turn_state) : list value :=
  match currentAssistantMsg st with
  | Some calls => calls
  | None => []
  end.

Definition entries_of_state (st : turn_state) : list value :=
  flat_map entries (messages st) ++ open_calls st.

(** ** The translation of a well-formed body, without exceptions

    On a well-formed body no read throws and the pass is a left fold; these
    definitions name its steps. [translate_ok] below proves that the
    translator computes them. *)

Section Reading.

Variable JSON_stringify : value -> value.

Definition next_state (st : turn_state) (item : value) : turn_state :=
  if str_eq (prop item "type") "message" then
    push_message (flush_assistant st) (message_of item)
  else if str_eq (prop item "type") "function_call" then
    mkTurn (messages st) (Some (open_calls st ++ [tool_call_of item])) []
  else if str_eq (prop item "type") "function_call_output" then
    push_message (flush_assistant st) (tool_message_of JSON_stringify item)
  else st.

Definition items_of (input : value) : list value :=
  match input with
  | VArr xs => xs
  | VStr s => chars s
  | _ => []
  end.

Definition initial_state (body : value) : turn_state :=
  mkTurn (if truthy (prop body "instructions")
          then [system_message (prop body "instructions")] else [])
         None [].

Definition final_messages (body : value) : list value :=
  messages (flush_assistant
              (fold_left next_state (items_of (prop body "input")) (initial_state body))).

Definition tool_value (tool : value) : value :=
  if truthy (prop tool "function") then tool
  else VObj [("type", VStr "function");
             ("function", VObj [("name", prop tool "name");
                                ("description", prop tool "description");
                                ("parameters", prop tool "parameters");
                                ("strict", prop tool "strict")])].

Definition with_tools (body : value) (result : props) : props :=
  match prop body "tools" with
  | VArr ts => obj_set "tools" (VArr (map tool_value ts)) result
  | _ => result
  end.

Definition translated (body : value) : value :=
  VObj (cleanup
          (with_tools body
             (obj_set "messages" (VArr (final_messages body))
                (obj_set "messages" (VArr []) (spread body))))).

End Reading.

(** The fields of the Responses dialect that [cleanup] deletes. *)
Definition stripped_fields : list string :=
  ["input"; "instructions"; "include"; "prompt_cache_key"; "store"; "reasoning"].

(** The request of the first scenario:
    [{instructions: "be terse",
      input: [{type: "message", role: "user",
               content: [{type: "input_text", text: "hi"}]}]}]. *)
Definition scenario_body : value :=
  VObj [("instructions", VStr "be terse");
        ("input", VArr [VObj [("type", VStr "message"); ("role", VStr "user");
                              ("content", VArr [VObj [("type", VStr "input_text");
                                                      ("text", VStr "hi")]])]])].

Definition scenario_messages : list value :=
  [VObj [("role", VStr "system"); ("content", VStr "be terse")];
   VObj [("role", VStr "user");
         ("content", VArr [VObj [("type", VStr "text"); ("text", VStr "hi")]])]].

(** A request with a tool call and its output:
    [{model: "gpt-4o", temperature: 0.7, store: false, instructions: "be terse",
      input: [message, reasoning, function_call, function_call_output, message],
      tools: [a flat declaration, a nested declaration]}]. *)
Definition weather_call : value :=
  VObj [("type", VStr "function_call"); ("call_id", VStr "call_1");
        ("name", VStr "get_weather"); ("arguments", VStr "{}")].

Definition weather_output : value :=
  VObj [("type", VStr "function_call_output"); ("call_id", VStr "call_1");
        ("output", VObj [("temp", VNum 72); ("unit", VStr "F")])].

Definition flat_tool : value :=
  VObj [("type", VStr "function"); ("name", VStr "get_weather");
        ("description", VStr "Current weather"); ("parameters", VObj [])].

Definition nested_tool : value :=
  VObj [("type", VStr "function");
        ("function", VObj [("name", VStr "get_time"); ("parameters", VObj [])])].

Definition weather_input : list value :=
  [VObj [("type", VStr "message"); ("role", VStr "user"); ("content", VStr "weather?")];
   VObj [("type", VStr "reasoning"); ("summary", VArr [])];
   weather_call;
   weather_output;
   VObj [("type", VStr "message"); ("role", VStr "assistant");
         ("content", VArr [VObj [("type", VStr "output_text"); ("text", VStr "72F")]])]].

Definition weather_body : value :=
  VObj [("model", VStr "gpt-4o"); ("temperature", VNum 0.5); ("store", VBool false);
        ("instructions", VStr "be terse"); ("input", VArr weather_input);
        ("tools", VArr [flat_tool; nested_tool])].

(** A body that has [tools] but no [input]. *)
Definition chat_body : value :=
  VObj [("model", VStr "gpt-4o");
        ("messages", VArr [VObj [("role", VStr "user"); ("content", VStr "hi")]]);
        ("tools", VArr [flat_tool])].

(** A body with an empty [input] list and an empty [instructions] string. *)
Definition empty_body : value :=
  VObj [("instructions", VStr ""); ("input", VArr [])].

(** A body with an empty [input] list and instructions. *)
Definition instructions_only_body : value :=
  VObj [("instructions", VStr "be terse"); ("input", VArr [])].

(** Tool declarations: one whose [function] field is [null], one that is
    nested but has no [type], and a Responses request that declares them. *)
Definition null_function_tool : value :=
  VObj [("type", VStr "function"); ("name", VStr "get_weather"); ("function", VNull)].

Definition untyped_nested_tool : value :=
  VObj [("function", VObj [("name", VStr "get_time")])].

Definition odd_tools_body : value :=
  VObj [("input", VArr []); ("tools", VArr [null_function_tool; untyped_nested_tool])].

(** ** The project-id service

    [onboardUser] talks to the network and to timers. A run is embedded as the
    list of the effects it performs, in order, together with how it completes;
    what each attempt's [fetch] meets is an input of the run. *)

Module ProjectId.

Record response : Type := mkResponse {
  ok : bool;                      (* response.ok *)
  status : Z;                     (* response.status *)
  text : completion string;       (* await response.text() *)
  json : completion value         (* await response.json() *)
}.

(** [await fetch(...)]: rejected (a network error, or an AbortError when the
    30 s timer fired first) or answered. *)
Inductive fetch_outcome : Type :=
| Rejects (error : js_error)
| Responds (r : response).

Inductive event : Type :=
| SetTimeout (ms : Z)             (* setTimeout(() => controller.abort(), ms) *)
| ClearTimeout                    (* clearTimeout(timeout) *)
| Fetch (accessToken tierID : string)   (* the POST to CLOUD_CODE_API.onboardUser *)
| Sleep (ms : Z)                  (* await new Promise(r => setTimeout(r, ms)) *)
| Log (msg : string)              (* console.log *)
| Warn (msg : string).            (* console.warn *)

(** A computation: the effects performed so far and its completion. *)
Definition io (A : Type) : Type := (list event * completion A)%type.

Definition ret {A : Type} (a : A) : io A := ([], Normal a).

Definition throw {A : Type} (e : js_error) : io A := ([], Throw e).

Definition emit (ev : event) : io unit := ([ev], Normal tt).

Definition lift {A : Type} (c : completion A) : io A := ([], c).

Definition io_bind {A B : Type} (m : io A) (k : A -> io B) : io B :=
  match m with
  | (tr, Normal a) => let (tr', r) := k a in (tr ++ tr', r)
  | (tr, Throw e) => (tr, Throw e)
  end.

(** [try { m } catch (error) { handler }]. *)
Definition try_catch {A : Type} (m : io A) (handler : js_error -> io A) : io A :=
  match m with
  | (tr, Throw e) => let (tr', r) := handler e in (tr ++ tr', r)
  | (tr, Normal a) => (tr, Normal a)
  end.

Notation "'do' x '<-' m ';' k" := (io_bind m (fun x => k))
  (at level 10, x name, m at level 100, k at level 200).
Notation "'do' '_' '<-' m ';' k" := (io_bind m (fun _ => k))
  (at level 10, m at level 100, k at level 200).

Definition MAX_ATTEMPTS : nat := 5.

(** [typeof v === "string"], and the string itself. *)
Definition as_string (v : value) : option string :=
  match v with
  | VStr s => Some s
  | _ => None
  end.

(** [typeof v === "object"], which [null], arrays and objects answer. *)
Definition typeof_object (v : value) : bool :=
  match v with
  | VNull | VArr _ | VObj _ => true
  | _ => false
  end.

(** The two shapes both extractors accept for [cloudaicompanionProject]:
    a non-blank string, or an object with a non-blank string [id]. *)
Definition project_id_of (project : value) : value :=
  match match as_string project with
        | Some s => if truthy (VStr (Host.trim s)) then Some (Host.trim s) else None
        | None => None
        end with
  | Some id => VStr id
  | None =>
      if truthy project && typeof_object project then
        match as_string (prop project "id") with
        | Some id =>
            if truthy (VStr (Host.trim id)) then VStr (Host.trim id) else VNull
        | None => VNull
        end
      else VNull
  end.

Definition extractProjectIdFromOnboard (data : value) : value :=
  if negb (truthy (if nullish data then VUndef else prop data "response"))
  then VNull
  else project_id_of (prop (prop data "response") "cloudaicompanionProject").

Definition extractProjectId (data : value) : value :=
  if negb (truthy data) then VNull
  else project_id_of (prop data "cloudaicompanionProject").

Definition is_true (v : value) : bool :=
  match v with
  | VBool true => true
  | _ => false
  end.

(** How an iteration of the polling loop ends when it does not throw. *)
Inductive control : Type :=
| Return (v : value)
| Continue.

Definition text_of (v : value) : string :=
  match v with
  | VStr s => s
  | _ => EmptyString
  end.

Section OnboardUser.

(** The outcome of the [fetch] of each attempt. *)
Variable upstream : nat -> fetch_outcome.

Variables accessToken tierID : string.

(** The [try] block of one attempt. *)
Definition try_block (attempt : nat) : io control :=
  do response <-
    (match upstream attempt with
     | Rejects error => throw error
     | Responds r => ret r
     end);
  do _ <- emit ClearTimeout;
  do _ <-
    (if negb (ok response) then
       let errorText := match text response with Normal t => t | Throw _ => EmptyString end in
       throw (mkError "Error"
                ("onboardUser HTTP " +:+ Host.decimal (status response) +:+ ": " +:+
                 Host.slice_to 200 errorText))
     else ret tt);
  do data <- lift (json response);
  do done <- lift (get data "done");
  if is_true done then
    let projectId := extractProjectIdFromOnboard data in
    if truthy projectId then
      do _ <- emit (Log ("[ProjectId] Successfully onboarded, project ID: " +:+
                         text_of projectId));
      ret (Return projectId)
    else throw (mkError "Error" "onboardUser done but no project_id in response")
  else
    do _ <- emit (Log ("[ProjectId] Onboard attempt " +:+ Host.decimal (Z.of_nat attempt) +:+
                       "/" +:+ Host.decimal (Z.of_nat MAX_ATTEMPTS) +:+
                       ": not done yet, waiting..."));
    do _ <- emit (Sleep 2000);
    ret Continue.

(** The [catch] block. *)
Definition catch_block (attempt : nat) (error : js_error) : io control :=
  do _ <- emit ClearTimeout;
  if Nat.eqb attempt MAX_ATTEMPTS then
    do _ <- emit (Warn ("[ProjectId] onboardUser failed after " +:+
                        Host.decimal (Z.of_nat MAX_ATTEMPTS) +:+ " attempts: " +:+
                        err_message error));
    ret (Return VNull)
  else if String.eqb (err_name error) "AbortError" then
    do _ <- emit (Warn ("[ProjectId] onboardUser attempt " +:+
                        Host.decimal (Z.of_nat attempt) +:+ " timed out"));
    ret Continue
  else throw error.

(** The body of [for (let attempt = 1; attempt <= MAX_ATTEMPTS; attempt++)]:
    the timer is armed, the request is sent, and its outcome is awaited inside
    the [try] block. *)
Definition attempt_body (attempt : nat) : io control :=
  do _ <- emit (SetTimeout 30000);
  do _ <- emit (Fetch accessToken tierID);
  try_catch (try_block attempt) (catch_block attempt).

(** The loop over the values the counter takes, and the [return null] after it. *)
Fixpoint attempts_loop (attempts : list nat) : io value :=
  match attempts with
  | [] => ret VNull
  | attempt :: rest =>
      do c <- attempt_body attempt;
      match c with
      | Return v => ret v
      | Continue => attempts_loop rest
      end
  end.

Definition onboardUser : io value :=
  do _ <- emit (Log ("[ProjectId] Onboarding user with tier: " +:+ tierID));
  attempts_loop (seq 1 MAX_ATTEMPTS).

End OnboardUser.

Definition is_fetch (ev : event) : bool :=
  match ev with Fetch _ _ => true | _ => false end.

Definition is_sleep (ev : event) : bool :=
  match ev with Sleep _ => true | _ => false end.

(** The number of requests sent, and of waits, in a run. *)
Definition fetches (tr : list event) : nat := List.length (List.filter is_fetch tr).

Definition sleeps (tr : list event) : nat := List.length (List.filter is_sleep tr).

(** The attempt was answered "not done yet": its [try] block ran to its end. *)
Definition not_done_yet (upstream : nat -> fetch_outcome) (attempt : nat) : bool :=
  match snd (try_block upstream attempt) with
  | Normal Continue => true
  | _ => false
  end.

(** The attempt failed: its [try] block threw. *)
Definition failed (upstream : nat -> fetch_outcome) (attempt : nat) : bool :=
  match snd (try_block upstream attempt) with
  | Throw _ => true
  | _ => false
  end.



(** *** [getProjectIdForConnection]

    The function is asynchronous: a call runs up to its first [await], and the
    rest of the started fetch runs when [fetchProjectId] settles. Both halves
    are steps on the state of the module: its two maps, the promises of the
    fetches that are suspended at their [await] with the [connectionId] each
    holds, the values the settled ones resolved with, and the lookups sent. *)

Abbreviation promise := nat.

Record cache_entry : Type := mkEntry { projectId : value; fetchedAt : Z }.

Record service : Type := mkService {
  projectIdCache : gmap string cache_entry;
  pendingFetches : gmap string promise;
  suspended : gmap promise string;
  resolved : gmap promise value;
  next_promise : promise;
  lookups : list (string * string)
}.

Definition CACHE_TTL_MS : Z := 60 * 60 * 1000.

Definition start : service := mkService ∅ ∅ ∅ ∅ 0 [].

(** What the promise returned by a call resolves with: a value known at the
    call, or whatever the fetch promise [p] resolves with. *)
Inductive answer : Type :=
| Resolves (v : value)
| Adopts (p : promise).

Definition fresh (cache : gmap string cache_entry) (connectionId : string) (now : Z)
  : option value :=
  match cache !! connectionId with
  | Some cached =>
      if (now - fetchedAt cached <? CACHE_TTL_MS)%Z then Some (projectId cached) else None
  | None => None
  end.

(** The call, up to the [await] of the fetch it may start; [now] is what
    [Date.now()] answers. *)
Definition getProjectIdForConnection (connectionId accessToken : string) (now : Z)
  (st : service) : answer * service :=
  if negb (truthy (VStr connectionId)) || negb (truthy (VStr accessToken))
  then (Resolves VNull, st)
  else
    match fresh (projectIdCache st) connectionId now with
    | Some id => (Resolves id, st)
    | None =>
        match pendingFetches st !! connectionId with
        | Some p => (Adopts p, st)
        | None =>
            let fetchPromise := next_promise st in
            (Adopts fetchPromise,
             mkService (projectIdCache st)
                       (<[connectionId := fetchPromise]> (pendingFetches st))
                       (<[fetchPromise := connectionId]> (suspended st))
                       (resolved st)
                       (S fetchPromise)
                       (lookups st ++ [(connectionId, accessToken)]))
        end
    end.

(** The rest of the fetch [p], run when [fetchProjectId] settles with
    [outcome]: the [try] body after the [await], the [catch] and the
    [finally]. *)
Definition settle (p : promise) (outcome : completion value) (now : Z) (st : service)
  : service :=
  match suspended st !! p with
  | None => st
  | Some connectionId =>
      let cache :=
        match outcome with
        | Normal id =>
            if truthy id
            then <[connectionId := mkEntry id now]> (projectIdCache st)
            else projectIdCache st
        | Throw _ => projectIdCache st
        end in
      let result :=
        match outcome with
        | Normal id => if truthy id then id else VNull
        | Throw _ => VNull
        end in
      mkService cache
                (delete connectionId (pendingFetches st))
                (delete p (suspended st))
                (<[p := result]> (resolved st))
                (next_promise st)
                (lookups st)
  end.

Definition invalidateProjectId (connectionId : string) (st : service) : service :=
  mkService (delete connectionId (projectIdCache st)) (pendingFetches st)
            (suspended st) (resolved st) (next_promise st) (lookups st).

(** What can happen to the module, with the reading of the clock where the
    code takes one. *)
Inductive action : Type :=
| Call (connectionId accessToken : string) (now : Z)
| Settle (p : promise) (outcome : completion value) (now : Z)
| Invalidate (connectionId : string).

Definition step (st : service) (a : action) : service :=
  match a with
  | Call connectionId accessToken now =>
      snd (getProjectIdForConnection connectionId accessToken now st)
  | Settle p outcome now => settle p outcome now st
  | Invalidate connectionId => invalidateProjectId connectionId st
  end.

Definition run (actions : list action) : service := fold_left step actions start.




End ProjectId.

(** ** The translator over a store of mutable objects

    To state that the translator does not change the object it is given, the
    same function is embedded a second time over a store: objects and arrays
    live at locations, values refer to them, [push], assignment and [delete]
    update the store in place, and aliasing is as in the source (the result
    shares with the body every value it copies). *)

Module Heap.

Abbreviation loc := nat.

Inductive hval : Type :=
| HUndef
| HNull
| HBool (b : bool)
| HNum (x : float)
| HStr (s : string)
| HRef (l : loc).

Inductive object : Type :=
| OArr (elems : list hval)
| OObj (fields : list (string * hval)).

(** The store: location [l] holds the [l]-th object; allocation appends. *)
Abbreviation heap := (list object).

(** A computation on the store. The store is returned also when the
    computation throws: it is what the caller observes afterwards. *)
Definition M (A : Type) : Type := heap -> completion A * heap.

Definition ret {A : Type} (a : A) : M A := fun h => (Normal a, h).

Definition throw {A : Type} (e : js_error) : M A := fun h => (Throw e, h).

Definition bind {A B : Type} (m : M A) (k : A -> M B) : M B :=
  fun h =>
    match m h with
    | (Normal a, h') => k a h'
    | (Throw e, h') => (Throw e, h')
    end.

Notation "'let!' x ':=' m 'in' k" := (bind m (fun x => k))
  (at level 10, x name, m at level 100, k at level 200).
Notation "m ';;' k" := (bind m (fun _ => k))
  (at level 100, k at level 200, right associativity).

Fixpoint mapM {A B : Type} (f : A -> M B) (xs : list A) : M (list B) :=
  match xs with
  | [] => ret []
  | x :: xs' =>
      let! y := f x in
      let! ys := mapM f xs' in
      ret (y :: ys)
  end.

Fixpoint for_of {A S : Type} (body : A -> S -> M S) (xs : list A) (st : S) : M S :=
  match xs with
  | [] => ret st
  | x :: xs' =>
      let! st' := body x st in
      for_of body xs' st'
  end.

Fixpoint for_each {A : Type} (body : A -> M unit) (xs : list A) : M unit :=
  match xs with
  | [] => ret tt
  | x :: xs' => body x ;; for_each body xs'
  end.

(** *** Primitive operations *)

Definition read (l : loc) : M object :=
  fun h =>
    match h !! l with
    | Some o => (Normal o, h)
    | None => (Throw (TypeError "no object at this location"), h)
    end.

Definition alloc (o : object) : M hval :=
  fun h => (Normal (HRef (length h)), h ++ [o]).

Definition write (l : loc) (o : object) : M unit :=
  fun h => (Normal tt, <[l := o]> h).

Definition truthy (v : hval) : bool :=
  match v with
  | HUndef | HNull => false
  | HBool b => b
  | HNum x => negb (PrimFloat.eqb x 0%float || PrimFloat.is_nan x)
  | HStr s => negb (String.eqb s "")
  | HRef _ => true
  end.

Definition str_eq (v : hval) (s : string) : bool :=
  match v with
  | HStr t => String.eqb t s
  | _ => false
  end.

Fixpoint assoc (k : string) (ps : list (string * hval)) : option hval :=
  match ps with
  | [] => None
  | (k', x) :: ps' => if String.eqb k' k then Some x else assoc k ps'
  end.

Fixpoint obj_set (k : string) (x : hval) (ps : list (string * hval))
  : list (string * hval) :=
  match ps with
  | [] => [(k, x)]
  | (k', y) :: ps' =>
      if String.eqb k' k then (k, x) :: ps' else (k', y) :: obj_set k x ps'
  end.

Definition obj_delete (k : string) (ps : list (string * hval)) : list (string * hval) :=
  List.filter (fun p => negb (String.eqb (fst p) k)) ps.

(** [v.k] *)
Definition get (v : hval) (k : string) : M hval :=
  match v with
  | HUndef | HNull =>
      throw (TypeError ("Cannot read properties of null or undefined: " +:+ k))
  | HRef l =>
      let! o := read l in
      ret (match o with
           | OObj ps => match assoc k ps with Some x => x | None => HUndef end
           | OArr _ => HUndef
           end)
  | _ => ret HUndef
  end.

(** [obj.k = x], on a value that was just built as an object. *)
Definition set (obj : hval) (k : string) (x : hval) : M unit :=
  match obj with
  | HRef l =>
      let! o := read l in
      match o with
      | OObj ps => write l (OObj (obj_set k x ps))
      | OArr _ => throw (TypeError "assignment to a property of an array")
      end
  | _ => throw (TypeError "assignment to a property of a primitive")
  end.

(** [delete obj.k] *)
Definition delete_field (obj : hval) (k : string) : M unit :=
  match obj with
  | HRef l =>
      let! o := read l in
      match o with
      | OObj ps => write l (OObj (obj_delete k ps))
      | OArr _ => ret tt
      end
  | _ => ret tt
  end.

(** [arr.push(x)] *)
Definition push (arr : hval) (x : hval) : M unit :=
  match arr with
  | HRef l =>
      let! o := read l in
      match o with
      | OArr xs => write l (OArr (xs ++ [x]))
      | OObj _ => throw (TypeError "push is not a function")
      end
  | _ => throw (TypeError "push is not a function")
  end.

(** [Array.isArray(v)] *)
Definition isArray (v : hval) : M bool :=
  match v with
  | HRef l =>
      let! o := read l in
      ret (match o with OArr _ => true | OObj _ => false end)
  | _ => ret false
  end.

(** The elements of an array, as [for ... of] and [map] visit them. *)
Definition elements (v : hval) : M (list hval) :=
  match v with
  | HRef l =>
      let! o := read l in
      match o with
      | OArr xs => ret xs
      | OObj _ => throw (TypeError "value is not iterable")
      end
  | _ => throw (TypeError "value is not iterable")
  end.

Fixpoint chars (s : string) : list hval :=
  match s with
  | EmptyString => []
  | String a s' => HStr (String a EmptyString) :: chars s'
  end.

Definition iterate (v : hval) : M (list hval) :=
  match v with
  | HStr s => ret (chars s)
  | _ => elements v
  end.

(** The own properties copied by [{...v}], for [v] an object. *)
Definition own_fields (v : hval) : M (list (string * hval)) :=
  match v with
  | HRef l =>
      let! o := read l in
      ret (match o with OObj ps => ps | OArr _ => [] end)
  | _ => ret []
  end.

(** *** The translator *)

Section Translator.

(** [JSON.stringify], which reads the store. *)
Variable JSON_stringify : heap -> hval -> completion hval.

Definition stringify (v : hval) : M hval := fun h => (JSON_stringify h v, h).

(** The local variables [currentAssistantMsg] and [pendingToolResults]. *)
Record locals : Type := mkLocals {
  currentAssistantMsg : hval;
  pendingToolResults : hval
}.

(** [if (currentAssistantMsg) { result.messages.push(currentAssistantMsg);
    currentAssistantMsg = null; }] *)
Definition flush_assistant (result : hval) (vars : locals) : M locals :=
  if truthy (currentAssistantMsg vars) then
    let! msgs := get result "messages" in
    push msgs (currentAssistantMsg vars) ;;
    ret (mkLocals HNull (pendingToolResults vars))
  else ret vars.

(** [if (pendingToolResults.length > 0) { for (const tr of pendingToolResults)
    result.messages.push(tr); pendingToolResults = []; }] *)
Definition flush_tool_results (result : hval) (vars : locals) : M locals :=
  let! trs := elements (pendingToolResults vars) in
  match trs with
  | [] => ret vars
  | _ =>
      for_each (fun tr => let! msgs := get result "messages" in push msgs tr) trs ;;
      let! fresh := alloc (OArr []) in
      ret (mkLocals (currentAssistantMsg vars) fresh)
  end.

Definition convert_part (c : hval) : M hval :=
  let! ty := get c "type" in
  if str_eq ty "input_text" then
    let! text := get c "text" in
    alloc (OObj [("type", HStr "text"); ("text", text)])
  else if str_eq ty "output_text" then
    let! text := get c "text" in
    alloc (OObj [("type", HStr "text"); ("text", text)])
  else ret c.

Definition convert_item (result : hval) (item : hval) (vars : locals) : M locals :=
  let! ty := get item "type" in
  if str_eq ty "message" then
    let! vars := flush_assistant result vars in
    let! vars := flush_tool_results result vars in
    let! c := get item "content" in
    let! is_array := isArray c in
    let! content :=
      (if is_array : bool then
         let! cs := elements c in
         let! cs' := mapM convert_part cs in
         alloc (OArr cs')
       else ret c) in
    let! msgs := get result "messages" in
    let! role := get item "role" in
    let! m := alloc (OObj [("role", role); ("content", content)]) in
    push msgs m ;;
    ret vars
  else if str_eq ty "function_call" then
    let! vars :=
      (if negb (truthy (currentAssistantMsg vars)) then
         let! calls := alloc (OArr []) in
         let! msg := alloc (OObj [("role", HStr "assistant"); ("content", HNull);
                                  ("tool_calls", calls)]) in
         ret (mkLocals msg (pendingToolResults vars))
       else ret vars) in
    let! calls := get (currentAssistantMsg vars) "tool_calls" in
    let! call_id := get item "call_id" in
    let! name := get item "name" in
    let! arguments := get item "arguments" in
    let! f := alloc (OObj [("name", name); ("arguments", arguments)]) in
    let! call := alloc (OObj [("id", call_id); ("type", HStr "function"); ("function", f)]) in
    push calls call ;;
    ret vars
  else if str_eq ty "function_call_output" then
    let! vars := flush_assistant result vars in
    let! vars := flush_tool_results result vars in
    let! msgs := get result "messages" in
    let! call_id := get item "call_id" in
    let! output := get item "output" in
    let! content :=
      (match output with
       | HStr _ => ret output
       | _ => stringify output
       end) in
    let! m := alloc (OObj [("role", HStr "tool"); ("tool_call_id", call_id);
                           ("content", content)]) in
    push msgs m ;;
    ret vars
  else if str_eq ty "reasoning" then ret vars
  else ret vars.

Definition convert_tool (tool : hval) : M hval :=
  let! f := get tool "function" in
  if truthy f then ret tool
  else
    let! name := get tool "name" in
    let! description := get tool "description" in
    let! parameters := get tool "parameters" in
    let! strict := get tool "strict" in
    let! inner := alloc (OObj [("name", name); ("description", description);
                               ("parameters", parameters); ("strict", strict)]) in
    alloc (OObj [("type", HStr "function"); ("function", inner)]).

Definition openaiResponsesToOpenAIRequest (model body stream credentials : hval) : M hval :=
  let! input := get body "input" in
  if negb (truthy input) then ret body
  else
    let! fields := own_fields body in
    let! result := alloc (OObj fields) in
    let! empty := alloc (OArr []) in
    set result "messages" empty ;;
    let! instructions := get body "instructions" in
    (if truthy instructions then
       let! msgs := get result "messages" in
       let! m := alloc (OObj [("role", HStr "system"); ("content", instructions)]) in
       push msgs m
     else ret tt) ;;
    let! pending := alloc (OArr []) in
    let! items := iterate input in
    let! vars := for_of (convert_item result) items (mkLocals HNull pending) in
    (if truthy (currentAssistantMsg vars) then
       let! msgs := get result "messages" in
       push msgs (currentAssistantMsg vars)
     else ret tt) ;;
    let! trs := elements (pendingToolResults vars) in
    for_each (fun tr => let! msgs := get result "messages" in push msgs tr) trs ;;
    let! tools := get body "tools" in
    let! is_array := isArray tools in
    (if truthy tools && is_array then
       let! ts := elements tools in
       let! ts' := mapM convert_tool ts in
       let! arr := alloc (OArr ts') in
       set result "tools" arr
     else ret tt) ;;
    delete_field result "input" ;;
    delete_field result "instructions" ;;
    delete_field result "include" ;;
    delete_field result "prompt_cache_key" ;;
    delete_field result "store" ;;
    delete_field result "reasoning" ;;
    ret result.

End Translator.

(** *** Reading a tree of data out of the store *)

Definition option_all {A : Type} (xs : list (option A)) : option (list A) :=
  fold_right (fun x acc =>
                match x, acc with
                | Some y, Some ys => Some (y :: ys)
                | _, _ => None
                end) (Some []) xs.

(** The data that [v] denotes in the store [h], when the objects it reaches
    nest at most [fuel] deep. *)
Fixpoint reify (fuel : nat) (h : heap) (v : hval) : option value :=
  match v with
  | HUndef => Some VUndef
  | HNull => Some VNull
  | HBool b => Some (VBool b)
  | HNum x => Some (VNum x)
  | HStr s => Some (VStr s)
  | HRef l =>
      match fuel with
      | O => None
      | S fuel' =>
          match h !! l with
          | Some (OArr xs) =>
              match option_all (map (reify fuel' h) xs) with
              | Some ts => Some (VArr ts)
              | None => None
              end
          | Some (OObj ps) =>
              match option_all (map (fun p => match reify fuel' h (snd p) with
                                              | Some t => Some (fst p, t)
                                              | None => None
                                              end) ps) with
              | Some qs => Some (VObj qs)
              | None => None
              end
          | None => None
          end
      end
  end.

(** Building a tree of data in the store, as [JSON.parse] does. *)
Fixpoint store (t : value) : M hval :=
  match t with
  | VUndef => ret HUndef
  | VNull => ret HNull
  | VBool b => ret (HBool b)
  | VNum x => ret (HNum x)
  | VStr s => ret (HStr s)
  | VArr ts =>
      let! xs := (fix store_all (ts : list value) : M (list hval) :=
                    match ts with
                    | [] => ret []
                    | t :: ts' =>
                        let! x := store t in
                        let! xs := store_all ts' in
                        ret (x :: xs)
                    end) ts in
      alloc (OArr xs)
  | VObj qs =>
      let! ps := (fix store_fields (qs : list (string * value)) : M (list (string * hval)) :=
                    match qs with
                    | [] => ret []
                    | (k, t) :: qs' =>
                        let! x := store t in
                        let! ps := store_fields qs' in
                        ret ((k, x) :: ps)
                    end) qs in
      alloc (OObj ps)
  end.

(** *** What a run may do to the store

    [n] is the size of the store at the call: the locations below [n] are the
    caller's. *)

(** [v] is not a reference to one of the caller's objects. *)
Definition fresh_ref (n : nat) (v : hval) : Prop :=
  forall l, v = HRef l -> n <= l.

(** From [h] to [h']: the caller's part of the store is the same, nothing is
    deallocated, and every object keeps its fields [messages] and
    [tool_calls]. *)
Definition grows (n : nat) (h h' : heap) : Prop :=
  take n h' = take n h /\
  length h <= length h' /\
  forall l ps,
    h !! l = Some (OObj ps) ->
    exists ps', h' !! l = Some (OObj ps') /\
                assoc "messages" ps' = assoc "messages" ps /\
                assoc "tool_calls" ps' = assoc "tool_calls" ps.

(** If [v] is a reference, it is to an object whose field [k], if any, is not
    a reference to one of the caller's objects. *)
Definition owns (n : nat) (k : string) (v : hval) (h : heap) : Prop :=
  forall l, v = HRef l ->
            exists ps, h !! l = Some (OObj ps) /\
                       forall x, assoc k ps = Some x -> fresh_ref n x.

(** Started in a store of size at least [n] that satisfies [pre], [m] makes
    the store grow, and satisfies [post] if it returns. *)
Definition spec {A : Type} (n : nat) (pre : heap -> Prop) (m : M A)
  (post : A -> heap -> Prop) : Prop :=
  forall h, n <= length h -> pre h ->
            grows n h (snd (m h)) /\
            forall a, fst (m h) = Normal a -> post a (snd (m h)).

Definition stable (n : nat) (P : heap -> Prop) : Prop :=
  forall h h', grows n h h' -> P h -> P h'.

(** The host serializer on the store. *)
Definition JSON_stringify (h : heap) (v : hval) : completion hval :=
  match reify (S (length h)) h v with
  | Some t =>
      Normal (match Host.JSON_stringify t with
              | VStr s => HStr s
              | _ => HUndef
              end)
  | None => Throw (TypeError "Converting circular structure to JSON")
  end.

End Heap.

(** An upstream that answers "not done yet" four times and then HTTP 503, one
    that is done at the third attempt, and one whose second request fails
    with a network error. *)
Definition answer_json (data : value) : ProjectId.fetch_outcome :=
  ProjectId.Responds (ProjectId.mkResponse true 200 (Normal EmptyString) (Normal data)).

Definition pending_answer : ProjectId.fetch_outcome :=
  answer_json (VObj [("done", VBool false)]).

Definition done_answer : ProjectId.fetch_outcome :=
  answer_json (VObj [("done", VBool true);
                     ("response", VObj [("cloudaicompanionProject",
                                         VObj [("id", VStr " proj-1 ")])])]).

Definition unavailable : ProjectId.fetch_outcome :=
  ProjectId.Responds
    (ProjectId.mkResponse false 503 (Normal "busy") (Throw (mkError "SyntaxError" "not JSON"))).

Definition upstream_never_done (attempt : nat) : ProjectId.fetch_outcome :=
  if (attempt <? 5)%nat then pending_answer else unavailable.

Definition upstream_done_third (attempt : nat) : ProjectId.fetch_outcome :=
  if (attempt <? 3)%nat then pending_answer else done_answer.

Definition upstream_network_error (attempt : nat) : ProjectId.fetch_outcome :=
  if (attempt <? 2)%nat then pending_answer
  else ProjectId.Rejects (TypeError "fetch failed").

(** An item type that makes the pass push to [messages]. *)
Definition closing (item : value) : bool :=
  str_eq (prop item "type") "message" ||
  str_eq (prop item "type") "function_call_output".

(** An item type the pass acts on. *)
Definition supported (item : value) : bool :=
  closing item || str_eq (prop item "type") "function_call".

(** A Responses request whose [input] is a plain string, one whose input holds
    a [null] item, one with two tool calls in a row, and one whose input
    holds an item of another type. *)
Definition string_input_body : value :=
  VObj [("model", VStr "gpt-4o"); ("instructions", VStr "be terse");
        ("input", VStr "hello")].

Definition null_item_body : value :=
  VObj [("input", VArr [VNull])].

Definition time_call : value :=
  VObj [("type", VStr "function_call"); ("call_id", VStr "call_2");
        ("name", VStr "get_time"); ("arguments", VStr "{}")].

Definition two_calls_body : value :=
  VObj [("input", VArr [VObj [("type", VStr "message"); ("role", VStr "user");
                              ("content", VStr "weather and time?")];
                        weather_call; time_call]);
        ("messages", VArr [VStr "stale"]);
        ("tools", VNull)].

Definition reference_item : value :=
  VObj [("type", VStr "item_reference"); ("id", VStr "msg_1")].

(** ** More of the project-id service: timers, [fetchProjectId] *)

Module Lookup.

Import ProjectId.

Definition is_set_timeout (ev : event) : bool :=
  match ev with SetTimeout _ => true | _ => false end.

Definition is_clear_timeout (ev : event) : bool :=
  match ev with ClearTimeout => true | _ => false end.

(** The number of timers armed, and of [clearTimeout] calls, in a run. *)
Definition armed (tr : list event) : nat := List.length (List.filter is_set_timeout tr).

Definition cleared (tr : list event) : nat := List.length (List.filter is_clear_timeout tr).

(** The attempt timed out: its [try] block threw an AbortError. *)
Definition aborted (upstream : nat -> fetch_outcome) (attempt : nat) : bool :=
  match snd (try_block upstream attempt) with
  | Throw error => String.eqb (err_name error) "AbortError"
  | Normal _ => false
  end.

(** The attempts that are retried: answered "not done yet", or timed out
    before the last attempt. *)
Definition moves_on (upstream : nat -> fetch_outcome) (attempt : nat) : Prop :=
  not_done_yet upstream attempt = true \/
  aborted upstream attempt = true /\ attempt <> MAX_ATTEMPTS.

(** A string that is not empty and has no white space at either end. *)
Definition trimmed (id : string) : Prop :=
  id <> EmptyString /\
  Host.skip_space false (Host.bytes_of id) = None /\
  Host.skip_space true (rev (Host.bytes_of id)) = None.

(** The [for] loop of [fetchProjectId] over [data.allowedTiers], with its
    [break]: the id of the first default tier that has a non-blank string id. *)
Fixpoint default_tier (tiers : list value) : string :=
  match tiers with
  | [] => "legacy-tier"
  | tier :: rest =>
      if truthy tier && typeof_object tier && is_true (prop tier "isDefault") then
        match prop tier "id" with
        | VStr id =>
            if truthy (VStr id) && truthy (VStr (Host.trim id))
            then Host.trim id
            else default_tier rest
        | _ => default_tier rest
        end
      else default_tier rest
  end.

(** [tierID] as [fetchProjectId] computes it from the answer of loadCodeAssist. *)
Definition tier_of (data : value) : completion string :=
  let* tiers := get data "allowedTiers" in
  Normal (match tiers with
          | VArr ts => default_tier ts
          | _ => "legacy-tier"
          end).

(** The requests of [fetchProjectId]: the POST to loadCodeAssist, then what
    [onboardUser] does. *)
Inductive lookup_event : Type :=
| LoadCodeAssist (accessToken : string)
| Onboarding (ev : event).

(** [fetchProjectId], given what its own [fetch] meets and what the fetches of
    [onboardUser] meet. *)
Definition fetchProjectId (load : fetch_outcome) (upstream : nat -> fetch_outcome)
  (accessToken : string) : list lookup_event * completion value :=
  match load with
  | Rejects error => ([LoadCodeAssist accessToken], Throw error)
  | Responds response =>
      if negb (ok response) then
        let errorText :=
          match text response with Normal t => t | Throw _ => EmptyString end in
        ([LoadCodeAssist accessToken],
         Throw (mkError "Error"
                  ("loadCodeAssist failed: HTTP " +:+ Host.decimal (status response) +:+
                   " " +:+ Host.slice_to 200 errorText)))
      else
        match json response with
        | Throw error => ([LoadCodeAssist accessToken], Throw error)
        | Normal data =>
            let projectId := extractProjectId data in
            if truthy projectId then ([LoadCodeAssist accessToken], Normal projectId)
            else
              match tier_of data with
              | Throw error => ([LoadCodeAssist accessToken], Throw error)
              | Normal tierID =>
                  (LoadCodeAssist accessToken ::
                   map Onboarding (fst (onboardUser upstream accessToken tierID)),
                   snd (onboardUser upstream accessToken tierID))
              end
        end
  end.

Definition is_request (ev : lookup_event) : bool :=
  match ev with
  | LoadCodeAssist _ => true
  | Onboarding ev => is_fetch ev
  end.

Definition requests (tr : list lookup_event) : nat := List.length (List.filter is_request tr).

(** What the module keeps whatever the clock does: the two tables of
    in-flight fetches mirror each other, one lookup was sent per promise
    made, and what is cached or resolved is a project id, or [null] for a
    resolution. *)
Record tidy (st : service) : Prop := mkTidy {
  tidy_pending :
    forall c p, pendingFetches st !! c = Some p -> suspended st !! p = Some c;
  tidy_suspended :
    forall p c, suspended st !! p = Some c -> pendingFetches st !! c = Some p;
  tidy_bound :
    forall p c, suspended st !! p = Some c -> p < next_promise st;
  tidy_lookups : List.length (lookups st) = next_promise st;
  tidy_cache :
    forall c cached, projectIdCache st !! c = Some cached ->
                     truthy (projectId cached) = true;
  tidy_resolved :
    forall p v, resolved st !! p = Some v -> v = VNull \/ truthy v = true
}.

End Lookup.

(** ** [ensureCloudSyncInitialized]

    The function is asynchronous: a call tests the flag and, when it is not
    set, calls [initializeCloudSync] and is suspended until that settles; the
    rest of the call then sets the flag on success, logs on failure, and
    returns the flag as it is then. Calls may overlap, so the two halves are
    separate steps on the state of the module. *)

Module CloudSync.

Record state : Type := mkState {
  initialized : bool;             (* the module variable *)
  invocations : nat;              (* calls of initializeCloudSync so far *)
  errors_logged : nat             (* console.error calls so far *)
}.

Definition start : state := mkState false 0 0.

(** A call up to its [await]: [Some b] when it returns [b] without awaiting. *)
Definition enter (st : state) : option bool * state :=
  if negb (initialized st)
  then (None, mkState (initialized st) (S (invocations st)) (errors_logged st))
  else (Some (initialized st), st).

(** The rest of a suspended call, run when [initializeCloudSync] settles. *)
Definition resume (outcome : completion unit) (st : state) : bool * state :=
  match outcome with
  | Normal _ => (true, mkState true (invocations st) (errors_logged st))
  | Throw _ =>
      (initialized st, mkState (initialized st) (invocations st) (S (errors_logged st)))
  end.

Inductive action : Type :=
| Enter
| Resume (outcome : completion unit).

Definition step (st : state) (a : action) : state :=
  match a with
  | Enter => snd (enter st)
  | Resume outcome => snd (resume outcome st)
  end.

Definition run (actions : list action) : state := fold_left step actions start.

Definition succeeded (a : action) : bool :=
  match a with
  | Resume (Normal _) => true
  | _ => false
  end.

Definition entered (a : action) : bool :=
  match a with
  | Enter => true
  | _ => false
  end.

Definition rejected (a : action) : bool :=
  match a with
  | Resume (Throw _) => true
  | _ => false
  end.

End CloudSync.

(** ** The machine id

    [getRawMachineIdWithFallback] keeps the raw id in a module variable. The
    digest [crypto.createHash("sha256").update(s).digest("hex")] and what
    [machineIdSync()] does at each call are taken as given; the environment is
    what [os.hostname()] and [process.env] answer at the call. *)

Module MachineId.

Record env : Type := mkEnv {
  hostname : string;                        (* os.hostname() *)
  USERNAME : option string;                 (* process.env.USERNAME *)
  USER : option string;                     (* process.env.USER *)
  DEBUG_MACHINE_ID : option string;         (* process.env.DEBUG_MACHINE_ID *)
  MACHINE_ID_SALT : option string           (* process.env.MACHINE_ID_SALT *)
}.

Record state : Type := mkState {
  cachedRawMachineId : option string;       (* null, or the string assigned *)
  machineIdErrorLogged : bool;
  warnings : nat                            (* console.warn calls so far *)
}.

Definition start : state := mkState None false 0.

(** [a || b] where [a] is a string, [undefined] or [null]. *)
Definition or_else (a : option string) (b : string) : string :=
  match a with
  | Some s => if truthy (VStr s) then s else b
  | None => b
  end.

Section Digest.

Variable sha256_hex : string -> string.

Definition buildStableFallbackId (e : env) (saltValue : string) : string :=
  let host := or_else (Some (hostname e)) "unknown-host" in
  let user := or_else (USERNAME e) (or_else (USER e) "unknown-user") in
  sha256_hex (host +:+ ":" +:+ user +:+ ":" +:+ saltValue).

Definition getRawMachineIdWithFallback (machineIdSync : completion string) (e : env)
  (saltValue : string) (st : state) : string * state :=
  let compute :=
    match machineIdSync with
    | Normal id => (id, mkState (Some id) (machineIdErrorLogged st) (warnings st))
    | Throw error =>
        let warned :=
          negb (machineIdErrorLogged st) &&
          match DEBUG_MACHINE_ID e with
          | Some flag => String.eqb flag "1"
          | None => false
          end in
        let id := buildStableFallbackId e ("raw:" +:+ saltValue) in
        (id, mkState (Some id) true (if warned then S (warnings st) else warnings st))
    end in
  match cachedRawMachineId st with
  | Some id => if truthy (VStr id) then (id, st) else compute
  | None => compute
  end.

Definition getConsistentMachineId (machineIdSync : completion string) (e : env)
  (salt : option string) (st : state) : string * state :=
  let saltValue := or_else salt (or_else (MACHINE_ID_SALT e) "endpoint-proxy-salt") in
  let (rawMachineId, st') := getRawMachineIdWithFallback machineIdSync e saltValue st in
  let hashedMachineId := sha256_hex (rawMachineId +:+ saltValue) in
  (substring 0 16 hashedMachineId, st').

Definition getRawMachineId (machineIdSync : completion string) (e : env) (st : state)
  : string * state :=
  let saltValue := or_else (MACHINE_ID_SALT e) "endpoint-proxy-salt" in
  getRawMachineIdWithFallback machineIdSync e saltValue st.

(** A call of one of the two exported functions, with what [machineIdSync]
    would do and the environment at that time. *)
Inductive call : Type :=
| Consistent (machineIdSync : completion string) (e : env) (salt : option string)
| Raw (machineIdSync : completion string) (e : env).

Definition perform (c : call) (st : state) : string * state :=
  match c with
  | Consistent machineIdSync e salt => getConsistentMachineId machineIdSync e salt st
  | Raw machineIdSync e => getRawMachineId machineIdSync e st
  end.

(** The raw id a call works with. *)
Definition raw_of (c : call) (st : state) : string :=
  match c with
  | Consistent machineIdSync e salt =>
      fst (getRawMachineIdWithFallback machineIdSync e
             (or_else salt (or_else (MACHINE_ID_SALT e) "endpoint-proxy-salt")) st)
  | Raw machineIdSync e => fst (getRawMachineId machineIdSync e st)
  end.

Fixpoint raws (calls : list call) (st : state) : list string :=
  match calls with
  | [] => []
  | c :: rest => raw_of c st :: raws rest (snd (perform c st))
  end.

Definition run (calls : list call) (st : state) : state :=
  fold_left (fun st c => snd (perform c st)) calls st.

End Digest.

(** A stand-in for the digest in the examples: never empty, and different
    for different arguments. *)
Definition sample_digest (s : string) : string := "feedfacecafebeef" +:+ s.

Definition sample_env : env :=
  mkEnv "build-host" None (Some "ci") None None.

End MachineId.

(** Answers of loadCodeAssist: one that names the project, one that names
    only the tiers, the default one last. *)
Definition load_with_project : ProjectId.fetch_outcome :=
  answer_json (VObj [("cloudaicompanionProject", VStr "proj-7")]).

Definition paid_tier : value :=
  VObj [("id", VStr "standard-tier"); ("isDefault", VBool false)].

Definition free_tier : value :=
  VObj [("id", VStr " free-tier "); ("isDefault", VBool true)].

Definition load_without_project : ProjectId.fetch_outcome :=
  answer_json (VObj [("allowedTiers", VArr [paid_tier; free_tier])]).

(** * Properties *)

(** ** Facts about property lists *)

Section PropertyLists.

Lemma get_Normal (v : value) (k : string) :
  nullish v = false -> get v k = Normal (prop v k).
Proof. intros H. unfold get. now rewrite H. Qed.

Lemma get_inv (v : value) (k : string) (x : value) :
  get v k = Normal x -> nullish v = false /\ x = prop v k.
Proof.
  unfold get. destruct (nullish v); [discriminate |].
  intros E. injection E as <-. split; reflexivity.
Qed.

Lemma assoc_obj_set_eq (k : string) (x : value) (ps : props) :
  assoc k (obj_set k x ps) = Some x.
Proof.
  induction ps as [| [k' y] ps IH]; simpl.
  - now rewrite String.eqb_refl.
  - destruct (String.eqb_spec k' k) as [-> | Hne]; simpl.
    + now rewrite String.eqb_refl.
    + destruct (String.eqb_spec k' k); [contradiction | exact IH].
Qed.

Lemma assoc_obj_set_ne (k k' : string) (x : value) (ps : props) :
  k <> k' -> assoc k' (obj_set k x ps) = assoc k' ps.
Proof.
  intros Hne. induction ps as [| [j y] ps IH]; simpl.
  - destruct (String.eqb_spec k k'); [contradiction | reflexivity].
  - destruct (String.eqb_spec j k) as [-> | Hjk]; simpl.
    + destruct (String.eqb_spec k k'); [contradiction | reflexivity].
    + destruct (String.eqb_spec j k'); [reflexivity | exact IH].
Qed.

Lemma assoc_obj_delete_eq (k : string) (ps : props) :
  assoc k (obj_delete k ps) = None.
Proof.
  induction ps as [| [j y] ps IH]; simpl; [reflexivity |].
  destruct (String.eqb_spec j k) as [-> | Hjk]; simpl; [exact IH |].
  destruct (String.eqb_spec j k); [contradiction | exact IH].
Qed.

Lemma assoc_obj_delete_ne (k k' : string) (ps : props) :
  k <> k' -> assoc k' (obj_delete k ps) = assoc k' ps.
Proof.
  intros Hne. induction ps as [| [j y] ps IH]; simpl; [reflexivity |].
  destruct (String.eqb_spec j k) as [-> | Hjk]; simpl.
  - destruct (String.eqb_spec k k'); [contradiction | exact IH].
  - destruct (String.eqb_spec j k'); [reflexivity | exact IH].
Qed.

Lemma has_key_assoc (k : string) (ps : props) :
  has_key k ps = false <-> assoc k ps = None.
Proof.
  induction ps as [| [j y] ps IH]; simpl; [tauto |].
  destruct (String.eqb j k); simpl; [split; discriminate | exact IH].
Qed.

Lemma has_key_obj_delete_eq (k : string) (ps : props) :
  has_key k (obj_delete k ps) = false.
Proof. apply has_key_assoc, assoc_obj_delete_eq. Qed.

Lemma has_key_obj_delete_ne (k k' : string) (ps : props) :
  has_key k' ps = false -> has_key k' (obj_delete k ps) = false.
Proof.
  unfold obj_delete. induction ps as [| [j y] ps IH]; simpl; [reflexivity |].
  destruct (String.eqb j k') eqn:E; simpl; [discriminate |].
  intros H. destruct (negb (String.eqb j k)); simpl; [rewrite E; simpl |]; auto.
Qed.

(** Deleting [k] forgets an earlier assignment to [k]. *)
Lemma obj_delete_obj_set_eq (k : string) (x : value) (ps : props) :
  obj_delete k (obj_set k x ps) = obj_delete k ps.
Proof.
  induction ps as [| [j y] ps IH]; simpl.
  - now rewrite String.eqb_refl.
  - destruct (String.eqb_spec j k) as [-> | Hjk]; simpl.
    + now rewrite String.eqb_refl.
    + destruct (String.eqb_spec j k); [contradiction |]. simpl. now rewrite IH.
Qed.

(** Deleting [k] commutes with an assignment to another key. *)
Lemma obj_delete_obj_set_ne (k k' : string) (x : value) (ps : props) :
  k <> k' -> obj_delete k (obj_set k' x ps) = obj_set k' x (obj_delete k ps).
Proof.
  intros Hne. induction ps as [| [j y] ps IH]; simpl.
  - destruct (String.eqb_spec k' k); [congruence | reflexivity].
  - destruct (String.eqb_spec j k') as [-> | Hjk']; simpl.
    + destruct (String.eqb_spec k' k); [congruence |]. simpl.
      now rewrite String.eqb_refl.
    + destruct (String.eqb_spec j k) as [-> | Hjk]; simpl; [exact IH |].
      destruct (String.eqb_spec j k'); [contradiction |]. now rewrite IH.
Qed.

Lemma obj_delete_comm (k k' : string) (ps : props) :
  obj_delete k (obj_delete k' ps) = obj_delete k' (obj_delete k ps).
Proof.
  unfold obj_delete. induction ps as [| [j y] ps IH]; simpl; [reflexivity |].
  destruct (String.eqb j k') eqn:E', (String.eqb j k) eqn:E; simpl;
    rewrite ?E, ?E'; simpl; now rewrite IH.
Qed.

End PropertyLists.

(** ** Facts about the pass over the input items *)

Section TranslatorFacts.

Variable JSON_stringify : value -> value.

Lemma for_of_app {A S : Type} (f : A -> S -> completion S) (xs ys : list A) (st : S) :
  for_of f (xs ++ ys) st = (let* st' := for_of f xs st in for_of f ys st').
Proof.
  revert st. induction xs as [| x xs IH]; intros st; simpl; [reflexivity |].
  destruct (f x st) as [st' | e]; simpl; [apply IH | reflexivity].
Qed.

Lemma mapM_convert_part (cs : list value) :
  forallb part_ok cs = true -> mapM convert_part cs = Normal (map part_value cs).
Proof.
  induction cs as [| c cs IH]; simpl; [reflexivity |].
  intros H. apply andb_prop in H as [Hc Hcs]. rewrite (IH Hcs).
  unfold part_ok in Hc. apply negb_true_iff in Hc.
  unfold convert_part, part_value. rewrite !(get_Normal _ _ Hc). simpl.
  destruct (str_eq (prop c "type") "input_text"); simpl; [reflexivity |].
  destruct (str_eq (prop c "type") "output_text"); reflexivity.
Qed.

Lemma flush_tool_results_nil (st : turn_state) :
  pendingToolResults st = [] -> flush_tool_results st = st.
Proof. unfold flush_tool_results. now intros ->. Qed.

Lemma flush_assistant_pending (st : turn_state) :
  pendingToolResults (flush_assistant st) = pendingToolResults st.
Proof. unfold flush_assistant. now destruct (currentAssistantMsg st). Qed.

Lemma flush_assistant_current (st : turn_state) :
  currentAssistantMsg (flush_assistant st) = None.
Proof. unfold flush_assistant. now destruct (currentAssistantMsg st) eqn:E. Qed.

Lemma flush_assistant_messages (st : turn_state) :
  messages (flush_assistant st) =
  messages st ++ match currentAssistantMsg st with
                 | Some calls => [assistant_message calls]
                 | None => []
                 end.
Proof.
  unfold flush_assistant. destruct (currentAssistantMsg st); simpl;
    [reflexivity | now rewrite app_nil_r].
Qed.

(** What one iteration does to a state whose buffer is empty. *)
Lemma convert_item_ok (item : value) (st : turn_state) :
  item_ok item = true ->
  pendingToolResults st = [] ->
  convert_item JSON_stringify item st =
  Normal
    (if str_eq (prop item "type") "message" then
       push_message (flush_assistant st) (message_of item)
     else if str_eq (prop item "type") "function_call" then
       mkTurn (messages st) (Some (open_calls st ++ [tool_call_of item])) []
     else if str_eq (prop item "type") "function_call_output" then
       push_message (flush_assistant st) (tool_message_of JSON_stringify item)
     else st).
Proof.
  intros Hok Hp. unfold item_ok in Hok. apply andb_prop in Hok as [Hn Hc].
  apply negb_true_iff in Hn.
  unfold convert_item. rewrite !(get_Normal _ _ Hn). simpl.
  rewrite (flush_tool_results_nil (flush_assistant st))
    by (now rewrite flush_assistant_pending).
  destruct (str_eq (prop item "type") "message").
  - unfold message_of.
    destruct (prop item "content"); simpl; try reflexivity.
    now rewrite (mapM_convert_part _ Hc).
  - destruct (str_eq (prop item "type") "function_call").
    + unfold open_calls, tool_call_of. now rewrite Hp.
    + destruct (str_eq (prop item "type") "function_call_output").
      * unfold tool_message_of, tool_message, output_content.
        now destruct (prop item "output").
      * now destruct (str_eq (prop item "type") "reasoning").
Qed.

Lemma next_state_pending (st : turn_state) (item : value) :
  pendingToolResults st = [] ->
  pendingToolResults (next_state JSON_stringify st item) = [].
Proof.
  intros Hp. unfold next_state.
  repeat match goal with |- context [if ?b then _ else _] => destruct b end;
    simpl; rewrite ?flush_assistant_pending; auto.
Qed.

Lemma fold_next_state_pending (items : list value) (st : turn_state) :
  pendingToolResults st = [] ->
  pendingToolResults (fold_left (next_state JSON_stringify) items st) = [].
Proof.
  revert st. induction items as [| item items IH]; intros st Hp; simpl; [exact Hp |].
  apply IH, next_state_pending, Hp.
Qed.

(** On well-formed items the loop is the left fold of [next_state]. *)
Lemma for_of_convert_item (items : list value) (st : turn_state) :
  forallb item_ok items = true ->
  pendingToolResults st = [] ->
  for_of (convert_item JSON_stringify) items st =
  Normal (fold_left (next_state JSON_stringify) items st).
Proof.
  revert st. induction items as [| item items IH]; intros st Hok Hp; simpl;
    [reflexivity |].
  simpl in Hok. apply andb_prop in Hok as [Hi His].
  rewrite (convert_item_ok item st Hi Hp). simpl.
  apply (IH _ His), next_state_pending, Hp.
Qed.

Lemma item_ok_chars (s : string) : forallb item_ok (chars s) = true.
Proof. induction s as [| a s IH]; simpl; [reflexivity | exact IH]. Qed.

Lemma input_ok_items (input : value) :
  input_ok input = true ->
  iterate input = Normal (items_of input) /\ forallb item_ok (items_of input) = true.
Proof.
  destruct input; simpl; try discriminate; intros H; split; auto using item_ok_chars.
Qed.

Lemma mapM_convert_tool (ts : list value) :
  forallb (fun t => negb (nullish t)) ts = true ->
  mapM convert_tool ts = Normal (map tool_value ts).
Proof.
  induction ts as [| t ts IH]; simpl; [reflexivity |].
  intros H. apply andb_prop in H as [Ht Hts]. rewrite (IH Hts).
  apply negb_true_iff in Ht.
  unfold convert_tool, tool_value. rewrite !(get_Normal _ _ Ht). simpl.
  now destruct (truthy (prop t "function")).
Qed.

(** The translator computes [translated] on every well-formed body whose
    [input] is truthy; in particular it returns. *)
Lemma translate_ok (model body stream credentials : value) :
  well_formed body = true ->
  truthy (prop body "input") = true ->
  openaiResponsesToOpenAIRequest JSON_stringify model body stream credentials =
  Normal (translated JSON_stringify body).
Proof.
  intros Hwf Hin. unfold well_formed in Hwf.
  apply andb_prop in Hwf as [Hwf Htools]. apply andb_prop in Hwf as [Hb Hinput].
  apply negb_true_iff in Hb.
  destruct (input_ok_items _ Hinput) as [Hiter Hitems].
  unfold openaiResponsesToOpenAIRequest.
  rewrite !(get_Normal _ _ Hb). simpl. rewrite Hin. simpl.
  rewrite Hiter. simpl.
  rewrite (for_of_convert_item _ _ Hitems) by reflexivity. simpl.
  rewrite flush_tool_results_nil
    by (rewrite flush_assistant_pending; now apply fold_next_state_pending).
  unfold translated, with_tools, final_messages, initial_state.
  destruct (prop body "tools"); simpl; try reflexivity.
  simpl in Htools. now rewrite (mapM_convert_tool _ Htools).
Qed.

Lemma assoc_cleanup_other (k : string) (result : props) :
  ~ In k stripped_fields -> assoc k (cleanup result) = assoc k result.
Proof.
  intros Hk. unfold cleanup.
  rewrite !assoc_obj_delete_ne; [reflexivity | ..];
    intros <-; apply Hk; unfold stripped_fields; simpl; tauto.
Qed.

Lemma has_key_cleanup (k : string) (result : props) :
  In k stripped_fields -> has_key k (cleanup result) = false.
Proof.
  unfold stripped_fields, cleanup. simpl.
  intros [<- | [<- | [<- | [<- | [<- | [<- | []]]]]]];
    repeat first [ apply has_key_obj_delete_eq | apply has_key_obj_delete_ne ].
Qed.

Lemma assoc_with_tools_other (k : string) (body : value) (result : props) :
  k <> "tools" -> assoc k (with_tools body result) = assoc k result.
Proof.
  intros Hk. unfold with_tools. destruct (prop body "tools"); try reflexivity.
  apply assoc_obj_set_ne. congruence.
Qed.

Lemma prop_translated_messages (body : value) :
  prop (translated JSON_stringify body) "messages" =
  VArr (final_messages JSON_stringify body).
Proof.
  unfold translated, prop.
  rewrite assoc_cleanup_other
    by (unfold stripped_fields; simpl; intros H; intuition discriminate).
  rewrite assoc_with_tools_other by discriminate.
  now rewrite assoc_obj_set_eq.
Qed.

Lemma next_state_messages (st : turn_state) (item : value) :
  exists more, messages (next_state JSON_stringify st item) = messages st ++ more.
Proof.
  unfold next_state.
  repeat match goal with |- context [if ?b then _ else _] => destruct b end;
    simpl; rewrite ?flush_assistant_messages, <- ?app_assoc; eauto;
    exists []; now rewrite app_nil_r.
Qed.

Lemma fold_next_state_messages (items : list value) (st : turn_state) :
  exists more,
    messages (fold_left (next_state JSON_stringify) items st) = messages st ++ more.
Proof.
  revert st. induction items as [| item items IH]; intros st; simpl.
  - exists []. now rewrite app_nil_r.
  - destruct (IH (next_state JSON_stringify st item)) as [m2 ->].
    destruct (next_state_messages st item) as [m1 ->].
    exists (m1 ++ m2). now rewrite app_assoc.
Qed.


Lemma str_eq_true (v : value) (s : string) : str_eq v s = true -> v = VStr s.
Proof.
  destruct v; simpl; try discriminate. intros H. apply String.eqb_eq in H. now subst.
Qed.

Lemma next_state_function_call (st : turn_state) (item : value) :
  str_eq (prop item "type") "function_call" = true ->
  next_state JSON_stringify st item =
  mkTurn (messages st) (Some (open_calls st ++ [tool_call_of item])) [].
Proof. intros H. unfold next_state. now rewrite (str_eq_true _ _ H). Qed.

Lemma next_state_function_call_output (st : turn_state) (item : value) :
  str_eq (prop item "type") "function_call_output" = true ->
  next_state JSON_stringify st item =
  push_message (flush_assistant st) (tool_message_of JSON_stringify item).
Proof. intros H. unfold next_state. now rewrite (str_eq_true _ _ H). Qed.

Lemma entries_of_state_next (st : turn_state) (item : value) :
  entries_of_state (next_state JSON_stringify st item) =
  entries_of_state st ++ emitted JSON_stringify item.
Proof.
  unfold next_state, emitted, entries_of_state, open_calls.
  destruct (str_eq (prop item "type") "message");
    [| destruct (str_eq (prop item "type") "function_call");
       [| destruct (str_eq (prop item "type") "function_call_output")]];
    simpl; rewrite ?flush_assistant_messages, ?flush_assistant_current, ?flat_map_app;
    destruct (currentAssistantMsg st); simpl;
    rewrite ?app_nil_r, <- ?app_assoc; reflexivity.
Qed.

Lemma entries_of_state_fold (items : list value) (st : turn_state) :
  entries_of_state (fold_left (next_state JSON_stringify) items st) =
  entries_of_state st ++ flat_map (emitted JSON_stringify) items.
Proof.
  revert st. induction items as [| item items IH]; intros st; simpl.
  - now rewrite app_nil_r.
  - now rewrite IH, entries_of_state_next, <- app_assoc.
Qed.

Lemma entries_flush_assistant (st : turn_state) :
  flat_map entries (messages (flush_assistant st)) = entries_of_state st.
Proof.
  rewrite flush_assistant_messages, flat_map_app. unfold entries_of_state, open_calls.
  destruct (currentAssistantMsg st); simpl; now rewrite ?app_nil_r.
Qed.

(** An item of type "reasoning" leaves the state of the pass as it is. *)
Lemma convert_item_reasoning (item : value) (st : turn_state) :
  str_eq (prop item "type") "reasoning" = true ->
  convert_item JSON_stringify item st = Normal st.
Proof.
  intros H. pose proof (str_eq_true _ _ H) as Hty.
  assert (Hn : nullish item = false) by (destruct item; simpl in *; congruence).
  unfold convert_item. rewrite (get_Normal _ _ Hn). simpl. now rewrite Hty.
Qed.

Lemma obj_delete_input_messages (input msgs msgs0 : value) (fields : props) :
  obj_delete "input"
    (obj_set "messages" msgs (obj_set "messages" msgs0 (obj_set "input" input fields))) =
  obj_set "messages" msgs (obj_set "messages" msgs0 (obj_delete "input" fields)).
Proof.
  rewrite !(obj_delete_obj_set_ne "input" "messages") by discriminate.
  now rewrite obj_delete_obj_set_eq.
Qed.

Lemma cleanup_input (result result' : props) :
  obj_delete "input" result = obj_delete "input" result' ->
  cleanup result = cleanup result'.
Proof. unfold cleanup. now intros ->. Qed.

End TranslatorFacts.

(** ** The translator's claims *)

Section TranslatorClaims.

Variable JSON_stringify : value -> value.

Local Abbreviation translate := (openaiResponsesToOpenAIRequest JSON_stringify).


(** C4, as amended. On a body whose [input] is the empty list the translator
    returns a result whose [messages] are empty when [instructions] is absent
    or falsy ([null], the empty string, [0], [false]), and are exactly the one
    message [{role: "system", content: instructions}] when [instructions] is
    truthy. *)
Theorem empty_input_messages (model body stream credentials : value) :
  well_formed body = true ->
  prop body "input" = VArr [] ->
  exists result,
    translate model body stream credentials = Normal result /\
    prop result "messages" =
    VArr (if truthy (prop body "instructions")
          then [VObj [("role", VStr "system"); ("content", prop body "instructions")]]
          else []).
Proof.
  intros Hwf Hin. exists (translated JSON_stringify body). split.
  - apply translate_ok; [exact Hwf | now rewrite Hin].
  - rewrite prop_translated_messages. unfold final_messages, initial_state.
    rewrite Hin. simpl. now destruct (truthy (prop body "instructions")).
Qed.


(** C10. On a body whose [input] is absent, [null] or otherwise falsy the
    translator returns the body itself: no [messages] is created, no field is
    deleted and no system message is synthesized, whatever [instructions] is. *)
Theorem falsy_input_returns_body (model body stream credentials : value) :
  nullish body = false ->
  truthy (prop body "input") = false ->
  translate model body stream credentials = Normal body.
Proof.
  intros Hb Hin. unfold openaiResponsesToOpenAIRequest.
  rewrite (get_Normal _ _ Hb). simpl. now rewrite Hin.
Qed.

(** C2. When the input list holds a function_call item immediately followed
    by a function_call_output item with the same call identifier, the result's
    [messages] hold, next to each other, the assistant message
    [{role: "assistant", content: null, tool_calls}] whose [tool_calls] end
    with [{id: call_id, type: "function", function: {name, arguments}}] built
    from the call item, and the message
    [{role: "tool", tool_call_id: call_id, content}] for the same identifier,
    whose content is the output when that is a string and [JSON.stringify] of
    it otherwise. A function_call_output item is pushed to [messages] by the
    iteration that meets it, after the assistant message under construction
    and whatever is buffered, and that iteration leaves nothing buffered. *)
Theorem call_and_output_adjacent :
  (forall model body stream credentials before call output after,
      well_formed body = true ->
      prop body "input" = VArr (before ++ call :: output :: after) ->
      str_eq (prop call "type") "function_call" = true ->
      str_eq (prop output "type") "function_call_output" = true ->
      prop output "call_id" = prop call "call_id" ->
      exists result earlier calls later,
        translate model body stream credentials = Normal result /\
        prop result "messages" =
        VArr (earlier ++
              VObj [("role", VStr "assistant"); ("content", VNull);
                    ("tool_calls",
                     VArr (calls ++
                           [VObj [("id", prop call "call_id"); ("type", VStr "function");
                                  ("function",
                                   VObj [("name", prop call "name");
                                         ("arguments", prop call "arguments")])]]))] ::
              VObj [("role", VStr "tool"); ("tool_call_id", prop call "call_id");
                    ("content", match prop output "output" with
                                | VStr text => VStr text
                                | other => JSON_stringify other
                                end)] ::
              later)) /\
  (forall output st,
      str_eq (prop output "type") "function_call_output" = true ->
      convert_item JSON_stringify output st =
      Normal (mkTurn (messages st ++
                      match currentAssistantMsg st with
                      | Some calls =>
                          [VObj [("role", VStr "assistant"); ("content", VNull);
                                 ("tool_calls", VArr calls)]]
                      | None => []
                      end ++
                      pendingToolResults st ++
                      [VObj [("role", VStr "tool");
                             ("tool_call_id", prop output "call_id");
                             ("content", match prop output "output" with
                                         | VStr text => VStr text
                                         | other => JSON_stringify other
                                         end)]])
                     None [])).
Proof.
  split.
  - intros model body stream credentials before call output after
      Hwf Hin Hcall Hout Hid.
    assert (Htr : truthy (prop body "input") = true) by now rewrite Hin.
    exists (translated JSON_stringify body).
    set (st1 := fold_left (next_state JSON_stringify) before (initial_state body)).
    destruct (fold_next_state_messages JSON_stringify after
                (next_state JSON_stringify
                   (next_state JSON_stringify st1 call) output)) as [more Hmore].
    exists (messages st1), (open_calls st1).
    eexists. split; [now apply translate_ok |].
    rewrite prop_translated_messages. unfold final_messages.
    rewrite Hin. simpl items_of. rewrite fold_left_app. simpl fold_left.
    fold st1. rewrite flush_assistant_messages, Hmore.
    rewrite (next_state_function_call_output _ _ _ Hout).
    rewrite (next_state_function_call _ _ _ Hcall).
    unfold tool_message_of, tool_call_of, assistant_message. rewrite Hid. simpl.
    rewrite <- !app_assoc. simpl. reflexivity.
  - intros output st Hout. pose proof (str_eq_true _ _ Hout) as Hty.
    assert (Hn : nullish output = false) by (destruct output; simpl in *; congruence).
    unfold convert_item. rewrite !(get_Normal _ _ Hn). simpl. rewrite Hty. simpl.
    unfold tool_message, output_content, push_message, flush_tool_results,
      flush_assistant, assistant_message.
    destruct st as [msgs [calls |] [| tr trs]]; destruct (prop output "output");
      cbn [messages currentAssistantMsg pendingToolResults app];
      rewrite <- ?app_assoc; reflexivity.
Qed.

(** C3. The conversation entries of the result's [messages] (each message, with
    an assistant message that carries [tool_calls] read as its calls in order)
    are the synthesized system message, if any, followed by what the input
    items emit, item by item in input order: a message item its message, a
    function_call item its tool call, a function_call_output item its tool
    message, and any other item, an item of type "reasoning" among them,
    nothing. Moreover deleting an item of type "reasoning" from the input list
    leaves the outcome of the translator unchanged. *)
Theorem order_preserved_reasoning_dropped :
  (forall model body stream credentials items,
      well_formed body = true ->
      prop body "input" = VArr items ->
      exists result msgs,
        translate model body stream credentials = Normal result /\
        prop result "messages" = VArr msgs /\
        flat_map entries msgs =
        messages (initial_state body) ++ flat_map (emitted JSON_stringify) items) /\
  (forall item, str_eq (prop item "type") "reasoning" = true ->
                emitted JSON_stringify item = []) /\
  (forall model stream credentials fields before item after,
      str_eq (prop item "type") "reasoning" = true ->
      translate model (VObj (obj_set "input" (VArr (before ++ item :: after)) fields))
                stream credentials =
      translate model (VObj (obj_set "input" (VArr (before ++ after)) fields))
                stream credentials).
Proof.
  split; [| split].
  - intros model body stream credentials items Hwf Hin.
    exists (translated JSON_stringify body), (final_messages JSON_stringify body).
    split; [apply translate_ok; [exact Hwf | now rewrite Hin] |].
    split; [apply prop_translated_messages |].
    unfold final_messages. rewrite entries_flush_assistant, entries_of_state_fold.
    rewrite Hin. simpl items_of. f_equal.
    unfold entries_of_state, initial_state. simpl.
    destruct (truthy (prop body "instructions")); reflexivity.
  - intros item H. unfold emitted. now rewrite (str_eq_true _ _ H).
  - intros model stream credentials fields before item after Hty.
    unfold openaiResponsesToOpenAIRequest, get, prop. simpl nullish. cbv iota.
    rewrite !assoc_obj_set_eq, !assoc_obj_set_ne by discriminate.
    simpl. rewrite !for_of_app. simpl for_of.
    destruct (for_of (convert_item JSON_stringify) before _) as [st1 | e];
      simpl; [| reflexivity].
    rewrite (convert_item_reasoning _ _ _ Hty). simpl.
    destruct (for_of (convert_item JSON_stringify) after st1) as [st2 | e];
      simpl; [| reflexivity].
    destruct (assoc "tools" fields) as [[| | b | x | s | tools | ps] |]; simpl;
      try (do 2 f_equal; apply cleanup_input;
           now rewrite !obj_delete_input_messages).
    destruct (mapM convert_tool tools) as [ts | e]; simpl; [| reflexivity].
    do 2 f_equal; apply cleanup_input.
    rewrite !(obj_delete_obj_set_ne "input" "tools") by discriminate.
    now rewrite !obj_delete_input_messages.
Qed.

(** C7, as amended. On a well-formed body with a truthy [input] whose [tools]
    is an array, the result's [tools] has one entry per declaration, in order:
    a declaration whose [function] is truthy is passed through unchanged,
    whatever its other fields, and any other declaration (no [function] field,
    or a falsy one) is replaced by
    [{type: "function", function: {name, description, parameters, strict}}]
    built from its four fields. So every entry has a truthy [function]. *)
Theorem tools_normalized (model body stream credentials : value) (tools : list value) :
  well_formed body = true ->
  truthy (prop body "input") = true ->
  prop body "tools" = VArr tools ->
  exists result out,
    translate model body stream credentials = Normal result /\
    prop result "tools" = VArr out /\
    Forall2 (fun tool entry =>
               entry =
               if truthy (prop tool "function") then tool
               else VObj [("type", VStr "function");
                          ("function", VObj [("name", prop tool "name");
                                             ("description", prop tool "description");
                                             ("parameters", prop tool "parameters");
                                             ("strict", prop tool "strict")])])
            tools out /\
    Forall (fun entry => truthy (prop entry "function") = true) out.
Proof.
  intros Hwf Hin Htools.
  exists (translated JSON_stringify body), (map tool_value tools).
  split; [now apply translate_ok |]. split; [| split].
  - unfold translated, prop.
    rewrite assoc_cleanup_other
      by (unfold stripped_fields; simpl; intros H; intuition discriminate).
    unfold with_tools. rewrite Htools. now rewrite assoc_obj_set_eq.
  - clear. induction tools as [| t ts IH]; constructor; [| exact IH].
    unfold tool_value. now destruct (truthy (prop t "function")).
  - clear. induction tools as [| t ts IH]; constructor; [| exact IH].
    unfold tool_value.
    destruct (truthy (prop t "function")) eqn:E; [exact E | reflexivity].
Qed.

End TranslatorClaims.



(** ** The translator on the example requests *)

Example weather_messages :
  exists result,
    openaiResponsesToOpenAIRequest Host.JSON_stringify (VStr "gpt-4o") weather_body
      (VBool false) VNull = Normal result /\
    prop result "messages" =
    VArr [system_message (VStr "be terse");
          VObj [("role", VStr "user"); ("content", VStr "weather?")];
          assistant_message [tool_call (VStr "call_1") (VStr "get_weather") (VStr "{}")];
          tool_message (VStr "call_1")
            (Host.JSON_stringify (VObj [("temp", VNum 72); ("unit", VStr "F")]));
          VObj [("role", VStr "assistant");
                ("content", VArr [VObj [("type", VStr "text"); ("text", VStr "72F")]])]].
Proof. eexists. split; vm_compute; reflexivity. Qed.


Lemma call_and_output_adjacent_witness :
  well_formed weather_body = true /\
  prop weather_body "input" =
    VArr (firstn 2 weather_input ++ weather_call :: weather_output :: skipn 4 weather_input) /\
  str_eq (prop weather_call "type") "function_call" = true /\
  str_eq (prop weather_output "type") "function_call_output" = true /\
  prop weather_output "call_id" = prop weather_call "call_id" /\
  exists result earlier calls later,
    openaiResponsesToOpenAIRequest Host.JSON_stringify (VStr "gpt-4o") weather_body
      (VBool false) VNull = Normal result /\
    prop result "messages" =
    VArr (earlier ++
          VObj [("role", VStr "assistant"); ("content", VNull);
                ("tool_calls",
                 VArr (calls ++
                       [VObj [("id", VStr "call_1"); ("type", VStr "function");
                              ("function", VObj [("name", VStr "get_weather");
                                                 ("arguments", VStr "{}")])]]))] ::
          VObj [("role", VStr "tool"); ("tool_call_id", VStr "call_1");
                ("content",
                 Host.JSON_stringify (VObj [("temp", VNum 72); ("unit", VStr "F")]))] ::
          later).
Proof.
  repeat (split; [reflexivity |]).
  apply (proj1 (call_and_output_adjacent Host.JSON_stringify)
           (VStr "gpt-4o") weather_body (VBool false) VNull
           (firstn 2 weather_input) weather_call weather_output (skipn 4 weather_input));
    reflexivity.
Defined.

Lemma order_preserved_reasoning_dropped_witness :
  well_formed weather_body = true /\
  prop weather_body "input" = VArr weather_input /\
  exists result msgs,
    openaiResponsesToOpenAIRequest Host.JSON_stringify (VStr "gpt-4o") weather_body
      (VBool false) VNull = Normal result /\
    prop result "messages" = VArr msgs /\
    flat_map entries msgs =
    messages (initial_state weather_body) ++
    flat_map (emitted Host.JSON_stringify) weather_input.
Proof.
  repeat (split; [reflexivity |]).
  apply (proj1 (order_preserved_reasoning_dropped Host.JSON_stringify)
           (VStr "gpt-4o") weather_body (VBool false) VNull weather_input);
    reflexivity.
Defined.

Lemma empty_input_messages_witness :
  well_formed instructions_only_body = true /\
  prop instructions_only_body "input" = VArr [] /\
  exists result,
    openaiResponsesToOpenAIRequest Host.JSON_stringify VNull instructions_only_body
      VNull VNull = Normal result /\
    prop result "messages" =
    VArr [VObj [("role", VStr "system"); ("content", VStr "be terse")]].
Proof.
  repeat (split; [reflexivity |]).
  apply (empty_input_messages Host.JSON_stringify VNull instructions_only_body VNull VNull);
    reflexivity.
Defined.

(** C4 as stated fails on a body whose [instructions] is present but empty:
    with [{instructions: "", input: []}] the field is there, and the result's
    [messages] are empty, not the one system message. *)
Lemma present_empty_instructions_no_message :
  has_key "instructions" (spread empty_body) = true /\
  prop empty_body "input" = VArr [] /\
  openaiResponsesToOpenAIRequest Host.JSON_stringify VNull empty_body VNull VNull =
    Normal (VObj [("messages", VArr [])]).
Proof. repeat split; reflexivity. Qed.


Lemma falsy_input_returns_body_witness :
  nullish chat_body = false /\
  truthy (prop chat_body "input") = false /\
  openaiResponsesToOpenAIRequest Host.JSON_stringify VNull chat_body VNull VNull =
  Normal chat_body.
Proof.
  repeat (split; [reflexivity |]).
  apply (falsy_input_returns_body Host.JSON_stringify VNull chat_body VNull VNull);
    reflexivity.
Defined.

Lemma tools_normalized_witness :
  well_formed weather_body = true /\
  truthy (prop weather_body "input") = true /\
  prop weather_body "tools" = VArr [flat_tool; nested_tool] /\
  exists result,
    openaiResponsesToOpenAIRequest Host.JSON_stringify (VStr "gpt-4o") weather_body
      (VBool false) VNull = Normal result /\
    prop result "tools" =
    VArr [VObj [("type", VStr "function");
                ("function", VObj [("name", VStr "get_weather");
                                   ("description", VStr "Current weather");
                                   ("parameters", VObj []);
                                   ("strict", VUndef)])];
          nested_tool].
Proof.
  repeat (split; [reflexivity |]).
  destruct (tools_normalized Host.JSON_stringify (VStr "gpt-4o") weather_body (VBool false)
              VNull [flat_tool; nested_tool] eq_refl eq_refl eq_refl)
    as (result & out & Hres & Hout & Hall & _).
  exists result. split; [exact Hres |]. rewrite Hout.
  inversion Hall as [| t1 e1 ts1 es1 H1 Hrest]; subst.
  inversion Hrest as [| t2 e2 ts2 es2 H2 Hnil]; subst.
  inversion Hnil; subst. reflexivity.
Defined.

(** C7 as stated fails in three ways. On a body that has [tools] but no
    [input] the translator returns the body as it is, and the flat declaration
    in its [tools] is still flat. On a body with an [input], a declaration
    that has a [function] field holding [null] is not passed through but
    rebuilt from its other fields, and a nested declaration that has no [type]
    is passed through as it is, so the entry is not of the shape
    [{type: "function", function: {...}}]. *)
Lemma tools_not_canonical :
  (prop chat_body "tools" = VArr [flat_tool] /\
   has_key "function" (spread flat_tool) = false /\
   openaiResponsesToOpenAIRequest Host.JSON_stringify (VStr "gpt-4o") chat_body
     (VBool false) VNull = Normal chat_body) /\
  (truthy (prop odd_tools_body "input") = true /\
   prop odd_tools_body "tools" = VArr [null_function_tool; untyped_nested_tool] /\
   has_key "function" (spread null_function_tool) = true /\
   has_key "function" (spread untyped_nested_tool) = true /\
   has_key "type" (spread untyped_nested_tool) = false /\
   openaiResponsesToOpenAIRequest Host.JSON_stringify (VStr "gpt-4o") odd_tools_body
     (VBool false) VNull =
   Normal (VObj [("tools",
                  VArr [VObj [("type", VStr "function");
                              ("function", VObj [("name", VStr "get_weather");
                                                 ("description", VUndef);
                                                 ("parameters", VUndef);
                                                 ("strict", VUndef)])];
                        untyped_nested_tool]);
                 ("messages", VArr [])])).
Proof. repeat split; reflexivity. Qed.

(** ** The polling loop of [onboardUser] *)

Module ProjectIdFacts.

Import ProjectId.

Section Polling.

Variable upstream : nat -> fetch_outcome.

Variables accessToken tierID : string.

Local Abbreviation body := (attempt_body upstream accessToken tierID).
Local Abbreviation loop := (attempts_loop upstream accessToken tierID).

Lemma fetches_app (tr tr' : list event) : fetches (tr ++ tr') = fetches tr + fetches tr'.
Proof. unfold fetches. now rewrite List.filter_app, length_app. Qed.

Lemma sleeps_app (tr tr' : list event) : sleeps (tr ++ tr') = sleeps tr + sleeps tr'.
Proof. unfold sleeps. now rewrite List.filter_app, length_app. Qed.

(** Case analysis on what an attempt meets, following the tests of the code. *)
Ltac attempt_cases attempt :=
  unfold not_done_yet, failed, attempt_body, try_block, catch_block;
  destruct (upstream attempt) as [error | [ok status text json]];
  cbv beta iota zeta delta
    [io_bind try_catch emit ret throw lift ProjectId.ok ProjectId.json
     ProjectId.text ProjectId.status fst snd negb app];
  repeat match goal with
         | |- context [if ?b then _ else _] => destruct b eqn:?
         | |- context [match ?c with Normal _ => _ | Throw _ => _ end] => destruct c eqn:?
         end;
  cbv beta iota zeta delta
    [io_bind try_catch emit ret throw lift fst snd negb app].

Lemma body_fetches (attempt : nat) : fetches (fst (body attempt)) = 1.
Proof. attempt_cases attempt; reflexivity. Qed.






Lemma loop_cons (attempt : nat) (rest : list nat) :
  loop (attempt :: rest) =
  match snd (body attempt) with
  | Normal Continue => (fst (body attempt) ++ fst (loop rest), snd (loop rest))
  | Normal (Return v) => (fst (body attempt) ++ [], Normal v)
  | Throw e => (fst (body attempt), Throw e)
  end.
Proof.
  simpl. unfold io_bind at 1.
  destruct (body attempt) as [tr [[v |] | e]]; simpl; try reflexivity.
  now destruct (loop rest).
Qed.

Lemma loop_fetches (attempts : list nat) :
  fetches (fst (loop attempts)) <= length attempts.
Proof.
  induction attempts as [| attempt rest IH]; [unfold fetches; simpl; lia |].
  rewrite loop_cons. pose proof (body_fetches attempt) as Hb.
  destruct (snd (body attempt)) as [[v |] | e]; cbn [fst length];
    rewrite ?fetches_app, Hb; cbn [fetches List.filter length]; lia.
Qed.






End Polling.





(** Three runs: five requests and four waits, then [null]; a project id at
    the third request after two waits; a network error at the second request,
    which is rethrown. *)
Example onboard_never_done :
  snd (onboardUser upstream_never_done "token" "free-tier") = Normal VNull /\
  List.filter (fun ev => is_fetch ev || is_sleep ev)
              (fst (onboardUser upstream_never_done "token" "free-tier")) =
  [Fetch "token" "free-tier"; Sleep 2000; Fetch "token" "free-tier"; Sleep 2000;
   Fetch "token" "free-tier"; Sleep 2000; Fetch "token" "free-tier"; Sleep 2000;
   Fetch "token" "free-tier"].
Proof. split; vm_compute; reflexivity. Qed.

Example onboard_done_third :
  snd (onboardUser upstream_done_third "token" "free-tier") = Normal (VStr "proj-1") /\
  fetches (fst (onboardUser upstream_done_third "token" "free-tier")) = 3 /\
  sleeps (fst (onboardUser upstream_done_third "token" "free-tier")) = 2.
Proof. repeat split; vm_compute; reflexivity. Qed.

Example onboard_network_error :
  snd (onboardUser upstream_network_error "token" "free-tier") =
    Throw (TypeError "fetch failed") /\
  fetches (fst (onboardUser upstream_network_error "token" "free-tier")) = 2.
Proof. split; vm_compute; reflexivity. Qed.


End ProjectIdFacts.

(** ** Deduplication of in-flight fetches *)

Module DedupFacts.

Import ProjectId.














End DedupFacts.


(** ** The translator does not change the caller's objects *)

Module HeapFacts.

Import Heap.

Section Frame.

Variable JSON_stringify : heap -> hval -> completion hval.

Variable n : nat.

Lemma grows_refl (h : heap) : grows n h h.
Proof. repeat split; eauto. Qed.

Lemma grows_trans (h1 h2 h3 : heap) : grows n h1 h2 -> grows n h2 h3 -> grows n h1 h3.
Proof.
  intros (Ht & Hl & Ho) (Ht' & Hl' & Ho'). repeat split; [congruence | lia |].
  intros l ps Hps. destruct (Ho l ps Hps) as (ps' & Hps' & Hm & Hc).
  destruct (Ho' l ps' Hps') as (ps'' & Hps'' & Hm' & Hc').
  exists ps''. repeat split; congruence.
Qed.

Lemma owns_stable (k : string) (v : hval) :
  k = "messages" \/ k = "tool_calls" -> stable n (owns n k v).
Proof.
  intros Hk h h' (_ & _ & Ho) Hv l ->. destruct (Hv l eq_refl) as (ps & Hps & Hf).
  destruct (Ho l ps Hps) as (ps' & Hps' & Hm & Hc).
  exists ps'. split; [exact Hps' |]. intros x Hx. apply Hf.
  destruct Hk as [-> | ->]; congruence.
Qed.

Lemma stable_and (P Q : heap -> Prop) :
  stable n P -> stable n Q -> stable n (fun h => P h /\ Q h).
Proof. intros HP HQ h h' Hg [Hp Hq]. split; eauto. Qed.

Lemma stable_const (P : Prop) : stable n (fun _ => P).
Proof. intros h h' _ HP. exact HP. Qed.

(** *** Rules *)

Lemma spec_ret {A : Type} (pre : heap -> Prop) (a : A) (post : A -> heap -> Prop) :
  (forall h, pre h -> post a h) -> spec n pre (ret a) post.
Proof.
  intros H h Hn Hpre. split; [apply grows_refl |]. simpl. intros a' [= <-]. auto.
Qed.

Lemma spec_throw {A : Type} (pre : heap -> Prop) (e : js_error)
  (post : A -> heap -> Prop) :
  spec n pre (throw e) post.
Proof. intros h Hn Hpre. split; [apply grows_refl |]. simpl. discriminate. Qed.

Lemma spec_bind {A B : Type} (pre : heap -> Prop) (m : M A) (mid : A -> heap -> Prop)
  (k : A -> M B) (post : B -> heap -> Prop) :
  spec n pre m mid -> (forall a, spec n (mid a) (k a) post) ->
  spec n pre (bind m k) post.
Proof.
  intros Hm Hk h Hn Hpre. destruct (Hm h Hn Hpre) as [Hg Hmid].
  unfold bind. destruct (m h) as [[a | e] h'] eqn:E; simpl in *.
  - assert (Hn' : n <= length h') by (destruct Hg as (_ & Hl & _); lia).
    destruct (Hk a h' Hn' (Hmid a eq_refl)) as [Hg' Hpost].
    split; [eapply grows_trans; eauto | exact Hpost].
  - split; [exact Hg | discriminate].
Qed.

Lemma spec_weaken {A : Type} (pre pre' : heap -> Prop) (m : M A)
  (post post' : A -> heap -> Prop) :
  spec n pre m post -> (forall h, pre' h -> pre h) ->
  (forall a h, post a h -> post' a h) -> spec n pre' m post'.
Proof.
  intros Hm Hpre Hpost h Hn Hp. destruct (Hm h Hn (Hpre h Hp)) as [Hg Hq].
  split; [exact Hg | intros a Ha; auto].
Qed.

(** What is stable is carried across any computation. *)
Lemma spec_frame {A : Type} (pre P : heap -> Prop) (m : M A) (post : A -> heap -> Prop) :
  stable n P -> spec n pre m post ->
  spec n (fun h => pre h /\ P h) m (fun a h => post a h /\ P h).
Proof.
  intros HP Hm h Hn [Hpre Hp]. destruct (Hm h Hn Hpre) as [Hg Hq].
  split; [exact Hg |]. intros a Ha. split; [auto | eapply HP; eauto].
Qed.

(** A computation specified apart from an invariant runs under it. *)
Lemma spec_bind_stable {A B : Type} (P : heap -> Prop) (m : M A) (Q : A -> Prop)
  (k : A -> M B) (post : B -> heap -> Prop) :
  stable n P ->
  spec n P m (fun a _ => Q a) ->
  (forall a, Q a -> spec n P (k a) post) ->
  spec n P (bind m k) post.
Proof.
  intros HP Hm Hk. apply spec_bind with (mid := fun a h => Q a /\ P h).
  - apply spec_weaken with (pre := fun h => P h /\ P h)
                           (post := fun a h => Q a /\ P h);
      [apply spec_frame; assumption | tauto | tauto].
  - intros a h Hn [Hq Hp]. now apply Hk.
Qed.

Lemma spec_for_of {A S : Type} (I : S -> heap -> Prop) (body : A -> S -> M S)
  (xs : list A) (st : S) :
  (forall x st, spec n (I st) (body x st) I) ->
  spec n (I st) (for_of body xs st) I.
Proof.
  intros Hbody. revert st. induction xs as [| x xs IH]; intros st; simpl.
  - now apply spec_ret.
  - eapply spec_bind; [apply Hbody | intros st'; apply IH].
Qed.

Lemma spec_for_each {A : Type} (P : heap -> Prop) (body : A -> M unit) (xs : list A) :
  (forall x, spec n P (body x) (fun _ => P)) ->
  spec n P (for_each body xs) (fun _ => P).
Proof.
  intros Hbody. induction xs as [| x xs IH]; simpl.
  - now apply spec_ret.
  - eapply spec_bind; [apply Hbody | intros u; apply IH].
Qed.

Lemma spec_mapM {A B : Type} (P : heap -> Prop) (Q : B -> Prop) (f : A -> M B)
  (xs : list A) :
  (forall x, spec n P (f x) (fun y h => Q y /\ P h)) ->
  spec n P (mapM f xs) (fun ys h => Forall Q ys /\ P h).
Proof.
  intros Hf. induction xs as [| x xs IH]; simpl.
  - apply spec_ret. auto.
  - eapply spec_bind; [apply Hf |]. intros y.
    apply spec_weaken with (pre := fun h => P h /\ Q y)
                           (post := fun ys h => Forall Q ys /\ P h);
      [| tauto | auto].
    intros h Hn [Hp Hq].
    pose proof (spec_bind P (mapM f xs) (fun ys h => Forall Q ys /\ P h)
                  (fun ys => ret (y :: ys)) (fun ys h => Forall Q ys /\ P h) IH) as Hb.
    apply Hb; [| exact Hn | exact Hp].
    intros ys. apply spec_ret. intros h' [Hys Hp']. auto.
Qed.

(** *** Computations that make the store grow whatever it holds *)

Definition harmless {A : Type} (m : M A) : Prop :=
  forall h, n <= length h -> grows n h (snd (m h)).

Lemma harmless_spec {A : Type} (P : heap -> Prop) (m : M A) :
  harmless m -> spec n P m (fun _ _ => True).
Proof. intros Hm h Hn _. split; [now apply Hm | auto]. Qed.

Lemma harmless_keeps {A : Type} (P : heap -> Prop) (m : M A) :
  stable n P -> harmless m -> spec n P m (fun _ => P).
Proof.
  intros HP Hm h Hn Hp. split; [now apply Hm |].
  intros a _. eapply HP; [apply Hm, Hn | exact Hp].
Qed.

Lemma harmless_reads {A : Type} (m : M A) : (forall h, snd (m h) = h) -> harmless m.
Proof. intros Hm h _. rewrite Hm. apply grows_refl. Qed.

Lemma harmless_ret {A : Type} (a : A) : harmless (ret a).
Proof. now apply harmless_reads. Qed.

Lemma harmless_throw {A : Type} (e : js_error) : harmless (@throw A e).
Proof. now apply harmless_reads. Qed.

Lemma harmless_bind {A B : Type} (m : M A) (k : A -> M B) :
  harmless m -> (forall a, harmless (k a)) -> harmless (bind m k).
Proof.
  intros Hm Hk h Hn. specialize (Hm h Hn). unfold bind.
  destruct (m h) as [[a | e] h']; simpl in *; [| exact Hm].
  eapply grows_trans; [exact Hm |]. apply Hk. destruct Hm as (_ & Hl & _). lia.
Qed.

Lemma read_reads (l : loc) (h : heap) : snd (read l h) = h.
Proof. unfold read. now destruct (h !! l). Qed.

Lemma get_reads (v : hval) (k : string) (h : heap) : snd (get v k h) = h.
Proof.
  destruct v; try reflexivity. unfold get, bind, read. now destruct (h !! l).
Qed.

Lemma isArray_reads (v : hval) (h : heap) : snd (isArray v h) = h.
Proof.
  destruct v; try reflexivity. unfold isArray, bind, read. now destruct (h !! l).
Qed.

Lemma elements_reads (v : hval) (h : heap) : snd (elements v h) = h.
Proof.
  destruct v; try reflexivity. unfold elements, bind, read.
  destruct (h !! l) as [[] |]; reflexivity.
Qed.

Lemma iterate_reads (v : hval) (h : heap) : snd (iterate v h) = h.
Proof. destruct v; try reflexivity. apply elements_reads. Qed.

Lemma own_fields_reads (v : hval) (h : heap) : snd (own_fields v h) = h.
Proof.
  destruct v; try reflexivity. unfold own_fields, bind, read. now destruct (h !! l).
Qed.

Lemma harmless_get (v : hval) (k : string) : harmless (get v k).
Proof. apply harmless_reads, get_reads. Qed.

Lemma harmless_isArray (v : hval) : harmless (isArray v).
Proof. apply harmless_reads, isArray_reads. Qed.

Lemma harmless_elements (v : hval) : harmless (elements v).
Proof. apply harmless_reads, elements_reads. Qed.

Lemma harmless_iterate (v : hval) : harmless (iterate v).
Proof. apply harmless_reads, iterate_reads. Qed.

Lemma harmless_own_fields (v : hval) : harmless (own_fields v).
Proof. apply harmless_reads, own_fields_reads. Qed.

Lemma harmless_stringify (v : hval) : harmless (stringify JSON_stringify v).
Proof. now apply harmless_reads. Qed.

Lemma grows_alloc (o : object) (h : heap) : n <= length h -> grows n h (h ++ [o]).
Proof.
  intros Hn. repeat split.
  - now apply take_app_le.
  - rewrite length_app. lia.
  - intros l ps Hl. exists ps. repeat split.
    rewrite lookup_app_l; [exact Hl | eapply lookup_lt_Some, Hl].
Qed.

Lemma harmless_alloc (o : object) : harmless (alloc o).
Proof. intros h Hn. now apply grows_alloc. Qed.

(** Writing an array at a location that is not the caller's. *)
Lemma grows_write_array (l : loc) (xs ys : list hval) (h : heap) :
  n <= l -> h !! l = Some (OArr xs) -> grows n h (<[l := OArr ys]> h).
Proof.
  intros Hl Hxs. repeat split.
  - now apply take_insert_ge.
  - now rewrite length_insert.
  - intros l' ps Hps. exists ps. repeat split.
    rewrite list_lookup_insert_ne; [exact Hps | congruence].
Qed.

(** Writing an object with the same [messages] and [tool_calls]. *)
Lemma grows_write_object (l : loc) (ps ps' : list (string * hval)) (h : heap) :
  n <= l -> h !! l = Some (OObj ps) ->
  assoc "messages" ps' = assoc "messages" ps ->
  assoc "tool_calls" ps' = assoc "tool_calls" ps ->
  grows n h (<[l := OObj ps']> h).
Proof.
  intros Hl Hps Hm Hc. repeat split.
  - now apply take_insert_ge.
  - now rewrite length_insert.
  - intros l' qs Hqs. destruct (decide (l = l')) as [<- | Hne].
    + exists ps'. rewrite list_lookup_insert_eq by (eapply lookup_lt_Some, Hps).
      repeat split; congruence.
    + exists qs. rewrite list_lookup_insert_ne by exact Hne. auto.
Qed.

Lemma harmless_push (arr x : hval) : fresh_ref n arr -> harmless (push arr x).
Proof.
  intros Hf h Hn. destruct arr; try apply grows_refl.
  unfold push, bind, read. destruct (h !! l) as [[xs | ps] |] eqn:E; simpl;
    try apply grows_refl.
  eapply grows_write_array; [now apply Hf | exact E].
Qed.

Lemma assoc_obj_set_other (k k' : string) (x : hval) (ps : list (string * hval)) :
  k <> k' -> assoc k' (obj_set k x ps) = assoc k' ps.
Proof.
  intros Hne. induction ps as [| [j y] ps IH]; simpl.
  - destruct (String.eqb_spec k k'); [contradiction | reflexivity].
  - destruct (String.eqb_spec j k) as [-> | Hjk]; simpl.
    + destruct (String.eqb_spec k k'); [contradiction | reflexivity].
    + destruct (String.eqb_spec j k'); [reflexivity | exact IH].
Qed.

Lemma assoc_obj_set_same (k : string) (x : hval) (ps : list (string * hval)) :
  assoc k (obj_set k x ps) = Some x.
Proof.
  induction ps as [| [j y] ps IH]; simpl.
  - now rewrite String.eqb_refl.
  - destruct (String.eqb_spec j k) as [-> | Hjk]; simpl.
    + now rewrite String.eqb_refl.
    + destruct (String.eqb_spec j k); [contradiction | exact IH].
Qed.

Lemma assoc_obj_delete_other (k k' : string) (ps : list (string * hval)) :
  k <> k' -> assoc k' (obj_delete k ps) = assoc k' ps.
Proof.
  intros Hne. induction ps as [| [j y] ps IH]; simpl; [reflexivity |].
  destruct (String.eqb_spec j k) as [-> | Hjk]; simpl.
  - destruct (String.eqb_spec k k'); [contradiction | exact IH].
  - destruct (String.eqb_spec j k'); [reflexivity | exact IH].
Qed.

Lemma harmless_set (obj : hval) (k : string) (x : hval) :
  fresh_ref n obj -> k <> "messages" -> k <> "tool_calls" -> harmless (set obj k x).
Proof.
  intros Hf Hm Hc h Hn. destruct obj; try apply grows_refl.
  unfold set, bind, read. destruct (h !! l) as [[xs | ps] |] eqn:E; simpl;
    try apply grows_refl.
  eapply grows_write_object; [now apply Hf | exact E | |];
    now apply assoc_obj_set_other.
Qed.

Lemma harmless_delete_field (obj : hval) (k : string) :
  fresh_ref n obj -> k <> "messages" -> k <> "tool_calls" ->
  harmless (delete_field obj k).
Proof.
  intros Hf Hm Hc h Hn. destruct obj; try apply grows_refl.
  unfold delete_field, bind, read. destruct (h !! l) as [[xs | ps] |] eqn:E; simpl;
    try apply grows_refl.
  eapply grows_write_object; [now apply Hf | exact E | |];
    now apply assoc_obj_delete_other.
Qed.

Lemma harmless_mapM {A B : Type} (f : A -> M B) (xs : list A) :
  (forall x, harmless (f x)) -> harmless (mapM f xs).
Proof.
  intros Hf. induction xs as [| x xs IH]; simpl; [apply harmless_ret |].
  apply harmless_bind; [apply Hf | intros y].
  apply harmless_bind; [exact IH | intros ys; apply harmless_ret].
Qed.

Lemma harmless_for_each {A : Type} (body : A -> M unit) (xs : list A) :
  (forall x, harmless (body x)) -> harmless (for_each body xs).
Proof.
  intros Hb. induction xs as [| x xs IH]; simpl; [apply harmless_ret |].
  apply harmless_bind; [apply Hb | intros u; exact IH].
Qed.

(** *** What reading an owned field gives, and what allocation gives *)

Lemma spec_get_owned (k : string) (v : hval) :
  spec n (owns n k v) (get v k) (fun x _ => fresh_ref n x).
Proof.
  intros h Hn Hv. split; [apply harmless_get, Hn |].
  destruct v; simpl; try (intros a [= <-] l' [=]); try discriminate.
  destruct (Hv l eq_refl) as (ps & Hps & Hf).
  unfold bind, read. rewrite Hps. simpl. intros a [= <-].
  destruct (assoc k ps) as [x |]; [now apply Hf | intros l' [=]].
Qed.

Lemma spec_alloc (P : heap -> Prop) (o : object) :
  spec n P (alloc o) (fun v _ => fresh_ref n v).
Proof.
  intros h Hn _. split; [now apply grows_alloc |].
  simpl. intros a [= <-] l [= <-]. exact Hn.
Qed.

Lemma spec_alloc_owner (P : heap -> Prop) (k : string) (ps : list (string * hval)) :
  stable n P ->
  (forall x, assoc k ps = Some x -> fresh_ref n x) ->
  spec n P (alloc (OObj ps)) (fun v h => owns n k v h /\ P h).
Proof.
  intros HP Hps h Hn Hp. split; [now apply grows_alloc |].
  simpl. intros a [= <-]. split.
  - intros l [= <-]. exists ps. split; [| exact Hps].
    now apply list_lookup_middle.
  - eapply HP; [apply grows_alloc, Hn | exact Hp].
Qed.

(** *** The pass over the input items *)

Variable result : hval.

(** What the pass maintains: [result.messages] and the [tool_calls] of the
    assistant message under construction are not the caller's. *)
Definition Inv (vars : locals) (h : heap) : Prop :=
  owns n "messages" result h /\ owns n "tool_calls" (currentAssistantMsg vars) h.

Lemma Inv_stable (vars : locals) : stable n (Inv vars).
Proof. apply stable_and; apply owns_stable; auto. Qed.

Lemma owns_primitive (k : string) (v : hval) (h : heap) :
  (forall l, v <> HRef l) -> owns n k v h.
Proof. intros Hv l ->. now elim (Hv l). Qed.

Ltac harmless_tac :=
  repeat first
    [ apply harmless_ret | apply harmless_throw | apply harmless_get
    | apply harmless_isArray | apply harmless_elements | apply harmless_iterate
    | apply harmless_own_fields | apply harmless_stringify | apply harmless_alloc
    | apply harmless_bind | apply harmless_mapM | apply harmless_for_each
    | apply harmless_push; assumption
    | apply harmless_set; [assumption | discriminate | discriminate]
    | apply harmless_delete_field; [assumption | discriminate | discriminate]
    | progress intros
    | match goal with
      | |- harmless (if ?b then _ else _) => destruct b
      | |- harmless (match ?v with HStr _ => _ | _ => _ end) => destruct v
      end ].

(** A step that is harmless keeps any stable invariant. *)
Ltac keep :=
  apply spec_bind_stable with (Q := fun _ => True);
  [ try apply Inv_stable | apply harmless_spec; harmless_tac | intros ? _ ].

Lemma spec_push_messages (P : heap -> Prop) (x : hval) :
  stable n P -> (forall h, P h -> owns n "messages" result h) ->
  spec n P (let! msgs := get result "messages" in push msgs x) (fun _ _ => True).
Proof.
  intros HP Hown. apply spec_bind_stable with (Q := fresh_ref n); [exact HP | |].
  - eapply spec_weaken; [apply spec_get_owned | exact Hown | auto].
  - intros msgs Hmsgs. now apply harmless_spec, harmless_push.
Qed.

Lemma spec_flush_assistant (vars : locals) :
  spec n (Inv vars) (flush_assistant result vars) Inv.
Proof.
  unfold flush_assistant. destruct (truthy (currentAssistantMsg vars)).
  - apply spec_bind_stable with (Q := fresh_ref n); [apply Inv_stable | |].
    + eapply spec_weaken; [apply spec_get_owned | intros h [H _]; exact H | auto].
    + intros msgs Hmsgs. keep.
      apply spec_ret. intros h [Hm _]. split; [exact Hm |].
      now apply owns_primitive.
  - apply spec_ret. auto.
Qed.

Lemma spec_flush_tool_results (vars : locals) :
  spec n (Inv vars) (flush_tool_results result vars) Inv.
Proof.
  unfold flush_tool_results.
  apply spec_bind_stable with (Q := fun _ => True);
    [apply Inv_stable | apply harmless_spec, harmless_elements |].
  intros trs _. destruct trs as [| tr trs]; [apply spec_ret; auto |].
  apply spec_bind_stable with (Q := fun _ => True); [apply Inv_stable | |].
  - eapply spec_weaken; [apply (spec_for_each (Inv vars)) | auto | auto].
    intros x.
    apply spec_bind_stable with (Q := fresh_ref n); [apply Inv_stable | |].
    + eapply spec_weaken; [apply spec_get_owned | intros h [H _]; exact H | auto].
    + intros msgs Hmsgs.
      apply harmless_keeps; [apply Inv_stable | now apply harmless_push].
  - intros u _. keep. apply spec_ret. auto.
Qed.

Lemma harmless_convert_part (c : hval) : harmless (convert_part c).
Proof. unfold convert_part. harmless_tac. Qed.

Lemma harmless_convert_tool (tool : hval) : harmless (convert_tool tool).
Proof. unfold convert_tool. harmless_tac. Qed.

Lemma spec_convert_item (item : hval) (vars : locals) :
  spec n (Inv vars) (convert_item JSON_stringify result item vars) Inv.
Proof.
  unfold convert_item. keep.
  match goal with |- context [str_eq ?ty "message"] => destruct (str_eq ty "message") end;
    [| match goal with |- context [str_eq ?ty "function_call"] =>
         destruct (str_eq ty "function_call") end;
       [| match goal with |- context [str_eq ?ty "function_call_output"] =>
            destruct (str_eq ty "function_call_output") end ] ].
  - (* message *)
    eapply spec_bind; [apply spec_flush_assistant | intros vars1].
    eapply spec_bind; [apply spec_flush_tool_results | intros vars2].
    keep. keep. keep.
    apply spec_bind_stable with (Q := fresh_ref n); [apply Inv_stable | |].
    + eapply spec_weaken; [apply spec_get_owned | intros h [H _]; exact H | auto].
    + intros msgs Hmsgs. keep. keep. keep. now apply spec_ret.
  - (* function_call *)
    eapply spec_bind with (mid := Inv).
    + destruct (negb (truthy (currentAssistantMsg vars))); [| now apply spec_ret].
      apply spec_bind_stable with (Q := fresh_ref n);
        [apply Inv_stable | apply spec_alloc |].
      intros calls Hcalls.
      eapply spec_bind;
        [apply (spec_alloc_owner (Inv vars) "tool_calls"); [apply Inv_stable |] |].
      * simpl. now intros x [= <-].
      * intros msg. apply spec_ret. intros h [Hmsg [Hres _]]. split; assumption.
    + intros vars1.
      apply spec_bind_stable with (Q := fresh_ref n); [apply Inv_stable | |].
      * eapply spec_weaken; [apply spec_get_owned | intros h [_ H]; exact H | auto].
      * intros calls Hcalls. keep. keep. keep. keep. keep. keep. now apply spec_ret.
  - (* function_call_output *)
    eapply spec_bind; [apply spec_flush_assistant | intros vars1].
    eapply spec_bind; [apply spec_flush_tool_results | intros vars2].
    apply spec_bind_stable with (Q := fresh_ref n); [apply Inv_stable | |].
    + eapply spec_weaken; [apply spec_get_owned | intros h [H _]; exact H | auto].
    + intros msgs Hmsgs. keep. keep. keep. keep. keep. now apply spec_ret.
  - match goal with |- context [if ?b then _ else _] => destruct b end;
      now apply spec_ret.
Qed.

(** *** The translator after it has built [result] and [result.messages] *)

Definition after_setup (body input : hval) : M hval :=
  let! instructions := get body "instructions" in
  (if truthy instructions then
     let! msgs := get result "messages" in
     let! m := alloc (OObj [("role", HStr "system"); ("content", instructions)]) in
     push msgs m
   else ret tt) ;;
  let! pending := alloc (OArr []) in
  let! items := iterate input in
  let! vars := for_of (convert_item JSON_stringify result) items (mkLocals HNull pending) in
  (if truthy (currentAssistantMsg vars) then
     let! msgs := get result "messages" in
     push msgs (currentAssistantMsg vars)
   else ret tt) ;;
  let! trs := elements (pendingToolResults vars) in
  for_each (fun tr => let! msgs := get result "messages" in push msgs tr) trs ;;
  let! tools := get body "tools" in
  let! is_array := isArray tools in
  (if truthy tools && is_array then
     let! ts := elements tools in
     let! ts' := mapM convert_tool ts in
     let! arr := alloc (OArr ts') in
     set result "tools" arr
   else ret tt) ;;
  delete_field result "input" ;;
  delete_field result "instructions" ;;
  delete_field result "include" ;;
  delete_field result "prompt_cache_key" ;;
  delete_field result "store" ;;
  delete_field result "reasoning" ;;
  ret result.

Lemma spec_after_setup (body input : hval) :
  fresh_ref n result ->
  spec n (owns n "messages" result) (after_setup body input) (fun _ _ => True).
Proof.
  intros Hres. unfold after_setup.
  assert (HP : stable n (owns n "messages" result)) by (apply owns_stable; auto).
  assert (Hget : spec n (owns n "messages" result) (get result "messages")
                   (fun x _ => fresh_ref n x)) by apply spec_get_owned.
  apply spec_bind_stable with (Q := fun _ => True);
    [exact HP | apply harmless_spec, harmless_get | intros instructions _].
  apply spec_bind_stable with (Q := fun _ => True); [exact HP | | intros u _].
  { destruct (truthy instructions); [| now apply spec_ret].
    apply spec_bind_stable with (Q := fresh_ref n); [exact HP | exact Hget |].
    intros msgs Hmsgs. apply harmless_spec. harmless_tac. }
  apply spec_bind_stable with (Q := fun _ => True);
    [exact HP | apply harmless_spec, harmless_alloc | intros pending _].
  apply spec_bind_stable with (Q := fun _ => True);
    [exact HP | apply harmless_spec, harmless_iterate | intros items _].
  eapply spec_bind with (mid := Inv).
  { eapply spec_weaken; [apply (spec_for_of Inv) | | auto].
    - intros x st. apply spec_convert_item.
    - intros h Hh. split; [exact Hh | now apply owns_primitive]. }
  intros vars.
  eapply spec_weaken with (pre := owns n "messages" result)
                          (post := fun _ _ => True);
    [| intros h [H _]; exact H | auto].
  apply spec_bind_stable with (Q := fun _ => True); [exact HP | | intros u0 _].
  { destruct (truthy (currentAssistantMsg vars)); [| now apply spec_ret].
    apply spec_bind_stable with (Q := fresh_ref n); [exact HP | exact Hget |].
    intros msgs Hmsgs. now apply harmless_spec, harmless_push. }
  apply spec_bind_stable with (Q := fun _ => True);
    [exact HP | apply harmless_spec, harmless_elements | intros trs _].
  apply spec_bind_stable with (Q := fun _ => True); [exact HP | | intros u1 _].
  { eapply spec_weaken;
      [apply (spec_for_each (owns n "messages" result)) | auto | auto].
    intros x.
    apply spec_bind_stable with (Q := fresh_ref n); [exact HP | exact Hget |].
    intros msgs Hmsgs. apply harmless_keeps; [exact HP | now apply harmless_push]. }
  apply harmless_spec. harmless_tac; apply harmless_convert_tool.
Qed.

End Frame.

(** A store that extends [h] denotes at least what [h] denotes. *)
Lemma option_all_map_weaken {A B : Type} (f g : A -> option B) (xs : list A)
  (ys : list B) :
  (forall x y, f x = Some y -> g x = Some y) ->
  option_all (map f xs) = Some ys -> option_all (map g xs) = Some ys.
Proof.
  intros Hfg. revert ys. induction xs as [| x xs IH]; intros ys; simpl; [auto |].
  destruct (f x) as [y |] eqn:E; [| discriminate].
  destruct (option_all (map f xs)) as [ys' |]; [| discriminate].
  intros [= <-]. now rewrite (Hfg x y E), (IH ys' eq_refl).
Qed.

Lemma reify_extend (fuel : nat) (h h' : heap) (v : hval) (t : value) :
  take (length h) h' = h -> reify fuel h v = Some t -> reify fuel h' v = Some t.
Proof.
  intros Hpre. revert v t. induction fuel as [| fuel IH]; intros v t;
    destruct v; simpl; auto.
  destruct (h !! l) as [o |] eqn:E; [| discriminate].
  assert (E' : h' !! l = Some o).
  { rewrite <- Hpre in E. rewrite lookup_take_Some in E. tauto. }
  rewrite E'. destruct o as [xs | ps].
  - destruct (option_all (map (reify fuel h) xs)) as [ts |] eqn:Hxs; [| discriminate].
    intros [= <-]. now rewrite (option_all_map_weaken _ (reify fuel h') _ _ IH Hxs).
  - destruct (option_all _) as [qs |] eqn:Hps; [| discriminate].
    intros [= <-].
    erewrite option_all_map_weaken; [reflexivity | | exact Hps].
    intros p q. simpl. destruct (reify fuel h p.2) as [t |] eqn:Ep; [| discriminate].
    now rewrite (IH _ _ Ep).
Qed.

Lemma translate_after_setup (JSON_stringify : heap -> hval -> completion hval)
  (model body stream credentials : hval) :
  openaiResponsesToOpenAIRequest JSON_stringify model body stream credentials =
  (let! input := get body "input" in
   if negb (truthy input) then ret body
   else
     let! fields := own_fields body in
     let! result := alloc (OObj fields) in
     let! empty := alloc (OArr []) in
     set result "messages" empty ;;
     after_setup JSON_stringify result body input).
Proof. reflexivity. Qed.

(** The store after a call starts with the store before it. *)
Lemma translate_frame (JSON_stringify : heap -> hval -> completion hval)
  (model body stream credentials : hval) (h : heap) :
  take (length h)
       (snd (openaiResponsesToOpenAIRequest JSON_stringify model body stream credentials h))
  = h.
Proof.
  rewrite translate_after_setup. unfold bind at 1.
  pose proof (get_reads body "input" h) as Hget.
  destruct (get body "input" h) as [[input | e] h1]; simpl in Hget; subst h1;
    [| apply firstn_all].
  destruct (negb (truthy input)); [apply firstn_all |].
  unfold bind at 1.
  pose proof (own_fields_reads body h) as Hown.
  destruct (own_fields body h) as [[fields | e] h1]; simpl in Hown; subst h1;
    [| apply firstn_all].
  unfold bind at 1. cbn [alloc].
  unfold bind at 1. cbn [alloc].
  unfold bind at 1. unfold set, bind at 1, read.
  assert (Hl : ((h ++ [OObj fields]) ++ [OArr []]) !! length h = Some (OObj fields)).
  { rewrite lookup_app_l by (rewrite length_app; simpl; lia).
    now apply list_lookup_middle. }
  rewrite Hl. cbn [write].
  set (result := HRef (length h)).
  set (h3 := <[length h := _]> _).
  assert (Hlen : length h <= length h3).
  { subst h3. rewrite length_insert, !length_app. lia. }
  assert (Hres : fresh_ref (length h) result) by (intros l [= <-]; lia).
  assert (Hown3 : owns (length h) "messages" result h3).
  { intros l [= <-]. eexists. split.
    - subst h3. apply list_lookup_insert_eq. rewrite !length_app. simpl. lia.
    - rewrite assoc_obj_set_same. intros x [= <-] l [= <-].
      rewrite length_app. simpl. lia. }
  destruct (spec_after_setup JSON_stringify (length h) result body input Hres
              h3 Hlen Hown3) as [(Htake & _ & _) _].
  rewrite Htake. subst h3. rewrite take_insert_ge by lia.
  rewrite <- app_assoc, take_app_le by lia. apply firstn_all.
Qed.

(** C6. The translator does not mutate its [body] argument: whatever the
    store, the body and the [model], [stream] and [credentials] arguments,
    and whether the call returns or throws, every object that was in the
    store before the call is the same after it; so the data that the body
    denotes (with its input list, its items and its tools entries) is the
    same before and after the call. *)
Theorem body_not_mutated (JSON_stringify : heap -> hval -> completion hval)
  (model body stream credentials : hval) (h : heap) :
  let h' :=
    snd (openaiResponsesToOpenAIRequest JSON_stringify model body stream credentials h) in
  (forall l o, h !! l = Some o -> h' !! l = Some o) /\
  (forall fuel t, reify fuel h body = Some t -> reify fuel h' body = Some t).
Proof.
  cbv zeta.
  pose proof (translate_frame JSON_stringify model body stream credentials h) as Hframe.
  split.
  - intros l o Hl. rewrite <- Hframe in Hl. rewrite lookup_take_Some in Hl. tauto.
  - intros fuel t. now apply reify_extend.
Qed.

Lemma body_not_mutated_witness :
  reify 8 (snd (store weather_body [])) (HRef 16) = Some weather_body /\
  reify 8
    (snd (openaiResponsesToOpenAIRequest JSON_stringify (HStr "gpt-4o") (HRef 16)
            (HBool false) HNull (snd (store weather_body []))))
    (HRef 16) = Some weather_body.
Proof.
  assert (H : reify 8 (snd (store weather_body [])) (HRef 16) = Some weather_body)
    by (vm_compute; reflexivity).
  split; [exact H |].
  exact (proj2 (body_not_mutated JSON_stringify (HStr "gpt-4o") (HRef 16) (HBool false)
                  HNull (snd (store weather_body []))) 8 weather_body H).
Defined.

End HeapFacts.

(** On the example request, built in an empty store: the call returns, its
    result denotes what the translator over data computes, and the body
    denotes the request as before. *)
Example weather_in_store :
  let h0 := snd (Heap.store weather_body []) in
  let run :=
    Heap.openaiResponsesToOpenAIRequest Heap.JSON_stringify (Heap.HStr "gpt-4o")
      (Heap.HRef 16) (Heap.HBool false) Heap.HNull h0 in
  fst (Heap.store weather_body []) = Normal (Heap.HRef 16) /\
  Heap.reify 8 (snd run) (Heap.HRef 16) = Some weather_body /\
  JS.bind (fst run) (fun r => Normal (Heap.reify 8 (snd run) r)) =
  JS.bind (openaiResponsesToOpenAIRequest Host.JSON_stringify (VStr "gpt-4o")
             weather_body (VBool false) VNull)
          (fun r => Normal (Some r)).
Proof. vm_compute. repeat split. Qed.

(** * Further properties of the translator *)

Section TranslatorMore.

Variable JSON_stringify : value -> value.

Local Abbreviation translate := (openaiResponsesToOpenAIRequest JSON_stringify).

Lemma translate_falsy (model body stream credentials : value) :
  nullish body = false -> truthy (prop body "input") = false ->
  translate model body stream credentials = Normal body.
Proof.
  intros Hb Hin. unfold openaiResponsesToOpenAIRequest.
  rewrite (get_Normal _ _ Hb). simpl. now rewrite Hin.
Qed.

(** What a call that returns has returned: the body itself, or a new object
    that went through [cleanup]. *)
Lemma translate_Normal_inv (model body stream credentials r : value) :
  translate model body stream credentials = Normal r ->
  nullish body = false /\
  (truthy (prop body "input") = false /\ r = body \/
   truthy (prop body "input") = true /\ exists result, r = VObj (cleanup result)).
Proof.
  unfold openaiResponsesToOpenAIRequest, get.
  destruct (nullish body) eqn:Hb; [discriminate |]. simpl.
  destruct (truthy (prop body "input")) eqn:Hin; simpl.
  - intros H. split; [reflexivity |]. right. split; [reflexivity |].
    destruct (iterate (prop body "input")) as [items | e]; [| discriminate]. simpl in H.
    destruct (for_of _ items _) as [st | e]; [| discriminate]. simpl in H.
    destruct (prop body "tools"); simpl in H;
      try (injection H as <-; eauto; fail).
    destruct (mapM convert_tool xs) as [ts | e]; [| discriminate]. simpl in H.
    injection H as <-. eauto.
  - intros [= <-]. auto.
Qed.

(** X1. The translator is idempotent: what it returns, it returns unchanged
    when applied again, whatever the other arguments. *)
Theorem translate_idempotent (model body stream credentials r : value)
  (model' stream' credentials' : value) :
  translate model body stream credentials = Normal r ->
  translate model' r stream' credentials' = Normal r.
Proof.
  intros H. apply translate_Normal_inv in H as [Hb [[Hin ->] | [Hin [result ->]]]].
  - now apply translate_falsy.
  - apply translate_falsy; [reflexivity |]. unfold prop.
    assert (Hk : assoc "input" (cleanup result) = None).
    { apply has_key_assoc, has_key_cleanup. unfold stripped_fields. simpl. auto. }
    now rewrite Hk.
Qed.

Lemma mapM_convert_part_throws (cs : list value) :
  forallb part_ok cs = false ->
  exists msg, mapM convert_part cs = Throw (TypeError msg).
Proof.
  induction cs as [| c cs IH]; [discriminate |].
  cbn [forallb]. unfold part_ok at 1.
  change (mapM convert_part (c :: cs))
    with (let* y := convert_part c in
          let* ys := mapM convert_part cs in Normal (y :: ys)).
  destruct (nullish c) eqn:Hc; simpl negb; simpl andb.
  - intros _. unfold convert_part, get. rewrite Hc. simpl. eauto.
  - intros H. destruct (IH H) as [msg ->].
    unfold convert_part. rewrite !(get_Normal _ _ Hc). simpl.
    destruct (str_eq (prop c "type") "input_text"); simpl;
      [| destruct (str_eq (prop c "type") "output_text"); simpl]; eauto.
Qed.

Lemma convert_item_throws (item : value) (st : turn_state) :
  item_ok item = false ->
  exists msg, convert_item JSON_stringify item st = Throw (TypeError msg).
Proof.
  unfold item_ok, convert_item, get. destruct (nullish item) eqn:Hn; simpl; [eauto |].
  destruct (str_eq (prop item "type") "message"); [| discriminate].
  destruct (prop item "content"); try discriminate.
  intros H. destruct (mapM_convert_part_throws _ H) as [msg ->]. simpl. eauto.
Qed.

Lemma for_of_convert_item_throws (items : list value) (st : turn_state) :
  forallb item_ok items = false ->
  pendingToolResults st = [] ->
  exists msg, for_of (convert_item JSON_stringify) items st = Throw (TypeError msg).
Proof.
  revert st. induction items as [| item items IH]; intros st; simpl; [discriminate |].
  destruct (item_ok item) eqn:Hi; simpl; intros H Hp.
  - rewrite (convert_item_ok JSON_stringify item st Hi Hp). simpl.
    apply IH; [exact H |].
    now apply (next_state_pending JSON_stringify st item).
  - destruct (convert_item_throws item st Hi) as [msg ->]. simpl. eauto.
Qed.

Lemma mapM_convert_tool_throws (ts : list value) :
  forallb (fun t => negb (nullish t)) ts = false ->
  exists msg, mapM convert_tool ts = Throw (TypeError msg).
Proof.
  induction ts as [| t ts IH]; [discriminate |].
  cbn [forallb].
  change (mapM convert_tool (t :: ts))
    with (let* y := convert_tool t in
          let* ys := mapM convert_tool ts in Normal (y :: ys)).
  destruct (nullish t) eqn:Ht; simpl negb; simpl andb.
  - intros _. unfold convert_tool, get. rewrite Ht. simpl. eauto.
  - intros H. destruct (IH H) as [msg ->].
    unfold convert_tool. rewrite !(get_Normal _ _ Ht). simpl.
    destruct (truthy (prop t "function")); simpl; eauto.
Qed.

(** X2. On a body whose [input] is truthy the translator returns exactly when
    the body is well formed: when [input] is not iterable, or an input item, a
    part of an array-valued message content or a tool declaration is [null] or
    [undefined], the call throws a TypeError. A [null] or [undefined] body
    throws a TypeError as well. *)
Theorem translate_throws_TypeError (model body stream credentials : value) :
  (nullish body = true ->
   exists msg, translate model body stream credentials = Throw (TypeError msg)) /\
  (nullish body = false -> truthy (prop body "input") = true ->
   if well_formed body
   then exists r, translate model body stream credentials = Normal r
   else exists msg, translate model body stream credentials = Throw (TypeError msg)).
Proof.
  split.
  - intros Hb. unfold openaiResponsesToOpenAIRequest, get. rewrite Hb. simpl. eauto.
  - intros Hb Hin. destruct (well_formed body) eqn:Hwf.
    + exists (translated JSON_stringify body). now apply translate_ok.
    + unfold well_formed in Hwf. rewrite Hb in Hwf. simpl in Hwf.
      unfold openaiResponsesToOpenAIRequest. rewrite !(get_Normal _ _ Hb). simpl.
      rewrite Hin. simpl.
      destruct (input_ok (prop body "input")) eqn:Hinput; simpl in Hwf.
      * destruct (input_ok_items _ Hinput) as [Hiter Hitems].
        rewrite Hiter. simpl.
        rewrite (for_of_convert_item JSON_stringify _ _ Hitems) by reflexivity. simpl.
        unfold tools_ok in Hwf. destruct (prop body "tools"); try discriminate.
        destruct (mapM_convert_tool_throws _ Hwf) as [msg ->]. simpl. eauto.
      * unfold input_ok in Hinput.
        destruct (prop body "input") as [| | b | x | s | items | ps] eqn:E;
          try discriminate; simpl; eauto.
        destruct (for_of_convert_item_throws items
                    (mkTurn (if truthy (prop body "instructions")
                             then [system_message (prop body "instructions")] else [])
                            None []) Hinput eq_refl) as [msg ->].
        simpl. eauto.
Qed.

Lemma fold_next_state_chars (s : string) (st : turn_state) :
  fold_left (next_state JSON_stringify) (chars s) st = st.
Proof. revert st. induction s as [| a s IH]; intros st; simpl; auto. Qed.

(** X3. A truthy [input] that is a string, which the Responses dialect allows,
    is not turned into a message: the result's [messages] hold the
    synthesized system message, if any, and nothing else, and the [input]
    field is deleted with its text. *)
Theorem string_input_dropped (model body stream credentials : value) (s : string) :
  nullish body = false ->
  prop body "input" = VStr s -> s <> "" ->
  tools_ok (prop body "tools") = true ->
  exists fields,
    translate model body stream credentials = Normal (VObj fields) /\
    assoc "messages" fields =
      Some (VArr (if truthy (prop body "instructions")
                  then [system_message (prop body "instructions")] else [])) /\
    has_key "input" fields = false.
Proof.
  intros Hb Hin Hs Htools. eexists. split; [| split].
  - apply translate_ok.
    + unfold well_formed. now rewrite Hb, Hin, Htools.
    + rewrite Hin. simpl. apply negb_true_iff. now apply String.eqb_neq.
  - pose proof (prop_translated_messages JSON_stringify body) as Hm.
    unfold translated, prop in Hm.
    destruct (assoc "messages" _) as [m |]; [| discriminate].
    rewrite Hm. unfold final_messages. rewrite Hin. simpl items_of.
    rewrite fold_next_state_chars. unfold initial_state, flush_assistant. simpl.
    now destruct (truthy (prop body "instructions")).
  - apply has_key_cleanup. unfold stripped_fields. simpl. auto.
Qed.

(** An item that is an object of a type the pass does not act on leaves the
    state of the pass as it is. *)
Lemma convert_item_unsupported (item : value) (st : turn_state) :
  nullish item = false -> supported item = false ->
  convert_item JSON_stringify item st = Normal st.
Proof.
  intros Hn Hs. unfold supported, closing in Hs.
  apply orb_false_iff in Hs as [Hs Hc]. apply orb_false_iff in Hs as [Hm Ho].
  unfold convert_item. rewrite (get_Normal _ _ Hn). simpl.
  rewrite Hm, Hc, Ho. now destruct (str_eq (prop item "type") "reasoning").
Qed.

(** X4. An input item of a type other than "message", "function_call" and
    "function_call_output" (an item reference, a web search call, ...) is
    dropped without a trace: deleting it from the input list leaves the
    outcome of the translator unchanged. *)
Theorem unsupported_item_dropped (model stream credentials : value) (fields : props)
  (before after : list value) (item : value) :
  nullish item = false -> supported item = false ->
  translate model (VObj (obj_set "input" (VArr (before ++ item :: after)) fields))
            stream credentials =
  translate model (VObj (obj_set "input" (VArr (before ++ after)) fields))
            stream credentials.
Proof.
  intros Hn Hs.
  unfold openaiResponsesToOpenAIRequest, get, prop. simpl nullish. cbv iota.
  rewrite !assoc_obj_set_eq, !assoc_obj_set_ne by discriminate.
  simpl. rewrite !for_of_app. simpl for_of.
  destruct (for_of (convert_item JSON_stringify) before _) as [st1 | e];
    simpl; [| reflexivity].
  rewrite (convert_item_unsupported _ _ Hn Hs). simpl.
  destruct (for_of (convert_item JSON_stringify) after st1) as [st2 | e];
    simpl; [| reflexivity].
  destruct (assoc "tools" fields) as [[| | b | x | s | tools | ps] |]; simpl;
    try (do 2 f_equal; apply cleanup_input;
         now rewrite !obj_delete_input_messages).
  destruct (mapM convert_tool tools) as [ts | e]; simpl; [| reflexivity].
  do 2 f_equal; apply cleanup_input.
  rewrite !(obj_delete_obj_set_ne "input" "tools") by discriminate.
  now rewrite !obj_delete_input_messages.
Qed.

Lemma next_state_closing (st : turn_state) (item : value) :
  closing item = true ->
  next_state JSON_stringify st item =
  push_message (flush_assistant st)
    (if str_eq (prop item "type") "message" then message_of item
     else tool_message_of JSON_stringify item).
Proof.
  unfold closing, next_state. destruct (str_eq (prop item "type") "message") eqn:Hm;
    [reflexivity |]. simpl. intros Ho. rewrite (str_eq_true _ _ Ho). reflexivity.
Qed.

Lemma fold_next_state_calls (calls : list value) (st : turn_state) :
  forallb (fun item => str_eq (prop item "type") "function_call") calls = true ->
  calls <> [] ->
  fold_left (next_state JSON_stringify) calls st =
  mkTurn (messages st) (Some (open_calls st ++ map tool_call_of calls)) [].
Proof.
  revert st. induction calls as [| call calls IH]; intros st Hall Hne; [congruence |].
  simpl in Hall. apply andb_prop in Hall as [Hcall Hall]. simpl.
  rewrite (next_state_function_call JSON_stringify _ _ Hcall).
  destruct calls as [| call' calls']; [reflexivity |].
  rewrite IH by (auto; discriminate).
  unfold open_calls. cbn [messages currentAssistantMsg map].
  now rewrite <- app_assoc.
Qed.

Definition open_count (st : turn_state) : nat :=
  match currentAssistantMsg st with Some _ => 1 | None => 0 end.

Lemma next_state_count (st : turn_state) (item : value) :
  length (messages (next_state JSON_stringify st item)) +
  open_count (next_state JSON_stringify st item) <=
  length (messages st) + open_count st + 1.
Proof.
  unfold next_state, push_message, flush_assistant, open_count.
  destruct st as [msgs [calls |] trs];
    destruct (str_eq (prop item "type") "message");
    destruct (str_eq (prop item "type") "function_call");
    destruct (str_eq (prop item "type") "function_call_output");
    simpl; rewrite ?length_app; simpl; lia.
Qed.

Lemma fold_next_state_count (items : list value) (st : turn_state) :
  length (messages (fold_left (next_state JSON_stringify) items st)) +
  open_count (fold_left (next_state JSON_stringify) items st) <=
  length (messages st) + open_count st + length items.
Proof.
  revert st. induction items as [| item items IH]; intros st; simpl; [lia |].
  pose proof (IH (next_state JSON_stringify st item)).
  pose proof (next_state_count st item). lia.
Qed.

(** X5. Function calls that follow one another are grouped: a run of
    function_call items that starts the input or follows a message or
    function_call_output item, and that ends the input or is followed by one,
    becomes one assistant message whose [tool_calls] are these calls, in
    order, each with its [call_id], [name] and [arguments]. *)
Theorem calls_grouped (model body stream credentials : value)
  (before calls after : list value) :
  well_formed body = true ->
  prop body "input" = VArr (before ++ calls ++ after) ->
  calls <> [] ->
  forallb (fun item => str_eq (prop item "type") "function_call") calls = true ->
  match rev before with [] => true | item :: _ => closing item end = true ->
  match after with [] => true | item :: _ => closing item end = true ->
  exists result earlier later,
    translate model body stream credentials = Normal result /\
    prop result "messages" =
    VArr (earlier ++
          VObj [("role", VStr "assistant"); ("content", VNull);
                ("tool_calls", VArr (map tool_call_of calls))] ::
          later) /\
    length earlier <= length before + 1.
Proof.
  intros Hwf Hin Hne Hcalls Hbefore Hafter.
  assert (Htr : truthy (prop body "input") = true) by now rewrite Hin.
  exists (translated JSON_stringify body).
  set (st1 := fold_left (next_state JSON_stringify) before (initial_state body)).
  assert (Hclosed : currentAssistantMsg st1 = None).
  { subst st1. destruct (rev before) as [| item rest] eqn:E.
    - apply (f_equal (@rev value)) in E. rewrite rev_involutive in E. now rewrite E.
    - apply (f_equal (@rev value)) in E. rewrite rev_involutive in E. simpl in E.
      rewrite E, fold_left_app. simpl.
      rewrite (next_state_closing _ _ Hbefore). simpl. apply flush_assistant_current. }
  assert (Hst2 : fold_left (next_state JSON_stringify) calls st1 =
                 mkTurn (messages st1) (Some (map tool_call_of calls)) []).
  { rewrite (fold_next_state_calls _ _ Hcalls Hne). unfold open_calls.
    now rewrite Hclosed. }
  assert (Hlen : length (messages st1) <= length before + 1).
  { pose proof (fold_next_state_count before (initial_state body)) as H.
    fold st1 in H. unfold initial_state in H. simpl in H.
    unfold open_count in H. simpl in H.
    destruct (currentAssistantMsg st1);
      destruct (truthy (prop body "instructions")); simpl in H; lia. }
  exists (messages st1).
  destruct after as [| item rest].
  - exists []. split; [now apply translate_ok |]. split; [| exact Hlen].
    rewrite prop_translated_messages. unfold final_messages.
    rewrite Hin. simpl items_of. rewrite app_nil_r, fold_left_app. fold st1.
    rewrite Hst2. reflexivity.
  - destruct (fold_next_state_messages JSON_stringify rest
                (next_state JSON_stringify
                   (mkTurn (messages st1) (Some (map tool_call_of calls)) []) item))
      as [more Hmore].
    eexists. split; [now apply translate_ok |]. split; [| exact Hlen].
    rewrite prop_translated_messages. unfold final_messages.
    rewrite Hin. simpl items_of. rewrite !fold_left_app. fold st1.
    rewrite Hst2. simpl fold_left. rewrite flush_assistant_messages, Hmore.
    rewrite (next_state_closing _ _ Hafter). simpl.
    rewrite <- !app_assoc. simpl. reflexivity.
Qed.

(** X6. The translator produces at most one message per input item, the
    synthesized system message apart. *)
Theorem messages_bounded (model body stream credentials : value) (items : list value) :
  well_formed body = true ->
  prop body "input" = VArr items ->
  exists result msgs,
    translate model body stream credentials = Normal result /\
    prop result "messages" = VArr msgs /\
    length msgs <= (if truthy (prop body "instructions") then 1 else 0) + length items.
Proof.
  intros Hwf Hin.
  exists (translated JSON_stringify body), (final_messages JSON_stringify body).
  split; [apply translate_ok; [exact Hwf | now rewrite Hin] |].
  split; [apply prop_translated_messages |].
  unfold final_messages. rewrite Hin. simpl items_of.
  pose proof (fold_next_state_count items (initial_state body)) as H.
  set (st := fold_left (next_state JSON_stringify) items (initial_state body)) in *.
  rewrite flush_assistant_messages, length_app.
  unfold open_count in H. unfold initial_state in H at 1 2. simpl in H.
  destruct (currentAssistantMsg st);
    destruct (truthy (prop body "instructions")); simpl in *; lia.
Qed.

Lemma obj_set_obj_set (k : string) (x y : value) (ps : props) :
  obj_set k x (obj_set k y ps) = obj_set k x ps.
Proof.
  induction ps as [| [j z] ps IH]; simpl.
  - now rewrite String.eqb_refl.
  - destruct (String.eqb j k) eqn:E; simpl.
    + now rewrite String.eqb_refl.
    + now rewrite E, IH.
Qed.

(** X7. A [messages] field that the body already has is discarded, not
    merged: when [input] is truthy the outcome does not depend on it. *)
Theorem body_messages_discarded (model stream credentials : value) (fields : props)
  (m m' : value) :
  truthy (prop (VObj fields) "input") = true ->
  translate model (VObj (obj_set "messages" m fields)) stream credentials =
  translate model (VObj (obj_set "messages" m' fields)) stream credentials.
Proof.
  intros Hin. unfold openaiResponsesToOpenAIRequest, get, prop. simpl nullish. cbv iota.
  rewrite !assoc_obj_set_ne by discriminate. simpl spread.
  unfold prop in Hin. simpl. rewrite Hin. simpl.
  now rewrite !obj_set_obj_set.
Qed.

(** X8. A [tools] field that is not an array ([null], an object, a string) is
    left as it is in the result. *)
Theorem tools_kept_unless_array (model stream credentials : value) (fields : props) :
  well_formed (VObj fields) = true ->
  truthy (prop (VObj fields) "input") = true ->
  (forall ts, prop (VObj fields) "tools" <> VArr ts) ->
  exists result,
    translate model (VObj fields) stream credentials = Normal (VObj result) /\
    assoc "tools" result = assoc "tools" fields.
Proof.
  intros Hwf Hin Htools. eexists. split.
  - rewrite (translate_ok JSON_stringify _ _ _ _ Hwf Hin). reflexivity.
  - rewrite assoc_cleanup_other
      by (unfold stripped_fields; simpl; intros H; intuition discriminate).
    unfold with_tools. destruct (prop (VObj fields) "tools") eqn:E;
      try (rewrite !assoc_obj_set_ne by discriminate; reflexivity).
    now elim (Htools xs).
Qed.

End TranslatorMore.

Lemma translate_idempotent_witness :
  openaiResponsesToOpenAIRequest Host.JSON_stringify (VStr "gpt-4o") scenario_body
    (VBool false) VNull = Normal (VObj [("messages", VArr scenario_messages)]) /\
  openaiResponsesToOpenAIRequest Host.JSON_stringify VNull
    (VObj [("messages", VArr scenario_messages)]) (VBool true) VNull =
  Normal (VObj [("messages", VArr scenario_messages)]).
Proof.
  assert (H : openaiResponsesToOpenAIRequest Host.JSON_stringify (VStr "gpt-4o")
                scenario_body (VBool false) VNull =
              Normal (VObj [("messages", VArr scenario_messages)]))
    by reflexivity.
  split; [exact H |].
  exact (translate_idempotent Host.JSON_stringify (VStr "gpt-4o") scenario_body
           (VBool false) VNull _ VNull (VBool true) VNull H).
Defined.

Lemma translate_throws_TypeError_witness :
  nullish null_item_body = false /\
  truthy (prop null_item_body "input") = true /\
  well_formed null_item_body = false /\
  exists msg,
    openaiResponsesToOpenAIRequest Host.JSON_stringify VNull null_item_body VNull VNull =
    Throw (TypeError msg).
Proof.
  repeat (split; [reflexivity |]).
  exact (proj2 (translate_throws_TypeError Host.JSON_stringify VNull null_item_body
                  VNull VNull) eq_refl eq_refl).
Defined.

Lemma string_input_dropped_witness :
  nullish string_input_body = false /\
  prop string_input_body "input" = VStr "hello" /\
  "hello" <> "" /\
  tools_ok (prop string_input_body "tools") = true /\
  exists fields,
    openaiResponsesToOpenAIRequest Host.JSON_stringify VNull string_input_body VNull VNull =
      Normal (VObj fields) /\
    assoc "messages" fields = Some (VArr [system_message (VStr "be terse")]) /\
    has_key "input" fields = false.
Proof.
  assert (Hs : "hello" <> "") by discriminate.
  split; [reflexivity |]. split; [reflexivity |]. split; [exact Hs |].
  split; [reflexivity |].
  exact (string_input_dropped Host.JSON_stringify VNull string_input_body VNull VNull
           "hello" eq_refl eq_refl Hs eq_refl).
Defined.

Lemma unsupported_item_dropped_witness :
  nullish reference_item = false /\
  supported reference_item = false /\
  openaiResponsesToOpenAIRequest Host.JSON_stringify VNull
    (VObj (obj_set "input" (VArr ([weather_call] ++ reference_item :: [time_call])) []))
    VNull VNull =
  openaiResponsesToOpenAIRequest Host.JSON_stringify VNull
    (VObj (obj_set "input" (VArr ([weather_call] ++ [time_call])) [])) VNull VNull.
Proof.
  repeat (split; [reflexivity |]).
  exact (unsupported_item_dropped Host.JSON_stringify VNull VNull VNull []
           [weather_call] [time_call] reference_item eq_refl eq_refl).
Defined.

Lemma calls_grouped_witness :
  well_formed two_calls_body = true /\
  prop two_calls_body "input" =
    VArr (firstn 1 (items_of (prop two_calls_body "input")) ++
          [weather_call; time_call] ++ []) /\
  exists result earlier later,
    openaiResponsesToOpenAIRequest Host.JSON_stringify VNull two_calls_body VNull VNull =
      Normal result /\
    prop result "messages" =
    VArr (earlier ++
          VObj [("role", VStr "assistant"); ("content", VNull);
                ("tool_calls", VArr (map tool_call_of [weather_call; time_call]))] ::
          later) /\
    length earlier <= 1 + 1.
Proof.
  assert (Hne : [weather_call; time_call] <> []) by discriminate.
  repeat (split; [reflexivity |]).
  exact (calls_grouped Host.JSON_stringify VNull two_calls_body VNull VNull
           (firstn 1 (items_of (prop two_calls_body "input")))
           [weather_call; time_call] [] eq_refl eq_refl Hne eq_refl eq_refl eq_refl).
Defined.

Lemma messages_bounded_witness :
  well_formed two_calls_body = true /\
  prop two_calls_body "input" = VArr (items_of (prop two_calls_body "input")) /\
  exists result msgs,
    openaiResponsesToOpenAIRequest Host.JSON_stringify VNull two_calls_body VNull VNull =
      Normal result /\
    prop result "messages" = VArr msgs /\
    length msgs <= 0 + 3.
Proof.
  repeat (split; [reflexivity |]).
  exact (messages_bounded Host.JSON_stringify VNull two_calls_body VNull VNull
           (items_of (prop two_calls_body "input")) eq_refl eq_refl).
Defined.

Lemma body_messages_discarded_witness :
  truthy (prop (VObj (spread scenario_body)) "input") = true /\
  openaiResponsesToOpenAIRequest Host.JSON_stringify VNull
    (VObj (obj_set "messages" (VArr [VStr "stale"]) (spread scenario_body))) VNull VNull =
  openaiResponsesToOpenAIRequest Host.JSON_stringify VNull
    (VObj (obj_set "messages" VNull (spread scenario_body))) VNull VNull.
Proof.
  split; [reflexivity |].
  exact (body_messages_discarded Host.JSON_stringify VNull VNull VNull
           (spread scenario_body) (VArr [VStr "stale"]) VNull eq_refl).
Defined.

Lemma tools_kept_unless_array_witness :
  well_formed (VObj (spread two_calls_body)) = true /\
  truthy (prop (VObj (spread two_calls_body)) "input") = true /\
  (forall ts, prop (VObj (spread two_calls_body)) "tools" <> VArr ts) /\
  exists result,
    openaiResponsesToOpenAIRequest Host.JSON_stringify VNull
      (VObj (spread two_calls_body)) VNull VNull = Normal (VObj result) /\
    assoc "tools" result = Some VNull.
Proof.
  assert (H : forall ts, prop (VObj (spread two_calls_body)) "tools" <> VArr ts)
    by (intros ts; discriminate).
  split; [reflexivity |]. split; [reflexivity |]. split; [exact H |].
  exact (tools_kept_unless_array Host.JSON_stringify VNull VNull VNull
           (spread two_calls_body) eq_refl eq_refl H).
Defined.

(** * Further properties of the project-id service *)

Module OnboardFacts.

Import ProjectId Lookup.

Section Attempts.

Variable upstream : nat -> fetch_outcome.

Variables accessToken tierID : string.

Local Abbreviation body := (attempt_body upstream accessToken tierID).
Local Abbreviation loop := (attempts_loop upstream accessToken tierID).

Lemma armed_app (tr tr' : list event) : armed (tr ++ tr') = armed tr + armed tr'.
Proof. unfold armed. now rewrite List.filter_app, length_app. Qed.

Lemma cleared_app (tr tr' : list event) : cleared (tr ++ tr') = cleared tr + cleared tr'.
Proof. unfold cleared. now rewrite List.filter_app, length_app. Qed.

Ltac attempt_cases attempt :=
  unfold not_done_yet, failed, aborted, attempt_body, try_block, catch_block;
  destruct (upstream attempt) as [error | [ok status text json]];
  cbv beta iota zeta delta
    [io_bind try_catch emit ret throw lift ProjectId.ok ProjectId.json
     ProjectId.text ProjectId.status fst snd negb app];
  repeat match goal with
         | |- context [if ?b then _ else _] => destruct b eqn:?
         | |- context [match ?c with Normal _ => _ | Throw _ => _ end] => destruct c eqn:?
         end;
  cbv beta iota zeta delta
    [io_bind try_catch emit ret throw lift fst snd negb app].

(** An attempt arms one timer and clears it, once or twice. *)
Lemma body_timers (attempt : nat) :
  armed (fst (body attempt)) = 1 /\
  1 <= cleared (fst (body attempt)) <= 2 /\
  forall ms, In (SetTimeout ms) (fst (body attempt)) -> ms = 30000%Z.
Proof.
  attempt_cases attempt; (split; [reflexivity |]);
    (split; [unfold cleared; simpl; lia |]).
  all: simpl; intros ms H.
  all: repeat (destruct H as [H | H]; [try discriminate; try (now injection H) |]).
  all: contradiction.
Qed.

(** An attempt, as a piece of the trace: it arms its timer, sends its request,
    and calls [clearTimeout] once or twice; no other timer is armed and no
    other request is sent in it. *)
Lemma body_segment (attempt : nat) :
  exists rest,
    fst (body attempt) = SetTimeout 30000 :: Fetch accessToken tierID :: rest /\
    armed rest = 0 /\ fetches rest = 0 /\ 1 <= cleared rest <= 2.
Proof.
  attempt_cases attempt; eexists; (split; [reflexivity |]);
    (split; [reflexivity |]); (split; [reflexivity |]); unfold cleared; simpl; lia.
Qed.

(** How an attempt ends, from how its [try] block ends. *)
Lemma body_outcome (attempt : nat) :
  snd (body attempt) =
  match snd (try_block upstream attempt) with
  | Normal c => Normal c
  | Throw error =>
      if Nat.eqb attempt MAX_ATTEMPTS then Normal (Return VNull)
      else if String.eqb (err_name error) "AbortError" then Normal Continue
      else Throw error
  end.
Proof. attempt_cases attempt; try reflexivity; congruence. Qed.

Lemma body_sleeps_not_done (attempt : nat) :
  sleeps (fst (body attempt)) = if not_done_yet upstream attempt then 1 else 0.
Proof. attempt_cases attempt; try reflexivity; congruence. Qed.

Lemma body_one_fetch (attempt : nat) : fetches (fst (body attempt)) = 1.
Proof. attempt_cases attempt; reflexivity. Qed.


Lemma try_block_return_id (attempt : nat) (v : value) :
  snd (try_block upstream attempt) = Normal (Return v) ->
  exists data, v = extractProjectIdFromOnboard data.
Proof.
  attempt_cases attempt; intros H; try discriminate.
  injection H as <-. eexists; reflexivity.
Qed.

Lemma body_fetch_args (attempt : nat) (token tier : string) :
  In (Fetch token tier) (fst (body attempt)) -> token = accessToken /\ tier = tierID.
Proof.
  attempt_cases attempt; simpl; intros H.
  all: repeat (destruct H as [H | H]; [try discriminate; try (now injection H) |]).
  all: contradiction.
Qed.

Lemma loop_unfold (attempt : nat) (rest : list nat) :
  loop (attempt :: rest) =
  match snd (body attempt) with
  | Normal Continue => (fst (body attempt) ++ fst (loop rest), snd (loop rest))
  | Normal (Return v) => (fst (body attempt) ++ [], Normal v)
  | Throw e => (fst (body attempt), Throw e)
  end.
Proof.
  simpl. unfold io_bind at 1.
  destruct (body attempt) as [tr [[v |] | e]]; simpl; try reflexivity.
  now destruct (loop rest).
Qed.

Lemma body_moves_on (attempt : nat) :
  moves_on upstream attempt -> snd (body attempt) = Normal Continue.
Proof.
  rewrite body_outcome. unfold moves_on, not_done_yet, aborted.
  destruct (snd (try_block upstream attempt)) as [[v |] | e];
    intros [H | [H Hne]]; try discriminate; try reflexivity.
  rewrite H. apply Nat.eqb_neq in Hne. now rewrite Hne.
Qed.

Lemma loop_moves_on (attempts rest : list nat) :
  (forall attempt, In attempt attempts -> moves_on upstream attempt) ->
  snd (loop (attempts ++ rest)) = snd (loop rest) /\
  fetches (fst (loop (attempts ++ rest))) = length attempts + fetches (fst (loop rest)) /\
  sleeps (fst (loop (attempts ++ rest))) =
    length (List.filter (not_done_yet upstream) attempts) + sleeps (fst (loop rest)).
Proof.
  induction attempts as [| attempt attempts IH]; intros H; [now simpl |].
  simpl app. rewrite loop_unfold.
  rewrite (body_moves_on attempt) by (apply H; now left). cbn [fst snd].
  destruct IH as (Hr & Hf & Hs); [intros a Ha; apply H; now right |].
  rewrite ProjectIdFacts.fetches_app, ProjectIdFacts.sleeps_app.
  rewrite body_one_fetch, body_sleeps_not_done, Hr, Hf, Hs.
  split; [reflexivity |]. split; [reflexivity |].
  simpl. destruct (not_done_yet upstream attempt); simpl; lia.
Qed.

End Attempts.

Lemma seq_split (k : nat) :
  1 <= k <= MAX_ATTEMPTS ->
  seq 1 MAX_ATTEMPTS = seq 1 (k - 1) ++ k :: seq (S k) (MAX_ATTEMPTS - k).
Proof.
  unfold MAX_ATTEMPTS. intros Hk.
  destruct k as [| [| [| [| [| [| k]]]]]]; try lia; reflexivity.
Qed.

Section Runs.

Variable upstream : nat -> fetch_outcome.

Variables accessToken tierID : string.

Local Abbreviation run := (onboardUser upstream accessToken tierID).

Lemma run_loop :
  snd run = snd (attempts_loop upstream accessToken tierID (seq 1 MAX_ATTEMPTS)) /\
  fetches (fst run) =
    fetches (fst (attempts_loop upstream accessToken tierID (seq 1 MAX_ATTEMPTS))) /\
  sleeps (fst run) =
    sleeps (fst (attempts_loop upstream accessToken tierID (seq 1 MAX_ATTEMPTS))) /\
  armed (fst run) =
    armed (fst (attempts_loop upstream accessToken tierID (seq 1 MAX_ATTEMPTS))) /\
  cleared (fst run) =
    cleared (fst (attempts_loop upstream accessToken tierID (seq 1 MAX_ATTEMPTS))) /\
  forall ms, In (SetTimeout ms) (fst run) ->
             In (SetTimeout ms)
                (fst (attempts_loop upstream accessToken tierID (seq 1 MAX_ATTEMPTS))).
Proof.
  unfold onboardUser, emit, io_bind.
  destruct (attempts_loop upstream accessToken tierID (seq 1 MAX_ATTEMPTS)) as [tr res].
  cbn [fst snd]. repeat split. intros ms [H | H]; [discriminate | exact H].
Qed.


(** X10. Before the last attempt a failure other than a timeout is not
    retried: [onboardUser] rethrows it at once, without another request. *)
Theorem onboardUser_rethrows (k : nat) (error : js_error) :
  1 <= k < 5 ->
  (forall attempt, 1 <= attempt < k ->
                   not_done_yet upstream attempt = true \/
                   aborted upstream attempt = true) ->
  snd (try_block upstream k) = Throw error ->
  String.eqb (err_name error) "AbortError" = false ->
  snd run = Throw error /\ fetches (fst run) = k.
Proof.
  intros Hk Hbefore Hthrow Hname.
  destruct run_loop as (-> & -> & _).
  rewrite (seq_split k) by (unfold MAX_ATTEMPTS; lia).
  destruct (loop_moves_on upstream accessToken tierID (seq 1 (k - 1))
              (k :: seq (S k) (MAX_ATTEMPTS - k))) as (-> & -> & _).
  { intros a Ha. apply in_seq in Ha. unfold moves_on.
    destruct (Hbefore a) as [H | H]; [lia | now left | right].
    split; [exact H | unfold MAX_ATTEMPTS; lia]. }
  rewrite loop_unfold, body_outcome, Hthrow, Hname.
  assert (Hne : Nat.eqb k MAX_ATTEMPTS = false)
    by (apply Nat.eqb_neq; unfold MAX_ATTEMPTS; lia).
  rewrite Hne. cbn [fst snd]. rewrite body_one_fetch, length_seq.
  split; [reflexivity | lia].
Qed.

(** X11. A timed-out attempt is retried at once, without the 2000 ms wait:
    when every attempt times out, [onboardUser] sends its five requests,
    never waits, and answers [null]. *)
Theorem onboardUser_all_timeouts :
  (forall attempt, 1 <= attempt <= 5 -> aborted upstream attempt = true) ->
  snd run = Normal VNull /\ fetches (fst run) = 5 /\ sleeps (fst run) = 0.
Proof.
  intros Hall. destruct run_loop as (-> & -> & -> & _).
  rewrite (seq_split 5) by (unfold MAX_ATTEMPTS; lia).
  destruct (loop_moves_on upstream accessToken tierID (seq 1 (5 - 1))
              (5 :: seq 6 (MAX_ATTEMPTS - 5))) as (-> & -> & ->).
  { intros a Ha. apply in_seq in Ha. right.
    split; [apply Hall; lia | unfold MAX_ATTEMPTS; lia]. }
  assert (Hnone : forall a, aborted upstream a = true -> not_done_yet upstream a = false).
  { intros a. unfold aborted, not_done_yet.
    now destruct (snd (try_block upstream a)) as [[v |] | e]. }
  assert (H5 : aborted upstream 5 = true) by (apply Hall; lia).
  rewrite loop_unfold, body_outcome. cbn [fst snd].
  unfold aborted in H5.
  destruct (snd (try_block upstream 5)) as [c | e] eqn:E; [discriminate |].
  change (Nat.eqb 5 MAX_ATTEMPTS) with true. cbn [fst snd].
  rewrite ProjectIdFacts.fetches_app, ProjectIdFacts.sleeps_app.
  rewrite body_one_fetch, body_sleeps_not_done.
  rewrite (Hnone 5) by (apply Hall; lia).
  split; [reflexivity |]. split; [reflexivity |].
  assert (Hf : List.filter (not_done_yet upstream) (seq 1 (5 - 1)) = []).
  { simpl. rewrite !Hnone by (apply Hall; lia). reflexivity. }
  rewrite Hf. reflexivity.
Qed.

Lemma loop_segments (attempts : list nat) :
  exists segments,
    fst (attempts_loop upstream accessToken tierID attempts) = concat segments /\
    length segments = fetches (fst (attempts_loop upstream accessToken tierID attempts)) /\
    Forall (fun segment =>
              exists rest,
                segment = SetTimeout 30000 :: Fetch accessToken tierID :: rest /\
                armed rest = 0 /\ fetches rest = 0 /\ 1 <= cleared rest <= 2)
           segments.
Proof.
  induction attempts as [| attempt rest IH].
  - exists []. repeat split; constructor.
  - rewrite (loop_unfold upstream accessToken tierID).
    pose proof (body_segment upstream accessToken tierID attempt) as Hseg.
    pose proof (body_one_fetch upstream accessToken tierID attempt) as Hf.
    destruct IH as (segments & Htr & Hlen & Hall).
    destruct (snd (attempt_body upstream accessToken tierID attempt)) as [[v |] | e];
      cbn [fst].
    + exists [fst (attempt_body upstream accessToken tierID attempt)].
      split; [reflexivity |]. split; [| now repeat constructor].
      rewrite ProjectIdFacts.fetches_app, Hf. reflexivity.
    + exists (fst (attempt_body upstream accessToken tierID attempt) :: segments).
      split; [simpl; now rewrite Htr |]. split; [| now constructor].
      rewrite ProjectIdFacts.fetches_app, Hf, <- Hlen. reflexivity.
    + exists [fst (attempt_body upstream accessToken tierID attempt)].
      split; [simpl; now rewrite app_nil_r |]. split; [| now repeat constructor].
      rewrite Hf. reflexivity.
Qed.

(** X12. Every attempt of [onboardUser] arms its own 30000 ms abort timer and
    clears it before the attempt ends, whether the attempt succeeds, fails or
    is retried: after its opening log line a run is a sequence of attempts,
    one per request sent, and each of them arms one timer of 30000 ms, sends
    its one request, and calls [clearTimeout] once or twice before the next
    attempt, if any, arms its timer. *)
Theorem onboardUser_timers_cleared :
  exists segments,
    fst run =
      Log ("[ProjectId] Onboarding user with tier: " +:+ tierID) :: concat segments /\
    length segments = fetches (fst run) /\
    Forall (fun segment =>
              exists rest,
                segment = SetTimeout 30000 :: Fetch accessToken tierID :: rest /\
                armed rest = 0 /\ fetches rest = 0 /\ 1 <= cleared rest <= 2)
           segments.
Proof.
  destruct (loop_segments (seq 1 MAX_ATTEMPTS)) as (segments & Htr & Hlen & Hall).
  exists segments. destruct run_loop as (_ & -> & _).
  split; [| split; [exact Hlen | exact Hall]].
  unfold onboardUser, emit, io_bind.
  destruct (attempts_loop upstream accessToken tierID (seq 1 MAX_ATTEMPTS)) as [tr res].
  cbn [fst] in *. now rewrite Htr.
Qed.

End Runs.


Lemma onboardUser_rethrows_witness :
  1 <= 2 < 5 /\
  snd (try_block upstream_network_error 2) = Throw (TypeError "fetch failed") /\
  snd (onboardUser upstream_network_error "token" "free-tier") =
    Throw (TypeError "fetch failed") /\
  fetches (fst (onboardUser upstream_network_error "token" "free-tier")) = 2.
Proof.
  assert (Hk : 1 <= 2 < 5) by lia.
  assert (Hthrow : snd (try_block upstream_network_error 2) =
                   Throw (TypeError "fetch failed")) by reflexivity.
  assert (Hbefore : forall attempt, 1 <= attempt < 2 ->
                      not_done_yet upstream_network_error attempt = true \/
                      aborted upstream_network_error attempt = true).
  { intros a Ha. left. assert (a = 1) as -> by lia. reflexivity. }
  split; [exact Hk |]. split; [exact Hthrow |].
  exact (onboardUser_rethrows upstream_network_error "token" "free-tier" 2
           (TypeError "fetch failed") Hk Hbefore Hthrow eq_refl).
Defined.

Lemma onboardUser_all_timeouts_witness :
  (forall attempt, 1 <= attempt <= 5 ->
                   aborted (fun _ => Rejects (mkError "AbortError" "aborted")) attempt = true) /\
  snd (onboardUser (fun _ => Rejects (mkError "AbortError" "aborted")) "token" "free-tier")
    = Normal VNull /\
  fetches (fst (onboardUser (fun _ => Rejects (mkError "AbortError" "aborted"))
                  "token" "free-tier")) = 5 /\
  sleeps (fst (onboardUser (fun _ => Rejects (mkError "AbortError" "aborted"))
                 "token" "free-tier")) = 0.
Proof.
  assert (H : forall attempt, 1 <= attempt <= 5 ->
                aborted (fun _ => Rejects (mkError "AbortError" "aborted")) attempt = true)
    by (intros; reflexivity).
  split; [exact H |].
  exact (onboardUser_all_timeouts (fun _ => Rejects (mkError "AbortError" "aborted"))
           "token" "free-tier" H).
Defined.

End OnboardFacts.

(** ** [fetchProjectId] and the two extractors *)

Module LookupFacts.

Import ProjectId Lookup.

Lemma truthy_string (s : string) : truthy (VStr s) = true -> s <> EmptyString.
Proof.
  simpl. intros H ->. discriminate.
Qed.

Lemma project_id_shape (project : value) :
  project_id_of project = VNull \/
  exists id, project_id_of project = VStr id /\ id <> EmptyString.
Proof.
  unfold project_id_of.
  destruct (as_string project) as [s |].
  - destruct (truthy (VStr (Host.trim s))) eqn:E.
    + right. eexists. split; [reflexivity | now apply truthy_string].
    + destruct (truthy project && typeof_object project); [| now left].
      destruct (as_string (prop project "id")) as [id |]; [| now left].
      destruct (truthy (VStr (Host.trim id))) eqn:E'; [| now left].
      right. eexists. split; [reflexivity | now apply truthy_string].
  - destruct (truthy project && typeof_object project); [| now left].
    destruct (as_string (prop project "id")) as [id |]; [| now left].
    destruct (truthy (VStr (Host.trim id))) eqn:E'; [| now left].
    right. eexists. split; [reflexivity | now apply truthy_string].
Qed.

Lemma onboard_id_shape (data : value) :
  extractProjectIdFromOnboard data = VNull \/
  exists id, extractProjectIdFromOnboard data = VStr id /\ id <> EmptyString.
Proof.
  unfold extractProjectIdFromOnboard.
  destruct (negb (truthy (if nullish data then VUndef else prop data "response")));
    [now left |].
  apply project_id_shape.
Qed.

Lemma load_id_shape (data : value) :
  extractProjectId data = VNull \/
  exists id, extractProjectId data = VStr id /\ id <> EmptyString.
Proof.
  unfold extractProjectId. destruct (negb (truthy data)); [now left |].
  apply project_id_shape.
Qed.

(** *** [trim] leaves no white space at either end *)

Lemma skip_space_suffix (back : bool) (bytes rest : list nat) :
  Host.skip_space back bytes = Some rest ->
  exists skipped, bytes = skipped ++ rest /\ skipped <> [].
Proof.
  unfold Host.skip_space.
  destruct bytes as [| b1 [| b2 [| b3 rest3]]];
    repeat match goal with
           | |- context [if ?b then _ else _] => destruct b
           end;
    intros H; try discriminate; injection H as <-.
  all: first [ now exists [b1] | now exists [b1; b2] | now exists [b1; b2; b3] ].
Qed.

Lemma skip_all_suffix (back : bool) (fuel : nat) (bytes : list nat) :
  exists skipped, bytes = skipped ++ Host.skip_all back fuel bytes.
Proof.
  revert bytes. induction fuel as [| fuel IH]; intros bytes; [now exists [] |].
  simpl. destruct (Host.skip_space back bytes) as [rest |] eqn:E; [| now exists []].
  destruct (skip_space_suffix _ _ _ E) as (skipped & -> & _).
  destruct (IH rest) as [skipped' H]. exists (skipped ++ skipped').
  now rewrite <- app_assoc, <- H.
Qed.

Lemma skip_all_done (back : bool) (fuel : nat) (bytes : list nat) :
  length bytes <= fuel -> Host.skip_space back (Host.skip_all back fuel bytes) = None.
Proof.
  revert bytes. induction fuel as [| fuel IH]; intros bytes Hlen.
  - destruct bytes; [reflexivity | simpl in Hlen; lia].
  - simpl. destruct (Host.skip_space back bytes) as [rest |] eqn:E; [| exact E].
    apply IH. destruct (skip_space_suffix _ _ _ E) as (skipped & -> & Hne).
    rewrite length_app in Hlen. destruct skipped; [contradiction | simpl in Hlen; lia].
Qed.

Lemma skip_space_prefix (bytes more rest : list nat) :
  Host.skip_space false bytes = Some rest ->
  Host.skip_space false (bytes ++ more) = Some (rest ++ more).
Proof.
  unfold Host.skip_space.
  destruct bytes as [| b1 [| b2 [| b3 rest3]]]; cbn [app];
    repeat match goal with
           | |- context [if ?b then _ else _] => destruct b
           end;
    intros H; try discriminate; injection H as <-; reflexivity.
Qed.

Lemma bytes_of_string_of (bytes : list nat) :
  Forall (fun b => b < 256) bytes -> Host.bytes_of (Host.string_of bytes) = bytes.
Proof.
  intros H. unfold Host.bytes_of, Host.string_of.
  rewrite list_ascii_of_string_of_list_ascii.
  induction H as [| b bytes Hb _ IH]; [reflexivity |].
  simpl. now rewrite nat_ascii_embedding, IH.
Qed.

Lemma bytes_of_bounded (s : string) : Forall (fun b => b < 256) (Host.bytes_of s).
Proof.
  unfold Host.bytes_of. induction (list_ascii_of_string s) as [| a l IH];
    constructor; [apply nat_ascii_bounded | exact IH].
Qed.

(** What [trim] returns has no white space at its front and none at its end. *)
Lemma trim_edges (s : string) :
  Host.skip_space false (Host.bytes_of (Host.trim s)) = None /\
  Host.skip_space true (rev (Host.bytes_of (Host.trim s))) = None.
Proof.
  unfold Host.trim.
  set (bytes := Host.bytes_of s).
  set (front := Host.skip_all false (length bytes) bytes).
  set (back := Host.skip_all true (length front) (rev front)).
  assert (Hfront : Host.skip_space false front = None)
    by (apply skip_all_done; lia).
  assert (Hback : Host.skip_space true back = None)
    by (apply skip_all_done; rewrite length_rev; lia).
  destruct (skip_all_suffix false (length bytes) bytes) as [skipped Hbytes].
  destruct (skip_all_suffix true (length front) (rev front)) as [skipped' Hrev].
  fold front in Hbytes. fold back in Hrev.
  assert (Hsplit : front = rev back ++ rev skipped').
  { rewrite <- (rev_involutive front), Hrev. apply rev_app_distr. }
  assert (Hbound : Forall (fun b => b < 256) (rev back)).
  { pose proof (bytes_of_bounded s) as Hb. fold bytes in Hb.
    rewrite Hbytes, Hsplit in Hb.
    apply Forall_app in Hb as [_ Hb]. now apply Forall_app in Hb as [Hb _]. }
  rewrite (bytes_of_string_of _ Hbound), rev_involutive. split; [| exact Hback].
  destruct (Host.skip_space false (rev back)) as [rest |] eqn:E; [| reflexivity].
  apply (skip_space_prefix _ (rev skipped')) in E.
  rewrite <- Hsplit, Hfront in E. discriminate.
Qed.

Lemma project_id_trimmed (project : value) :
  project_id_of project = VNull \/
  exists s,
    (project = VStr s \/ prop project "id" = VStr s) /\
    project_id_of project = VStr (Host.trim s) /\ trimmed (Host.trim s).
Proof.
  assert (Htrim : forall s, truthy (VStr (Host.trim s)) = true -> trimmed (Host.trim s)).
  { intros s H. split; [now apply truthy_string | apply trim_edges]. }
  unfold project_id_of.
  assert (Hobject :
            (if truthy project && typeof_object project then
               match as_string (prop project "id") with
               | Some id =>
                   if truthy (VStr (Host.trim id)) then VStr (Host.trim id) else VNull
               | None => VNull
               end
             else VNull) = VNull \/
            exists s,
              (project = VStr s \/ prop project "id" = VStr s) /\
              (if truthy project && typeof_object project then
                 match as_string (prop project "id") with
                 | Some id =>
                     if truthy (VStr (Host.trim id)) then VStr (Host.trim id) else VNull
                 | None => VNull
                 end
               else VNull) = VStr (Host.trim s) /\ trimmed (Host.trim s)).
  { destruct (truthy project && typeof_object project); [| now left].
    destruct (prop project "id") as [| | b | x | id | vs | ps] eqn:Hp; try now left.
    cbn [as_string]. destruct (truthy (VStr (Host.trim id))) eqn:E; [| now left].
    right. exists id. split; [now right |]. split; [reflexivity | now apply Htrim]. }
  destruct project as [| | b | x | s | vs | ps]; cbn [as_string]; try exact Hobject.
  destruct (truthy (VStr (Host.trim s))) eqn:E; [| exact Hobject].
  right. exists s. split; [now left |]. split; [reflexivity | now apply Htrim].
Qed.

(** X13. Both extractors answer [null] or a trimmed string, whatever the
    upstream sent: the [trim] of the string found at [cloudaicompanionProject]
    or at its [id], which is not empty and has no white space at either end.
    So never an empty or blank id, a number or an object. *)
Theorem extractors_null_or_id (data : value) :
  (extractProjectId data = VNull \/
   exists s,
     (prop data "cloudaicompanionProject" = VStr s \/
      prop (prop data "cloudaicompanionProject") "id" = VStr s) /\
     extractProjectId data = VStr (Host.trim s) /\ trimmed (Host.trim s)) /\
  (extractProjectIdFromOnboard data = VNull \/
   exists s,
     (prop (prop data "response") "cloudaicompanionProject" = VStr s \/
      prop (prop (prop data "response") "cloudaicompanionProject") "id" = VStr s) /\
     extractProjectIdFromOnboard data = VStr (Host.trim s) /\ trimmed (Host.trim s)).
Proof.
  split.
  - unfold extractProjectId. destruct (negb (truthy data)); [now left |].
    apply project_id_trimmed.
  - unfold extractProjectIdFromOnboard.
    destruct (negb (truthy (if nullish data then VUndef else prop data "response")));
      [now left |].
    apply project_id_trimmed.
Qed.

Section Lookups.

Variable upstream : nat -> fetch_outcome.

Variables accessToken tierID : string.

Lemma loop_result (attempts : list nat) (v : value) :
  snd (attempts_loop upstream accessToken tierID attempts) = Normal v ->
  v = VNull \/ exists id, v = VStr id /\ id <> EmptyString.
Proof.
  induction attempts as [| attempt rest IH]; [simpl; intros [= <-]; now left |].
  rewrite (OnboardFacts.loop_unfold upstream accessToken tierID).
  rewrite (OnboardFacts.body_outcome upstream accessToken tierID).
  destruct (snd (try_block upstream attempt)) as [[w |] | e] eqn:E; cbn [snd].
  - intros [= <-].
    destruct (OnboardFacts.try_block_return_id upstream attempt w E) as [data ->].
    apply onboard_id_shape.
  - exact IH.
  - destruct (Nat.eqb attempt MAX_ATTEMPTS); [intros [= <-]; now left |].
    destruct (String.eqb (err_name e) "AbortError"); [exact IH | discriminate].
Qed.

Lemma loop_fetch_args (attempts : list nat) (token tier : string) :
  In (Fetch token tier) (fst (attempts_loop upstream accessToken tierID attempts)) ->
  token = accessToken /\ tier = tierID.
Proof.
  induction attempts as [| attempt rest IH]; [intros [] |].
  rewrite (OnboardFacts.loop_unfold upstream accessToken tierID).
  pose proof (OnboardFacts.body_fetch_args upstream accessToken tierID attempt token tier)
    as Hb.
  destruct (snd (attempt_body upstream accessToken tierID attempt)) as [[v |] | e];
    cbn [fst]; rewrite ?in_app_iff; intros H.
  - destruct H as [H | []]. now apply Hb.
  - destruct H as [H | H]; [now apply Hb | now apply IH].
  - now apply Hb.
Qed.

Lemma run_fetch_args (token tier : string) :
  In (Fetch token tier) (fst (onboardUser upstream accessToken tierID)) ->
  token = accessToken /\ tier = tierID.
Proof.
  intros H. apply (loop_fetch_args (seq 1 MAX_ATTEMPTS)).
  unfold onboardUser, emit, io_bind in H.
  destruct (attempts_loop upstream accessToken tierID (seq 1 MAX_ATTEMPTS)) as [tr res].
  cbn [fst] in *. destruct H as [H | H]; [discriminate | exact H].
Qed.

Lemma run_result (v : value) :
  snd (onboardUser upstream accessToken tierID) = Normal v ->
  v = VNull \/ exists id, v = VStr id /\ id <> EmptyString.
Proof.
  destruct (OnboardFacts.run_loop upstream accessToken tierID) as (-> & _).
  apply loop_result.
Qed.

Lemma run_fetches : fetches (fst (onboardUser upstream accessToken tierID)) <= 5.
Proof.
  destruct (OnboardFacts.run_loop upstream accessToken tierID) as (_ & -> & _).
  apply (ProjectIdFacts.loop_fetches upstream accessToken tierID (seq 1 MAX_ATTEMPTS)).
Qed.

(** X14. What [onboardUser] returns is [null] or a non-empty project id,
    whatever the upstream answers. *)
Theorem onboardUser_null_or_id (v : value) :
  snd (onboardUser upstream accessToken tierID) = Normal v ->
  v = VNull \/ exists id, v = VStr id /\ id <> EmptyString.
Proof.
  destruct (OnboardFacts.run_loop upstream accessToken tierID) as (-> & _).
  intros H. destruct (loop_result _ _ H) as [-> | (id & -> & Hne)]; [now left |].
  right. now exists id.
Qed.

End Lookups.

Lemma requests_onboarding (tr : list event) :
  requests (map Onboarding tr) = fetches tr.
Proof.
  unfold requests, fetches.
  induction tr as [| ev tr IH]; [reflexivity |].
  simpl. destruct (is_fetch ev); simpl; now rewrite IH.
Qed.

Ltac lookup_cases load :=
  unfold fetchProjectId;
  destruct load as [error | [ok status text json]];
  cbv beta iota zeta delta [ProjectId.ok ProjectId.json ProjectId.text ProjectId.status];
  [| destruct ok; cbv beta iota zeta delta [negb];
     [destruct json as [data | error];
      [destruct (truthy (extractProjectId data)) eqn:Hid;
       [| destruct (tier_of data) as [tierID | error] eqn:Htier] | ] | ]].

(** X15. [fetchProjectId] starts with the request to loadCodeAssist and sends
    at most six requests in all: that one and the five of [onboardUser]. *)
Theorem fetchProjectId_at_most_six (load : fetch_outcome) (upstream : nat -> fetch_outcome)
  (accessToken : string) :
  let tr := fst (fetchProjectId load upstream accessToken) in
  hd_error tr = Some (LoadCodeAssist accessToken) /\ 1 <= requests tr <= 6.
Proof.
  cbv zeta. lookup_cases load; cbn [fst hd_error]; (split; [reflexivity |]);
    try (unfold requests; simpl; lia).
  change (requests (LoadCodeAssist accessToken :: ?tr)) with (S (requests tr)).
  rewrite requests_onboarding.
  pose proof (run_fetches upstream accessToken tierID). lia.
Qed.

(** X16. What [fetchProjectId] returns is [null] or a non-empty project id. *)
Theorem fetchProjectId_null_or_id (load : fetch_outcome) (upstream : nat -> fetch_outcome)
  (accessToken : string) (v : value) :
  snd (fetchProjectId load upstream accessToken) = Normal v ->
  v = VNull \/ exists id, v = VStr id /\ id <> EmptyString.
Proof.
  lookup_cases load; cbn [snd]; try discriminate.
  - intros [= <-]. destruct (load_id_shape data) as [H | H]; [| now right].
    rewrite H in Hid. discriminate.
  - apply run_result.
Qed.

(** X17. [fetchProjectId] turns to [onboardUser] only when loadCodeAssist
    answered with a success status and a body that names no project; the
    onboarding requests then carry the access token and the tier chosen from
    that body. *)
Theorem onboarding_only_without_project (load : fetch_outcome)
  (upstream : nat -> fetch_outcome) (accessToken : string) :
  1 < requests (fst (fetchProjectId load upstream accessToken)) ->
  exists r data tierID,
    load = Responds r /\ ok r = true /\ json r = Normal data /\
    extractProjectId data = VNull /\ tier_of data = Normal tierID /\
    forall token tier,
      In (Onboarding (Fetch token tier)) (fst (fetchProjectId load upstream accessToken)) ->
      token = accessToken /\ tier = tierID.
Proof.
  lookup_cases load; cbn [fst]; try (unfold requests; simpl; lia).
  intros _. eexists _, data, tierID. cbn [ProjectId.ok ProjectId.json].
  repeat (split; [reflexivity |]).
  split.
  { destruct (load_id_shape data) as [H | (id & H & Hne)]; [exact H |].
    rewrite H in Hid. simpl in Hid. destruct id; [congruence | discriminate]. }
  split; [exact Htier |].
  intros token tier [H | H]; [discriminate |].
  apply in_map_iff in H as (ev & Heq & H). injection Heq as ->.
  now apply (run_fetch_args upstream accessToken tierID).
Qed.

Lemma default_tier_shape (tiers : list value) :
  default_tier tiers = "legacy-tier" \/
  exists tier id,
    In tier tiers /\ is_true (prop tier "isDefault") = true /\
    prop tier "id" = VStr id /\ default_tier tiers = Host.trim id /\
    Host.trim id <> EmptyString.
Proof.
  induction tiers as [| tier rest IH]; [now left |].
  assert (Hrest : default_tier rest = "legacy-tier" \/
                  exists tier' id,
                    In tier' (tier :: rest) /\ is_true (prop tier' "isDefault") = true /\
                    prop tier' "id" = VStr id /\ default_tier rest = Host.trim id /\
                    Host.trim id <> EmptyString).
  { destruct IH as [H | (t & id & Hin & H)]; [now left |].
    right. exists t, id. split; [now right | exact H]. }
  cbn [default_tier].
  destruct (truthy tier && typeof_object tier) eqn:E; [| exact Hrest].
  destruct (is_true (prop tier "isDefault")) eqn:Hd; [| exact Hrest].
  cbn [andb].
  destruct (prop tier "id") as [| | b | x | id | vs | ps] eqn:Hp; try exact Hrest.
  destruct (truthy (VStr id) && truthy (VStr (Host.trim id))) eqn:Ht; [| exact Hrest].
  right. exists tier, id. apply andb_prop in Ht as [_ Ht].
  split; [now left |]. split; [exact Hd |]. split; [exact Hp |].
  split; [reflexivity | now apply truthy_string].
Qed.

(** X18. The tier [fetchProjectId] onboards with is never empty: it is
    ["legacy-tier"], or the trimmed, non-blank [id] of an allowed tier whose
    [isDefault] is [true]. *)
Theorem default_tier_sound (tiers : list value) :
  default_tier tiers <> EmptyString /\
  (default_tier tiers = "legacy-tier" \/
   exists tier id,
     In tier tiers /\ is_true (prop tier "isDefault") = true /\
     prop tier "id" = VStr id /\ default_tier tiers = Host.trim id).
Proof.
  destruct (default_tier_shape tiers) as [H | (tier & id & Hin & Hd & Hp & H & Hne)].
  - split; [rewrite H; discriminate | now left].
  - split; [now rewrite H |]. right. now exists tier, id.
Qed.

(** X19. The loop over [allowedTiers] stops at the first default tier that
    has a non-blank string id: tiers that are not default, before it, and
    every tier after it, do not matter. *)
Theorem default_tier_first (before after : list value) (fields : props) (id : string) :
  (forall tier, In tier before -> is_true (prop tier "isDefault") = false) ->
  prop (VObj fields) "isDefault" = VBool true ->
  prop (VObj fields) "id" = VStr id ->
  Host.trim id <> EmptyString ->
  default_tier (before ++ VObj fields :: after) = Host.trim id.
Proof.
  intros Hbefore Hd Hp Hne.
  induction before as [| tier before IH].
  - simpl app. cbn [default_tier]. rewrite Hd, Hp. cbn [truthy typeof_object is_true andb].
    assert (Hid : String.eqb id "" = false).
    { destruct id; [| reflexivity]. now contradiction Hne. }
    assert (Ht : String.eqb (Host.trim id) "" = false).
    { destruct (Host.trim id); [now contradiction Hne | reflexivity]. }
    now rewrite Hid, Ht.
  - simpl app. cbn [default_tier].
    rewrite (Hbefore tier) by now left.
    rewrite andb_false_r. apply IH. intros t Ht. apply Hbefore. now right.
Qed.

End LookupFacts.

Lemma onboardUser_null_or_id_witness :
  snd (ProjectId.onboardUser upstream_done_third "token" "free-tier") =
    Normal (VStr "proj-1") /\
  (VStr "proj-1" = VNull \/ exists id, VStr "proj-1" = VStr id /\ id <> EmptyString).
Proof.
  assert (H : snd (ProjectId.onboardUser upstream_done_third "token" "free-tier") =
              Normal (VStr "proj-1")) by (vm_compute; reflexivity).
  split; [exact H |].
  exact (LookupFacts.onboardUser_null_or_id upstream_done_third "token" "free-tier" _ H).
Defined.

Lemma fetchProjectId_null_or_id_witness :
  snd (Lookup.fetchProjectId load_with_project upstream_done_third "token") =
    Normal (VStr "proj-7") /\
  (VStr "proj-7" = VNull \/ exists id, VStr "proj-7" = VStr id /\ id <> EmptyString).
Proof.
  assert (H : snd (Lookup.fetchProjectId load_with_project upstream_done_third "token") =
              Normal (VStr "proj-7")) by (vm_compute; reflexivity).
  split; [exact H |].
  exact (LookupFacts.fetchProjectId_null_or_id load_with_project upstream_done_third
           "token" _ H).
Defined.

Lemma onboarding_only_without_project_witness :
  1 < Lookup.requests (fst (Lookup.fetchProjectId load_without_project
                              upstream_done_third "token")) /\
  exists r data tierID,
    load_without_project = ProjectId.Responds r /\ ProjectId.ok r = true /\
    ProjectId.json r = Normal data /\
    ProjectId.extractProjectId data = VNull /\ Lookup.tier_of data = Normal tierID /\
    forall token tier,
      In (Lookup.Onboarding (ProjectId.Fetch token tier))
         (fst (Lookup.fetchProjectId load_without_project upstream_done_third "token")) ->
      token = "token" /\ tier = tierID.
Proof.
  assert (H : 1 < Lookup.requests (fst (Lookup.fetchProjectId load_without_project
                                          upstream_done_third "token")))
    by (vm_compute; lia).
  split; [exact H |].
  exact (LookupFacts.onboarding_only_without_project load_without_project
           upstream_done_third "token" H).
Defined.

Lemma default_tier_first_witness :
  Lookup.default_tier [paid_tier; free_tier; paid_tier] = "free-tier".
Proof.
  assert (Hb : forall tier, In tier [paid_tier] ->
                 ProjectId.is_true (prop tier "isDefault") = false).
  { intros tier [<- | []]. reflexivity. }
  assert (Ht : Host.trim " free-tier " = "free-tier") by (vm_compute; reflexivity).
  assert (Hne : Host.trim " free-tier " <> EmptyString) by (rewrite Ht; discriminate).
  rewrite <- Ht.
  exact (LookupFacts.default_tier_first [paid_tier] [paid_tier]
           [("id", VStr " free-tier "); ("isDefault", VBool true)] " free-tier "
           Hb eq_refl eq_refl Hne).
Defined.

(** ** The cache of [getProjectIdForConnection] *)

Module CacheFacts.

Import ProjectId Lookup.

Lemma tidy_start : tidy start.
Proof. constructor; simpl; intros; simplify_map_eq; reflexivity. Qed.

Lemma tidy_call (c tok : string) (now : Z) (st : service) :
  tidy st -> tidy (snd (getProjectIdForConnection c tok now st)).
Proof.
  intros Hst. unfold getProjectIdForConnection.
  destruct (negb (truthy (VStr c)) || negb (truthy (VStr tok))); [exact Hst |].
  destruct (fresh (projectIdCache st) c now); [exact Hst |].
  destruct (pendingFetches st !! c) as [p |] eqn:Hpend; [exact Hst |].
  destruct Hst as [H1 H2 H3 H4 H5 H6].
  constructor; simpl; auto.
  - intros c' p'. destruct (decide (c = c')) as [<- | Hne].
    + rewrite lookup_insert_eq. intros [= <-]. now rewrite lookup_insert_eq.
    + rewrite lookup_insert_ne by exact Hne. intros Hp'.
      pose proof (H1 _ _ Hp') as Hs. pose proof (H3 _ _ Hs) as Hlt.
      rewrite lookup_insert_ne by lia. exact Hs.
  - intros p' c'. destruct (decide (next_promise st = p')) as [<- | Hne].
    + rewrite lookup_insert_eq. intros [= <-]. now rewrite lookup_insert_eq.
    + rewrite lookup_insert_ne by exact Hne. intros Hs.
      pose proof (H2 _ _ Hs) as Hp'.
      rewrite lookup_insert_ne by congruence. exact Hp'.
  - intros p' c'. destruct (decide (next_promise st = p')) as [<- | Hne].
    + lia.
    + rewrite lookup_insert_ne by exact Hne. intros Hs. specialize (H3 _ _ Hs). lia.
  - rewrite length_app, H4. simpl. lia.
Qed.

Lemma tidy_settle (p : promise) (outcome : completion value) (now : Z) (st : service) :
  tidy st -> tidy (settle p outcome now st).
Proof.
  intros Hst. unfold settle. destruct (suspended st !! p) as [c |] eqn:Hp; [| exact Hst].
  destruct Hst as [H1 H2 H3 H4 H5 H6].
  constructor; simpl; auto.
  - intros c' p' Hd. apply lookup_delete_Some in Hd as [Hne Hp'].
    rewrite lookup_delete_ne; [now apply H1 |].
    intros <-. apply H1 in Hp'. congruence.
  - intros p' c' Hd. apply lookup_delete_Some in Hd as [Hne Hs].
    rewrite lookup_delete_ne; [now apply H2 |].
    intros <-. apply H2 in Hs. apply H2 in Hp. congruence.
  - intros p' c' Hd. apply lookup_delete_Some in Hd as [Hne Hs]. eauto.
  - intros c' cached.
    destruct outcome as [id | e]; [destruct (truthy id) eqn:Hid |]; try apply H5.
    destruct (decide (c = c')) as [<- | Hne].
    + rewrite lookup_insert_eq. now intros [= <-].
    + rewrite lookup_insert_ne by exact Hne. apply H5.
  - intros p' v. destruct (decide (p = p')) as [<- | Hne].
    + rewrite lookup_insert_eq. intros [= <-].
      destruct outcome as [id | e]; [destruct (truthy id) eqn:Hid |]; auto.
    + rewrite lookup_insert_ne by exact Hne. apply H6.
Qed.

Lemma tidy_invalidate (c : string) (st : service) :
  tidy st -> tidy (invalidateProjectId c st).
Proof.
  intros [H1 H2 H3 H4 H5 H6]. constructor; simpl; auto.
  intros c' cached Hd. apply lookup_delete_Some in Hd as [_ Hcache]. eauto.
Qed.

Lemma tidy_fold (actions : list action) (st : service) :
  tidy st -> tidy (fold_left step actions st).
Proof.
  revert st. induction actions as [| a rest IH]; intros st Hst; [exact Hst |].
  simpl. apply IH. destruct a as [c tok now | p outcome now | c]; simpl.
  - now apply tidy_call.
  - now apply tidy_settle.
  - now apply tidy_invalidate.
Qed.

(** X20. Whatever calls, settlements and invalidations happen, in whatever
    order and at whatever clock readings: a connection has at most one fetch
    in flight and [pendingFetches] names exactly the suspended fetches, one
    lookup was sent per fetch promise, the cache holds only truthy project
    ids, and a fetch promise resolves with [null] or a truthy id. *)
Theorem module_state_tidy (actions : list action) : tidy (run actions).
Proof. apply tidy_fold, tidy_start. Qed.

(** X21. A project id that a fetch brought back at time [t0] is served from
    the cache, with no new lookup, as long as less than 3600000 ms have
    passed; at 3600000 ms exactly, and after, the call starts a new lookup. *)
Theorem fetched_id_served_for_an_hour (st : service) (p : promise)
  (connectionId accessToken : string) (id : value) (t0 now : Z) :
  suspended st !! p = Some connectionId ->
  truthy (VStr connectionId) = true ->
  truthy (VStr accessToken) = true ->
  truthy id = true ->
  let st' := settle p (Normal id) t0 st in
  fst (getProjectIdForConnection connectionId accessToken now st') =
    (if (now - t0 <? 3600000)%Z then Resolves id else Adopts (next_promise st)) /\
  lookups (snd (getProjectIdForConnection connectionId accessToken now st')) =
    (if (now - t0 <? 3600000)%Z then lookups st
     else lookups st ++ [(connectionId, accessToken)]).
Proof.
  intros Hp Hc Htok Hid. cbv zeta.
  unfold settle. rewrite Hp, Hid.
  unfold getProjectIdForConnection. rewrite Hc, Htok.
  cbn [negb orb projectIdCache pendingFetches next_promise lookups].
  unfold fresh. rewrite lookup_insert_eq. cbn [fetchedAt projectId].
  change CACHE_TTL_MS with 3600000%Z.
  destruct (now - t0 <? 3600000)%Z; [now split |].
  rewrite lookup_delete_eq. now split.
Qed.

(** X22. A failed lookup is not cached: when [fetchProjectId] throws, or
    returns nothing truthy, the cache is left as it was, the callers get
    [null], and the next call for the connection starts a new lookup. *)
Theorem failure_not_cached (st : service) (p : promise)
  (connectionId accessToken : string) (outcome : completion value) (t now : Z) :
  suspended st !! p = Some connectionId ->
  truthy (VStr connectionId) = true ->
  truthy (VStr accessToken) = true ->
  match outcome with Normal id => truthy id = false | Throw _ => True end ->
  fresh (projectIdCache st) connectionId now = None ->
  let st' := settle p outcome t st in
  projectIdCache st' = projectIdCache st /\
  resolved st' !! p = Some VNull /\
  fst (getProjectIdForConnection connectionId accessToken now st') =
    Adopts (next_promise st) /\
  lookups (snd (getProjectIdForConnection connectionId accessToken now st')) =
    lookups st ++ [(connectionId, accessToken)].
Proof.
  intros Hp Hc Htok Hfail Hfresh. cbv zeta.
  assert (Hst : settle p outcome t st =
                mkService (projectIdCache st) (delete connectionId (pendingFetches st))
                          (delete p (suspended st)) (<[p := VNull]> (resolved st))
                          (next_promise st) (lookups st)).
  { unfold settle. rewrite Hp. destruct outcome as [id | e]; [now rewrite Hfail | reflexivity]. }
  rewrite Hst. cbn [projectIdCache resolved].
  split; [reflexivity |]. split; [apply lookup_insert_eq |].
  unfold getProjectIdForConnection. rewrite Hc, Htok.
  cbn [negb orb projectIdCache pendingFetches next_promise lookups].
  rewrite Hfresh, lookup_delete_eq. now split.
Qed.

(** X23. After [invalidateProjectId] the next call for the connection is
    never answered from the cache, however recent the entry was: it joins the
    fetch in flight or starts a lookup. The entries of the other connections
    are served as before. *)
Theorem invalidate_forces_lookup (st : service) (connectionId accessToken : string)
  (now : Z) :
  truthy (VStr connectionId) = true ->
  truthy (VStr accessToken) = true ->
  (exists p,
     fst (getProjectIdForConnection connectionId accessToken now
            (invalidateProjectId connectionId st)) = Adopts p) /\
  forall other,
    other <> connectionId ->
    fresh (projectIdCache (invalidateProjectId connectionId st)) other now =
    fresh (projectIdCache st) other now.
Proof.
  intros Hc Htok. split.
  - unfold getProjectIdForConnection, invalidateProjectId. rewrite Hc, Htok.
    cbn [negb orb projectIdCache pendingFetches next_promise].
    unfold fresh. rewrite lookup_delete_eq.
    destruct (pendingFetches st !! connectionId) as [p |]; eexists; reflexivity.
  - intros other Hne. unfold fresh, invalidateProjectId. cbn [projectIdCache].
    now rewrite lookup_delete_ne by congruence.
Qed.

(** X24. Invalidation does not cancel a fetch in flight: when that fetch
    brings back an id afterwards, the id is cached for the connection and
    served again. *)
Theorem invalidate_keeps_fetch_in_flight (st : service) (p : promise)
  (connectionId accessToken : string) (id : value) (t now : Z) :
  suspended st !! p = Some connectionId ->
  truthy (VStr connectionId) = true ->
  truthy (VStr accessToken) = true ->
  truthy id = true ->
  (now - t < 3600000)%Z ->
  let st' := settle p (Normal id) t (invalidateProjectId connectionId st) in
  projectIdCache st' !! connectionId = Some (mkEntry id t) /\
  getProjectIdForConnection connectionId accessToken now st' = (Resolves id, st').
Proof.
  intros Hp Hc Htok Hid Hnow. cbv zeta.
  unfold settle, invalidateProjectId. cbn [suspended]. rewrite Hp, Hid.
  cbn [projectIdCache]. split; [apply lookup_insert_eq |].
  unfold getProjectIdForConnection. rewrite Hc, Htok.
  cbn [negb orb projectIdCache]. unfold fresh. rewrite lookup_insert_eq.
  cbn [fetchedAt projectId]. change CACHE_TTL_MS with 3600000%Z.
  destruct (Z.ltb_spec (now - t) 3600000); [reflexivity | lia].
Qed.

End CacheFacts.

Lemma fetched_id_served_for_an_hour_witness :
  ProjectId.suspended (ProjectId.run [ProjectId.Call "conn-1" "token-a" 1000]) !! 0
    = Some "conn-1" /\
  fst (ProjectId.getProjectIdForConnection "conn-1" "token-b" 3601999
         (ProjectId.settle 0 (Normal (VStr "proj-1")) 2000
            (ProjectId.run [ProjectId.Call "conn-1" "token-a" 1000])))
    = ProjectId.Resolves (VStr "proj-1") /\
  fst (ProjectId.getProjectIdForConnection "conn-1" "token-b" 3602000
         (ProjectId.settle 0 (Normal (VStr "proj-1")) 2000
            (ProjectId.run [ProjectId.Call "conn-1" "token-a" 1000])))
    = ProjectId.Adopts 1.
Proof.
  assert (Hp : ProjectId.suspended (ProjectId.run [ProjectId.Call "conn-1" "token-a" 1000])
                 !! 0 = Some "conn-1") by reflexivity.
  split; [exact Hp |]. split.
  - exact (proj1 (CacheFacts.fetched_id_served_for_an_hour _ 0 "conn-1" "token-b"
                    (VStr "proj-1") 2000 3601999 Hp eq_refl eq_refl eq_refl)).
  - exact (proj1 (CacheFacts.fetched_id_served_for_an_hour _ 0 "conn-1" "token-b"
                    (VStr "proj-1") 2000 3602000 Hp eq_refl eq_refl eq_refl)).
Defined.

Lemma failure_not_cached_witness :
  ProjectId.suspended (ProjectId.run [ProjectId.Call "conn-1" "token-a" 1000]) !! 0
    = Some "conn-1" /\
  ProjectId.resolved
    (ProjectId.settle 0 (Throw (TypeError "fetch failed")) 2000
       (ProjectId.run [ProjectId.Call "conn-1" "token-a" 1000])) !! 0 = Some VNull /\
  fst (ProjectId.getProjectIdForConnection "conn-1" "token-a" 2001
         (ProjectId.settle 0 (Throw (TypeError "fetch failed")) 2000
            (ProjectId.run [ProjectId.Call "conn-1" "token-a" 1000])))
    = ProjectId.Adopts 1.
Proof.
  assert (Hp : ProjectId.suspended (ProjectId.run [ProjectId.Call "conn-1" "token-a" 1000])
                 !! 0 = Some "conn-1") by reflexivity.
  pose proof (CacheFacts.failure_not_cached _ 0 "conn-1" "token-a"
                (Throw (TypeError "fetch failed")) 2000 2001 Hp eq_refl eq_refl I eq_refl)
    as H.
  split; [exact Hp |]. split; [exact (proj1 (proj2 H)) | exact (proj1 (proj2 (proj2 H)))].
Defined.

Lemma invalidate_forces_lookup_witness :
  fst (ProjectId.getProjectIdForConnection "conn-1" "token-a" 2500
         (ProjectId.run [ProjectId.Call "conn-1" "token-a" 1000;
                         ProjectId.Settle 0 (Normal (VStr "proj-1")) 2000]))
    = ProjectId.Resolves (VStr "proj-1") /\
  exists p,
    fst (ProjectId.getProjectIdForConnection "conn-1" "token-a" 2500
           (ProjectId.invalidateProjectId "conn-1"
              (ProjectId.run [ProjectId.Call "conn-1" "token-a" 1000;
                              ProjectId.Settle 0 (Normal (VStr "proj-1")) 2000])))
      = ProjectId.Adopts p.
Proof.
  split; [reflexivity |].
  exact (proj1 (CacheFacts.invalidate_forces_lookup
                  (ProjectId.run [ProjectId.Call "conn-1" "token-a" 1000;
                                  ProjectId.Settle 0 (Normal (VStr "proj-1")) 2000])
                  "conn-1" "token-a" 2500 eq_refl eq_refl)).
Defined.

Lemma invalidate_keeps_fetch_in_flight_witness :
  ProjectId.suspended (ProjectId.run [ProjectId.Call "conn-1" "token-a" 1000]) !! 0
    = Some "conn-1" /\
  ProjectId.projectIdCache
    (ProjectId.settle 0 (Normal (VStr "proj-1")) 2000
       (ProjectId.invalidateProjectId "conn-1"
          (ProjectId.run [ProjectId.Call "conn-1" "token-a" 1000]))) !! "conn-1"
    = Some (ProjectId.mkEntry (VStr "proj-1") 2000).
Proof.
  assert (Hp : ProjectId.suspended (ProjectId.run [ProjectId.Call "conn-1" "token-a" 1000])
                 !! 0 = Some "conn-1") by reflexivity.
  assert (Hnow : (2500 - 2000 < 3600000)%Z) by lia.
  split; [exact Hp |].
  exact (proj1 (CacheFacts.invalidate_keeps_fetch_in_flight _ 0 "conn-1" "token-b"
                  (VStr "proj-1") 2000 2500 Hp eq_refl eq_refl eq_refl Hnow)).
Defined.

(** ** [ensureCloudSyncInitialized] *)

Module CloudSyncFacts.

Import CloudSync.

Lemma fold_initialized (actions : list action) (st : state) :
  initialized st = true ->
  initialized (fold_left step actions st) = true /\
  invocations (fold_left step actions st) = invocations st.
Proof.
  revert st. induction actions as [| a rest IH]; intros st Hst; [now split |].
  simpl. destruct (IH (step st a)) as [Hi Hn].
  - destruct a as [| [u | e]]; simpl; unfold enter; rewrite ?Hst; simpl; auto.
  - rewrite Hi, Hn. split; [reflexivity |].
    destruct a as [| [u | e]]; simpl; unfold enter; rewrite ?Hst; reflexivity.
Qed.

Lemma fold_succeeded (actions : list action) (st : state) :
  existsb succeeded actions = true -> initialized (fold_left step actions st) = true.
Proof.
  revert st. induction actions as [| a rest IH]; intros st H; [discriminate |].
  simpl in *. apply orb_true_iff in H as [H | H]; [| now apply IH].
  destruct a as [| [u | e]]; try discriminate.
  now apply fold_initialized.
Qed.

Lemma fold_not_succeeded (actions : list action) (st : state) :
  existsb succeeded actions = false ->
  initialized st = false ->
  initialized (fold_left step actions st) = false /\
  invocations (fold_left step actions st) =
    invocations st + length (List.filter entered actions) /\
  errors_logged (fold_left step actions st) =
    errors_logged st + length (List.filter rejected actions).
Proof.
  revert st. induction actions as [| a rest IH]; intros st H Hst.
  - simpl. repeat split; auto.
  - simpl in H. apply orb_false_iff in H as [Ha H].
    destruct a as [| [u | e]]; try discriminate; cbn [fold_left].
    + destruct (IH (step st Enter) H) as (Hi & Hn & He);
        [simpl; unfold enter; now rewrite Hst |].
      rewrite Hi, Hn, He. simpl. unfold enter. rewrite Hst. simpl.
      repeat split; lia.
    + destruct (IH (step st (Resume (Throw e))) H) as (Hi & Hn & He); [exact Hst |].
      rewrite Hi, Hn, He. simpl. repeat split; lia.
Qed.

(** X25. Once [initializeCloudSync] has succeeded for some call, the flag
    stays set: every later call returns [true] at once and
    [initializeCloudSync] is never invoked again. *)
Theorem initialized_once_for_all (actions later : list action) :
  existsb succeeded actions = true ->
  enter (run (actions ++ later)) = (Some true, run (actions ++ later)) /\
  invocations (run (actions ++ later)) = invocations (run actions).
Proof.
  intros H. unfold run. rewrite fold_left_app.
  pose proof (fold_succeeded actions start H) as Hi.
  destruct (fold_initialized later _ Hi) as [Hi' Hn].
  split; [| exact Hn]. unfold enter. now rewrite Hi'.
Qed.

(** X26. Until [initializeCloudSync] has succeeded once, the flag stays
    unset and calls are not merged: every call invokes [initializeCloudSync]
    again, also while an earlier invocation is still pending, and every
    failure is logged. *)
Theorem every_call_invokes_until_success (actions : list action) :
  existsb succeeded actions = false ->
  initialized (run actions) = false /\
  fst (enter (run actions)) = None /\
  invocations (run actions) = length (List.filter entered actions) /\
  errors_logged (run actions) = length (List.filter rejected actions).
Proof.
  intros H. destruct (fold_not_succeeded actions start H eq_refl) as (Hi & Hn & He).
  fold (run actions) in Hi, Hn, He.
  split; [exact Hi |]. split; [unfold enter; now rewrite Hi |].
  split; [exact Hn | exact He].
Qed.

(** X27. A call whose [initializeCloudSync] fails returns the flag as it is
    when the failure arrives: [true] when another call has succeeded in the
    meantime. *)
Theorem failed_call_returns_flag (actions later : list action) (error : js_error) :
  existsb succeeded actions = true ->
  fst (resume (Throw error) (run (actions ++ later))) = true.
Proof.
  intros H. unfold run. rewrite fold_left_app.
  pose proof (fold_succeeded actions start H) as Hi.
  destruct (fold_initialized later _ Hi) as [Hi' _].
  exact Hi'.
Qed.

End CloudSyncFacts.

Lemma initialized_once_for_all_witness :
  existsb CloudSync.succeeded [CloudSync.Enter; CloudSync.Resume (Normal tt)] = true /\
  CloudSync.invocations
    (CloudSync.run ([CloudSync.Enter; CloudSync.Resume (Normal tt)] ++
                    [CloudSync.Enter; CloudSync.Enter])) = 1.
Proof.
  split; [reflexivity |].
  exact (proj2 (CloudSyncFacts.initialized_once_for_all
                  [CloudSync.Enter; CloudSync.Resume (Normal tt)]
                  [CloudSync.Enter; CloudSync.Enter] eq_refl)).
Defined.

Lemma every_call_invokes_until_success_witness :
  existsb CloudSync.succeeded
    [CloudSync.Enter; CloudSync.Enter; CloudSync.Resume (Throw (TypeError "offline"))]
    = false /\
  CloudSync.invocations
    (CloudSync.run [CloudSync.Enter; CloudSync.Enter;
                    CloudSync.Resume (Throw (TypeError "offline"))]) = 2.
Proof.
  split; [reflexivity |].
  exact (proj1 (proj2 (proj2 (CloudSyncFacts.every_call_invokes_until_success
                  [CloudSync.Enter; CloudSync.Enter;
                   CloudSync.Resume (Throw (TypeError "offline"))] eq_refl)))).
Defined.

Lemma failed_call_returns_flag_witness :
  existsb CloudSync.succeeded
    [CloudSync.Enter; CloudSync.Enter; CloudSync.Resume (Normal tt)] = true /\
  fst (CloudSync.resume (Throw (TypeError "offline"))
         (CloudSync.run ([CloudSync.Enter; CloudSync.Enter; CloudSync.Resume (Normal tt)]
                         ++ []))) = true.
Proof.
  split; [reflexivity |].
  exact (CloudSyncFacts.failed_call_returns_flag
           [CloudSync.Enter; CloudSync.Enter; CloudSync.Resume (Normal tt)] []
           (TypeError "offline") eq_refl).
Defined.

(** ** What the translator returns, on the store *)

Module ResultFacts.

Import Heap HeapFacts.

(** Every normal completion of [m] returns a value that satisfies [P]. *)
Definition returns_only {A : Type} (m : M A) (P : A -> Prop) : Prop :=
  forall h v, fst (m h) = Normal v -> P v.

Lemma returns_bind {A B : Type} (m : M A) (k : A -> M B) (P : B -> Prop) :
  (forall x, returns_only (k x) P) -> returns_only (bind m k) P.
Proof.
  intros H h v. unfold bind.
  destruct (m h) as [[a | e] h']; [apply H | discriminate].
Qed.

Lemma after_setup_returns (JSON_stringify : heap -> hval -> completion hval)
  (result body input : hval) :
  returns_only (after_setup JSON_stringify result body input) (fun v => v = result).
Proof.
  unfold after_setup. repeat (apply returns_bind; intros ?).
  intros h v [= <-]. reflexivity.
Qed.

Lemma setup_returns (JSON_stringify : heap -> hval -> completion hval)
  (result body input : hval) :
  returns_only
    (let! empty := alloc (OArr []) in
     set result "messages" empty ;;
     after_setup JSON_stringify result body input)
    (fun v => v = result).
Proof.
  apply returns_bind. intros empty. apply returns_bind. intros u.
  apply after_setup_returns.
Qed.

(** X28. When the translator returns, it returns the caller's body itself,
    with the store untouched, when [body.input] is falsy, and otherwise the
    object it has allocated first: a reference that the store of the caller
    did not hold. *)
Theorem result_is_body_or_fresh (JSON_stringify : heap -> hval -> completion hval)
  (model body stream credentials : hval) (h : heap) (r : hval) :
  fst (openaiResponsesToOpenAIRequest JSON_stringify model body stream credentials h)
    = Normal r ->
  exists input,
    fst (get body "input" h) = Normal input /\
    if truthy input then r = HRef (length h) /\ h !! length h = None
    else r = body /\
         snd (openaiResponsesToOpenAIRequest JSON_stringify model body stream
                credentials h) = h.
Proof.
  rewrite translate_after_setup. unfold bind at 1.
  pose proof (get_reads body "input" h) as Hget.
  destruct (get body "input" h) as [[input | e] h1] eqn:Eget; simpl in Hget; subst h1;
    [| discriminate].
  intros H. exists input. split; [reflexivity |].
  destruct (truthy input) eqn:Et; cbn [negb] in *.
  - split; [| apply lookup_ge_None; lia].
    revert H. unfold bind at 1.
    pose proof (own_fields_reads body h) as Hown.
    destruct (own_fields body h) as [[fields | e] h1]; simpl in Hown; subst h1;
      [| discriminate].
    unfold bind at 1. cbn [alloc]. apply setup_returns.
  - cbn [ret fst] in H. split; [now injection H as <- |].
    unfold bind at 1. rewrite Eget, Et. reflexivity.
Qed.

End ResultFacts.

Lemma result_is_body_or_fresh_witness :
  fst (Heap.openaiResponsesToOpenAIRequest Heap.JSON_stringify (Heap.HStr "gpt-4o")
         (Heap.HRef 4) (Heap.HBool false) Heap.HNull (snd (Heap.store scenario_body [])))
    = Normal (Heap.HRef 5) /\
  exists input,
    fst (Heap.get (Heap.HRef 4) "input" (snd (Heap.store scenario_body [])))
      = Normal input /\
    if Heap.truthy input
    then Heap.HRef 5 = Heap.HRef (length (snd (Heap.store scenario_body []))) /\
         snd (Heap.store scenario_body []) !! length (snd (Heap.store scenario_body []))
           = None
    else Heap.HRef 5 = Heap.HRef 4 /\
         snd (Heap.openaiResponsesToOpenAIRequest Heap.JSON_stringify (Heap.HStr "gpt-4o")
                (Heap.HRef 4) (Heap.HBool false) Heap.HNull
                (snd (Heap.store scenario_body [])))
           = snd (Heap.store scenario_body []).
Proof.
  assert (H : fst (Heap.openaiResponsesToOpenAIRequest Heap.JSON_stringify
                     (Heap.HStr "gpt-4o") (Heap.HRef 4) (Heap.HBool false) Heap.HNull
                     (snd (Heap.store scenario_body [])))
              = Normal (Heap.HRef 5)) by (vm_compute; reflexivity).
  split; [exact H |].
  exact (ResultFacts.result_is_body_or_fresh Heap.JSON_stringify (Heap.HStr "gpt-4o")
           (Heap.HRef 4) (Heap.HBool false) Heap.HNull (snd (Heap.store scenario_body []))
           (Heap.HRef 5) H).
Defined.

(** ** The machine id *)

Module MachineIdFacts.

Import MachineId.

Section Digest.

Variable sha256_hex : string -> string.

Lemma raw_cached (machineIdSync : completion string) (e : env) (saltValue id : string)
  (st : state) :
  cachedRawMachineId st = Some id -> id <> EmptyString ->
  getRawMachineIdWithFallback sha256_hex machineIdSync e saltValue st = (id, st).
Proof.
  intros Hc Hne. unfold getRawMachineIdWithFallback. rewrite Hc.
  destruct id; [now contradiction Hne | reflexivity].
Qed.

Lemma raw_caches (machineIdSync : completion string) (e : env) (saltValue : string)
  (st : state) :
  cachedRawMachineId
    (snd (getRawMachineIdWithFallback sha256_hex machineIdSync e saltValue st)) =
  Some (fst (getRawMachineIdWithFallback sha256_hex machineIdSync e saltValue st)) \/
  fst (getRawMachineIdWithFallback sha256_hex machineIdSync e saltValue st) = EmptyString.
Proof.
  unfold getRawMachineIdWithFallback.
  destruct (cachedRawMachineId st) as [[| a id] |] eqn:Hc; cbn [truthy String.eqb negb];
    try (destruct machineIdSync as [id' | error]); now left.
Qed.

Lemma perform_cached (c : call) (id : string) (st : state) :
  cachedRawMachineId st = Some id -> id <> EmptyString ->
  raw_of sha256_hex c st = id /\ snd (perform sha256_hex c st) = st.
Proof.
  intros Hc Hne. destruct c as [machineIdSync e salt | machineIdSync e]; simpl.
  - unfold getConsistentMachineId. rewrite (raw_cached _ _ _ id) by assumption. now split.
  - unfold getRawMachineId. rewrite (raw_cached _ _ _ id) by assumption. now split.
Qed.

Lemma perform_caches (c : call) (st : state) :
  cachedRawMachineId (snd (perform sha256_hex c st)) = Some (raw_of sha256_hex c st) \/
  raw_of sha256_hex c st = EmptyString.
Proof.
  destruct c as [machineIdSync e salt | machineIdSync e]; simpl.
  - unfold getConsistentMachineId.
    pose proof (raw_caches machineIdSync e
                  (or_else salt (or_else (MACHINE_ID_SALT e) "endpoint-proxy-salt")) st)
      as H.
    destruct (getRawMachineIdWithFallback sha256_hex machineIdSync e _ st) as [raw st'].
    exact H.
  - apply raw_caches.
Qed.

Lemma raws_cached (calls : list call) (id : string) (st : state) :
  cachedRawMachineId st = Some id -> id <> EmptyString ->
  Forall (fun raw => raw = id) (raws sha256_hex calls st) /\ run sha256_hex calls st = st.
Proof.
  intros Hc Hne. induction calls as [| c rest IH]; [now split |].
  destruct (perform_cached c id st Hc Hne) as [Hraw Hst].
  simpl. rewrite Hst. destruct IH as [IH1 IH2]. split; [now constructor | exact IH2].
Qed.

(** X29. The raw machine id is fixed by the first call that obtains a
    non-empty one: every later call, of either exported function, works with
    that same raw id whatever its salt, the environment and [machineIdSync] do
    by then, and changes nothing in the module. *)
Theorem raw_machine_id_stable (first : call) (later : list call) (st : state) :
  raw_of sha256_hex first st <> EmptyString ->
  Forall (fun raw => raw = raw_of sha256_hex first st)
         (raws sha256_hex (first :: later) st) /\
  run sha256_hex (first :: later) st = snd (perform sha256_hex first st).
Proof.
  intros Hne. simpl.
  destruct (perform_caches first st) as [Hc | He]; [| contradiction].
  destruct (raws_cached later _ _ Hc Hne) as [H1 H2].
  split; [now constructor | exact H2].
Qed.

(** X30. When [machineIdSync] fails at the first call, the raw id is the
    digest of host, user and the salt of that call, and it stays: a later
    call with another salt hashes this raw id, built from the first salt, with
    its own salt. *)
Theorem fallback_keeps_first_salt (error : js_error) (e e' : env) (salt salt' : string)
  (machineIdSync' : completion string) :
  salt <> EmptyString -> salt' <> EmptyString ->
  (forall s, sha256_hex s <> EmptyString) ->
  let st := snd (getConsistentMachineId sha256_hex (Throw error) e (Some salt) start) in
  cachedRawMachineId st = Some (buildStableFallbackId sha256_hex e ("raw:" +:+ salt)) /\
  getConsistentMachineId sha256_hex machineIdSync' e' (Some salt') st =
    (substring 0 16
       (sha256_hex (buildStableFallbackId sha256_hex e ("raw:" +:+ salt) +:+ salt')),
     st).
Proof.
  intros Hs Hs' Hdigest. cbv zeta.
  assert (Hor : forall s d, s <> EmptyString -> or_else (Some s) d = s).
  { intros s d H. destruct s; [now contradiction H | reflexivity]. }
  assert (Hc : cachedRawMachineId
                 (snd (getConsistentMachineId sha256_hex (Throw error) e (Some salt) start))
               = Some (buildStableFallbackId sha256_hex e ("raw:" +:+ salt))).
  { unfold getConsistentMachineId. rewrite (Hor salt) by exact Hs. reflexivity. }
  set (st := snd (getConsistentMachineId sha256_hex (Throw error) e (Some salt) start)) in *.
  split; [exact Hc |].
  unfold getConsistentMachineId. rewrite (Hor salt') by exact Hs'.
  rewrite (raw_cached _ _ _ (buildStableFallbackId sha256_hex e ("raw:" +:+ salt)));
    [reflexivity | exact Hc | apply Hdigest].
Qed.

End Digest.

End MachineIdFacts.

Lemma raw_machine_id_stable_witness :
  MachineId.raw_of MachineId.sample_digest
    (MachineId.Raw (Throw (TypeError "no machine id")) MachineId.sample_env)
    MachineId.start <> EmptyString /\
  Forall (fun raw =>
            raw = MachineId.raw_of MachineId.sample_digest
                    (MachineId.Raw (Throw (TypeError "no machine id")) MachineId.sample_env)
                    MachineId.start)
         (MachineId.raws MachineId.sample_digest
            [MachineId.Raw (Throw (TypeError "no machine id")) MachineId.sample_env;
             MachineId.Consistent (Normal "real-id") MachineId.sample_env (Some "salt-2")]
            MachineId.start).
Proof.
  assert (Hne : MachineId.raw_of MachineId.sample_digest
                  (MachineId.Raw (Throw (TypeError "no machine id")) MachineId.sample_env)
                  MachineId.start <> EmptyString) by (vm_compute; discriminate).
  split; [exact Hne |].
  exact (proj1 (MachineIdFacts.raw_machine_id_stable MachineId.sample_digest
                  (MachineId.Raw (Throw (TypeError "no machine id")) MachineId.sample_env)
                  [MachineId.Consistent (Normal "real-id") MachineId.sample_env
                     (Some "salt-2")]
                  MachineId.start Hne)).
Defined.

Lemma fallback_keeps_first_salt_witness :
  (forall s, MachineId.sample_digest s <> EmptyString) /\
  MachineId.cachedRawMachineId
    (snd (MachineId.getConsistentMachineId MachineId.sample_digest
            (Throw (TypeError "no machine id")) MachineId.sample_env (Some "salt-1")
            MachineId.start)) =
  Some (MachineId.buildStableFallbackId MachineId.sample_digest MachineId.sample_env
          "raw:salt-1").
Proof.
  assert (Hd : forall s, MachineId.sample_digest s <> EmptyString)
    by (intros s; unfold MachineId.sample_digest; simpl; discriminate).
  assert (H1 : "salt-1" <> EmptyString) by discriminate.
  assert (H2 : "salt-2" <> EmptyString) by discriminate.
  split; [exact Hd |].
  exact (proj1 (MachineIdFacts.fallback_keeps_first_salt MachineId.sample_digest
                  (TypeError "no machine id") MachineId.sample_env MachineId.sample_env
                  "salt-1" "salt-2" (Normal "real-id") H1 H2 Hd)).
Defined.
